(** * EE547 Homework 1, problem 3: the document processor and the corpus analyzer

    A shallow embedding of [src/problem3/processor/process.py] and
    [src/problem3/analyzer/analyze.py], and the properties of the pipeline
    stated in the specification.

    Conventions of the embedding.
    - A Python [str] is a list of Unicode code points ([str := list N]).
    - The tables of the Unicode character database that the program reaches
      through [str.strip], [str.lower] and the [re] module are the fields of
      the class [UnicodeDB]; every general result holds for all tables that
      satisfy the three laws of the class.
    - [re] patterns are terms of [regex], run by a backtracking matcher with
      the priorities of Python's engine (greedy before shorter, lazy before
      longer, leftmost start first).
    - A Python [float] that is the quotient of two [int]s is written as the
      exact quotient ([Q], kept in lowest terms); what the program does
      with it next ([round], [*]) starts from the binary64 number nearest
      to that quotient ([b64]), as the correctly rounded division of
      CPython gives it.  The range of the exponent is not modelled: the
      quotients of the program are counts over counts.
    - Exceptions are values of [result]; the file system is an explicit
      argument. *)

From Stdlib Require Import Bool Ascii String DecimalString.
From Stdlib Require Import List NArith ZArith QArith Qround Qpower Qabs Arith Lia Lqa
  Permutation Sorted.
Import ListNotations.

Set Implicit Arguments.
Local Close Scope Q_scope.
Local Open Scope nat_scope.
Local Open Scope list_scope.

(* ================================================================== *)
(** * Python strings *)
(* ================================================================== *)

Definition cp := N.
Definition str := list cp.

(** A Rocq string literal read as a Python string of ASCII characters. *)
Definition cps (s : string) : str := map N_of_ascii (list_ascii_of_string s).

Definition TAB : cp := 9%N.
Definition NL : cp := 10%N.
Definition VT : cp := 11%N.
Definition FF : cp := 12%N.
Definition CR : cp := 13%N.
Definition SP : cp := 32%N.
Definition LT : cp := 60%N.
Definition GT : cp := 62%N.
Definition UNDERSCORE : cp := 95%N.

Definition is_char (c : cp) : cp -> bool := N.eqb c.
Definition not_char (c : cp) : cp -> bool := fun x => negb (N.eqb c x).
Definition one_of (l : str) : cp -> bool := fun x => existsb (N.eqb x) l.
Definition none_of (l : str) : cp -> bool := fun x => negb (existsb (N.eqb x) l).
Definition in_range (lo hi : cp) : cp -> bool := fun x => (N.leb lo x && N.leb x hi)%bool.
Definition any_char : cp -> bool := fun _ => true.

Fixpoint str_eqb (a b : str) : bool :=
  match a, b with
  | [], [] => true
  | x :: a', y :: b' => (N.eqb x y && str_eqb a' b')%bool
  | _, _ => false
  end.

(** [a <= b] in Python's order on [str]: lexicographic on code points. *)
Fixpoint str_leb (a b : str) : bool :=
  match a, b with
  | [], _ => true
  | _ :: _, [] => false
  | x :: a', y :: b' => if N.ltb x y then true else if N.eqb x y then str_leb a' b' else false
  end.

Definition str_ltb (a b : str) : bool := (str_leb a b && negb (str_eqb a b))%bool.

(** The part of the Unicode character database the program depends on. *)
Class UnicodeDB := {
  (** [str.isspace] on one character; also the class [\s] of [re]. *)
  uc_isspace : cp -> bool;
  (** [str.isalnum] on one character; [\w] is this or an underscore. *)
  uc_isalnum : cp -> bool;
  (** the class [\d] of [re] on [str] patterns. *)
  uc_isdecimal : cp -> bool;
  (** [str.lower]. *)
  uc_lower : str -> str;
  (** [re.IGNORECASE]: does the pattern character match the text character. *)
  uc_caseless : cp -> cp -> bool;
  uc_isspace_NL : uc_isspace NL = true;
  uc_isspace_LT : uc_isspace LT = false;
  uc_isspace_GT : uc_isspace GT = false
}.

(* ================================================================== *)
(** * The fragment of [re] the program uses *)
(* ================================================================== *)

Module Re.

(** Patterns.  Repetition is only ever applied to a character class in the
    program's patterns, so [Rep] and [RepLazy] take a class. *)
Inductive regex : Type :=
| Eps                          (* the empty pattern *)
| Chr (p : cp -> bool)         (* one character of a class *)
| Seq (r1 r2 : regex)          (* r1 r2 *)
| Opt (r : regex)              (* r?   greedy *)
| Rep (p : cp -> bool)         (* [p]*  greedy *)
| RepLazy (p : cp -> bool)     (* [p]*? lazy *)
| Bnd (w : cp -> bool)         (* \b for the word class w *)
| Dollar                       (* $ without MULTILINE *)
| Grp (r : regex).             (* ( r ), the only group of its pattern *)

Definition Plus (p : cp -> bool) : regex := Seq (Chr p) (Rep p).

Fixpoint Lit (eq : cp -> cp -> bool) (l : str) : regex :=
  match l with
  | [] => Eps
  | c :: l' => Seq (Chr (eq c)) (Lit eq l')
  end.

(** The group of a match: the input where the group starts and where it ends. *)
Definition capture := option (str * str).
Definition outcome := option (str * capture).
Definition cont := option cp -> str -> capture -> outcome.

Definition wordness (w : cp -> bool) (o : option cp) : bool :=
  match o with Some c => w c | None => false end.

Definition at_boundary (w : cp -> bool) (prev : option cp) (s : str) : bool :=
  xorb (wordness w prev) (wordness w (hd_error s)).

Fixpoint rep_greedy (p : cp -> bool) (k : cont) (prev : option cp) (s : str) (g : capture)
  : outcome :=
  match s with
  | c :: s' =>
      if p c then
        match rep_greedy p k (Some c) s' g with
        | Some r => Some r
        | None => k prev s g
        end
      else k prev s g
  | [] => k prev [] g
  end.

Fixpoint rep_lazy (p : cp -> bool) (k : cont) (prev : option cp) (s : str) (g : capture)
  : outcome :=
  match k prev s g with
  | Some r => Some r
  | None =>
      match s with
      | c :: s' => if p c then rep_lazy p k (Some c) s' g else None
      | [] => None
      end
  end.

(** [exec r k prev s g]: match [r] at the head of [s], the character before
    being [prev], then continue with [k]; alternatives are tried in the
    order of a backtracking engine. *)
Fixpoint exec (r : regex) (k : cont) (prev : option cp) (s : str) (g : capture) : outcome :=
  match r with
  | Eps => k prev s g
  | Chr p =>
      match s with
      | c :: s' => if p c then k (Some c) s' g else None
      | [] => None
      end
  | Seq r1 r2 => exec r1 (exec r2 k) prev s g
  | Opt r1 =>
      match exec r1 k prev s g with
      | Some x => Some x
      | None => k prev s g
      end
  | Rep p => rep_greedy p k prev s g
  | RepLazy p => rep_lazy p k prev s g
  | Bnd w => if at_boundary w prev s then k prev s g else None
  | Dollar =>
      match s with
      | [] => k prev s g
      | [c] => if N.eqb c NL then k prev s g else None
      | _ => None
      end
  | Grp r1 => exec r1 (fun prev' s' _ => k prev' s' (Some (s, s'))) prev s g
  end.

Definition accept : cont := fun _ s g => Some (s, g).

Definition taken (before after : str) : str :=
  firstn (length before - length after) before.

(** The match of [r] that starts exactly at the head of [s]: its length and
    the text of its group. *)
Definition match_at (r : regex) (prev : option cp) (s : str) : option (nat * option str) :=
  match exec r accept prev s None with
  | Some (s', g) =>
      Some (length s - length s', option_map (fun ab => taken (fst ab) (snd ab)) g)
  | None => None
  end.

Definition match_len (r : regex) (prev : option cp) (s : str) : option nat :=
  option_map fst (match_at r prev s).

(** [re.sub(r, repl, s)] for a pattern that matches no empty string and a
    replacement without back-references.  [skip] counts the characters of
    the current match that are still to be passed over. *)
Fixpoint sub_from (r : regex) (repl : str) (skip : nat) (prev : option cp) (s : str) : str :=
  match s with
  | [] => []
  | c :: s' =>
      match skip with
      | S n => sub_from r repl n (Some c) s'
      | O =>
          match match_len r prev s with
          | Some (S n) => repl ++ sub_from r repl n (Some c) s'
          | _ => c :: sub_from r repl 0 (Some c) s'
          end
      end
  end.

Definition sub (r : regex) (repl : str) (s : str) : str := sub_from r repl 0 None s.

(** [re.findall(r, s)]: the group of each match when the pattern has one,
    the whole match otherwise. *)
Fixpoint findall_from (r : regex) (skip : nat) (prev : option cp) (s : str) : list str :=
  match s with
  | [] => []
  | c :: s' =>
      match skip with
      | S n => findall_from r n (Some c) s'
      | O =>
          match match_at r prev s with
          | Some (S n, g) =>
              match g with Some t => t | None => firstn (S n) s end
                :: findall_from r n (Some c) s'
          | _ => findall_from r 0 (Some c) s'
          end
      end
  end.

Definition findall (r : regex) (s : str) : list str := findall_from r 0 None s.

Definition push (c : cp) (pieces : list str) : list str :=
  match pieces with
  | p :: ps => (c :: p) :: ps
  | [] => [[c]]
  end.

(** [re.split(r, s)] for a pattern without group. *)
Fixpoint split_from (r : regex) (skip : nat) (prev : option cp) (s : str) : list str :=
  match s with
  | [] => [[]]
  | c :: s' =>
      match skip with
      | S n => split_from r n (Some c) s'
      | O =>
          match match_len r prev s with
          | Some (S n) => [] :: split_from r n (Some c) s'
          | _ => push c (split_from r 0 (Some c) s')
          end
      end
  end.

Definition split (r : regex) (s : str) : list str := split_from r 0 None s.

(** [re.match(r, s)]: the group of the match at the start of [s]. *)
Definition match_group (r : regex) (s : str) : option str :=
  match match_at r None s with
  | Some (_, g) => g
  | None => None
  end.

End Re.

(* ================================================================== *)
(** * Methods of [str] *)
(* ================================================================== *)

Section StrMethods.
Context {U : UnicodeDB}.

Fixpoint lstrip (s : str) : str :=
  match s with
  | c :: s' => if uc_isspace c then lstrip s' else s
  | [] => []
  end.

Definition rstrip (s : str) : str := rev (lstrip (rev s)).

(** [s.strip()] *)
Definition strip (s : str) : str := rstrip (lstrip s).

(** [\w] with [re.UNICODE]. *)
Definition is_word (c : cp) : bool := (uc_isalnum c || N.eqb c UNDERSCORE)%bool.

End StrMethods.

(** [s.split(sep)] for a separator of one character. *)
Fixpoint split_char (sep : cp) (s : str) : list str :=
  match s with
  | [] => [[]]
  | c :: s' => if N.eqb c sep then [] :: split_char sep s' else Re.push c (split_char sep s')
  end.

(** [sep.join(pieces)] *)
Fixpoint join (sep : str) (pieces : list str) : str :=
  match pieces with
  | [] => []
  | [p] => p
  | p :: ps => p ++ sep ++ join sep ps
  end.

(** [sorted(l)] on a list of [str]. *)
Fixpoint insert_sorted (x : str) (l : list str) : list str :=
  match l with
  | [] => [x]
  | y :: l' => if str_leb x y then x :: l else y :: insert_sorted x l'
  end.

Definition sorted (l : list str) : list str := fold_right insert_sorted [] l.

(** [str(n)] for a non-negative [int]. *)
Definition str_of_nat (n : nat) : str := cps (NilEmpty.string_of_uint (Nat.to_uint n)).

(** [os.path.basename] *)
Definition basename (path : str) : str := last (split_char 47%N path) [].

(* ================================================================== *)
(** * Values shared by the two programs *)
(* ================================================================== *)

Inductive exn : Type :=
| OSError (msg : str)
| UnicodeDecodeError (msg : str)
| AttributeError (msg : str).

(** [f"{type(e).__name__}: {e}"] *)
Definition format_exn (e : exn) : str :=
  match e with
  | OSError msg => cps "OSError: " ++ msg
  | UnicodeDecodeError msg => cps "UnicodeDecodeError: " ++ msg
  | AttributeError msg => cps "AttributeError: " ++ msg
  end.

Inductive result (A : Type) : Type :=
| Ok (a : A)
| Raise (e : exn).
Arguments Ok {A} a.
Arguments Raise {A} e.

Definition bind {A B : Type} (m : result A) (f : A -> result B) : result B :=
  match m with
  | Ok a => f a
  | Raise e => Raise e
  end.

Notation "'let*' x ':=' m 'in' f" := (bind m (fun x => f))
  (at level 10, x name, m at level 100, f at level 200).

(** What [json.dump] writes and [json.load] reads. *)
#[warnings="-register-all"]
Inductive json : Type :=
| JNull
| JBool (b : bool)
| JInt (n : Z)
| JFloat (q : Q)
| JStr (s : str)
| JArr (items : list json)
| JObj (fields : list (str * json)).

(** A [dict] (and a [Counter]) keeps its keys in the order of their first
    insertion; assigning to a key that is present keeps its place. *)
Fixpoint dict_get {V : Type} (k : str) (d : list (str * V)) : option V :=
  match d with
  | [] => None
  | (k', v) :: d' => if str_eqb k k' then Some v else dict_get k d'
  end.

Fixpoint dict_set {V : Type} (k : str) (v : V) (d : list (str * V)) : list (str * V) :=
  match d with
  | [] => [(k, v)]
  | (k', v') :: d' => if str_eqb k k' then (k, v) :: d' else (k', v') :: dict_set k v d'
  end.

(** The nearest integer, a tie going to the even one. *)
Definition round_half_even (q : Q) : Z :=
  let f := Qfloor q in
  let d := Qminus q (inject_Z f) in
  match Qcompare d (1 # 2) with
  | Lt => f
  | Gt => (f + 1)%Z
  | Eq => if Z.even f then f else (f + 1)%Z
  end.

Definition pow2 (e : Z) : Q := Qpower 2 e.

(** The integer part of the binary logarithm of a positive rational. *)
Definition ilog2 (q : Q) : Z :=
  let k := (Z.log2 (Qnum q) - Z.log2 (Zpos (Qden q)))%Z in
  if Qle_bool (pow2 k) q then k else (k - 1)%Z.

(** The nearest number with a significand of 53 bits to a positive
    rational, a tie going to the even significand. *)
Definition nearest53 (q : Q) : Q :=
  let e := (ilog2 q - 52)%Z in
  Qmult (inject_Z (round_half_even (Qmult q (pow2 (- e))))) (pow2 e).

(** The binary64 number nearest to a rational (round to nearest, ties to
    even), as an exact rational. *)
Definition b64 (q : Q) : Q :=
  match Qcompare q 0 with
  | Eq => 0%Q
  | Gt => Qred (nearest53 q)
  | Lt => Qred (Qopp (nearest53 (Qopp q)))
  end.

(** Python's [round(x, n)] for the float [x] nearest to [q].  CPython
    writes the exact value of [x] in decimal, rounds it at [n] places, a tie
    going to the even digit, and returns the float nearest to that decimal;
    the result is given here as the decimal, which is what [json.dump]
    prints for it.  So [round(87/80, 3)] is 1.087, the float 87/80 being
    just under 1.0875, and [round(0.125, 2)] is 0.12, the float being the
    tie itself. *)
Definition pyround (q : Q) (n : nat) : Q :=
  let scale := (10 ^ Z.of_nat n)%Z in
  Qred (Qmake (round_half_even (Qmult (b64 q) (inject_Z scale))) (Z.to_pos scale)).

(** [a / b] on two non-negative [int]s, for [b > 0]: the exact quotient,
    for the float nearest to it. *)
Definition truediv (a b : nat) : Q := Qred (Qmake (Z.of_nat a) (Pos.of_nat b)).

(** [x * y] on two floats: the exact product of the floats nearest to the
    two rationals, for the float nearest to it. *)
Definition fmul (x y : Q) : Q := Qred (Qmult (b64 x) (b64 y)).

(* ================================================================== *)
(** * [bytes.decode('utf-8', errors=...)] *)
(* ================================================================== *)

Module Utf8.

Inductive errors : Type := Strict | Ignore.

Definition between (lo hi b : N) : bool := (N.leb lo b && N.leb b hi)%bool.
Definition continuation (b : N) : bool := between 128 191 b.
Definition low6 (b : N) : N := (b - 128)%N.

(** The well-formed sequence at the head of the bytes, if there is one
    (table 3-7 of the Unicode standard): its code point and its length. *)
Definition sequence (bs : list N) : option (cp * nat) :=
  match bs with
  | [] => None
  | b0 :: r =>
      if N.ltb b0 128 then Some (b0, 1)
      else if between 194 223 b0 then
        match r with
        | b1 :: _ =>
            if continuation b1 then Some (((b0 - 192) * 64 + low6 b1)%N, 2) else None
        | _ => None
        end
      else if between 224 239 b0 then
        match r with
        | b1 :: b2 :: _ =>
            let lo := if N.eqb b0 224 then 160%N else 128%N in
            let hi := if N.eqb b0 237 then 159%N else 191%N in
            if (between lo hi b1 && continuation b2)%bool
            then Some (((b0 - 224) * 4096 + low6 b1 * 64 + low6 b2)%N, 3)
            else None
        | _ => None
        end
      else if between 240 244 b0 then
        match r with
        | b1 :: b2 :: b3 :: _ =>
            let lo := if N.eqb b0 240 then 144%N else 128%N in
            let hi := if N.eqb b0 244 then 143%N else 191%N in
            if (between lo hi b1 && continuation b2 && continuation b3)%bool
            then Some (((b0 - 240) * 262144 + low6 b1 * 4096 + low6 b2 * 64 + low6 b3)%N, 4)
            else None
        | _ => None
        end
      else None
  end.

(** Under [Ignore] a byte that starts no well-formed sequence is passed
    over.  (CPython passes over the maximal ill-formed subpart at once; its
    bytes after the first are continuation bytes, which start no sequence,
    so the text is the same.) *)
Fixpoint decode_from (e : errors) (skip : nat) (bs : list N) : result str :=
  match bs with
  | [] => Ok []
  | b :: bs' =>
      match skip with
      | S n => decode_from e n bs'
      | O =>
          match sequence bs with
          | Some (c, len) =>
              let* s := decode_from e (len - 1) bs' in Ok (c :: s)
          | None =>
              match e with
              | Strict => Raise (UnicodeDecodeError (cps "invalid start byte"))
              | Ignore => decode_from e 0 bs'
              end
          end
      end
  end.

Definition decode (e : errors) (raw : list Byte.byte) : result str :=
  decode_from e 0 (map Byte.to_N raw).

End Utf8.

(* ================================================================== *)
(** * processor/process.py *)
(* ================================================================== *)

Module Processor.
Import Re.

Section Program.
Context {U : UnicodeDB}.

(** A literal under [re.IGNORECASE]. *)
Definition ci (l : string) : regex := Lit uc_caseless (cps l).

(** [<script[^>]*>.*?</script>] with DOTALL | IGNORECASE *)
Definition RE_script : regex :=
  Seq (ci "<script") (Seq (Rep (not_char GT)) (Seq (ci ">")
    (Seq (RepLazy any_char) (ci "</script>")))).

(** [<style[^>]*>.*?</style>] with DOTALL | IGNORECASE *)
Definition RE_style : regex :=
  Seq (ci "<style") (Seq (Rep (not_char GT)) (Seq (ci ">")
    (Seq (RepLazy any_char) (ci "</style>")))).

Definition QUOTES : str := [39%N; 34%N].

(** [href=['"]?([^'" >]+)] with IGNORECASE *)
Definition RE_href : regex :=
  Seq (ci "href=") (Seq (Opt (Chr (one_of QUOTES)))
    (Grp (Plus (none_of (QUOTES ++ [SP; GT]))))).

(** [src=['"]?([^'" >]+)] with IGNORECASE *)
Definition RE_src : regex :=
  Seq (ci "src=") (Seq (Opt (Chr (one_of QUOTES)))
    (Grp (Plus (none_of (QUOTES ++ [SP; GT]))))).

(** [</p>], [<br\s*/?>], [</div>], [</li>], [</h[1-6]>], [</tr>],
    each with IGNORECASE *)
Definition block_tags : list regex :=
  [ ci "</p>";
    Seq (ci "<br") (Seq (Rep uc_isspace) (Seq (Opt (ci "/")) (ci ">")));
    ci "</div>";
    ci "</li>";
    Seq (ci "</h") (Seq (Chr (in_range 49%N 54%N)) (ci ">"));
    ci "</tr>" ].

(** [<[^>]+>] *)
Definition RE_tag : regex :=
  Seq (Chr (is_char LT)) (Seq (Plus (not_char GT)) (Chr (is_char GT))).

(** [\r] *)
Definition RE_cr : regex := Chr (is_char CR).

(** [\n{2,}] *)
Definition RE_nl2 : regex := Seq (Chr (is_char NL)) (Plus (is_char NL)).

(** [\n{3,}] *)
Definition RE_nl3 : regex :=
  Seq (Chr (is_char NL)) (Seq (Chr (is_char NL)) (Plus (is_char NL))).

(** [[ \t\f\v]+] *)
Definition RE_blanks : regex := Plus (one_of [SP; TAB; FF; VT]).

(** [\b\w+\b] with UNICODE *)
Definition RE_word : regex := Seq (Bnd is_word) (Seq (Plus is_word) (Bnd is_word)).

(** [[.!?]+] *)
Definition RE_stop : regex := Plus (one_of (cps ".!?")).

(** [(page_\d+)\.html$] with IGNORECASE *)
Definition RE_page : regex :=
  Seq (Grp (Seq (ci "page_") (Plus uc_isdecimal))) (Seq (ci ".html") Dollar).

Definition strip_html (html_content : str) : str * list str * list str :=
  (* Remove script and style elements *)
  let html_content := sub RE_script [] html_content in
  let html_content := sub RE_style [] html_content in
  (* Extract links before removing tags *)
  let links := findall RE_href html_content in
  (* Extract images *)
  let images := findall RE_src html_content in
  (* Convert common block-level tags to newlines *)
  let html_content := fold_left (fun h tag => sub tag [NL] h) block_tags html_content in
  (* Remove HTML tags *)
  let text := sub RE_tag [SP] html_content in
  (* Normalize whitespace *)
  let text := sub RE_cr [NL] text in
  let text := sub RE_nl2 [NL; NL] text in
  let text := sub RE_blanks [SP] text in
  let text := join [NL] (map strip (split_char NL text)) in
  let text := strip (sub RE_nl3 [NL; NL] text) in
  (text, links, images).

Definition nonblank (s : str) : bool :=
  match strip s with [] => false | _ :: _ => true end.

Definition tokenize_words (text : str) : list str := findall RE_word text.

Definition split_sentences (text : str) : list str :=
  let parts := split RE_stop text in
  map strip (filter nonblank parts).

Definition count_paragraphs_from_text_preserving_double_newlines (text : str) : nat :=
  if negb (nonblank text) then 0
  else
    let paras := split RE_nl2 (strip text) in
    let paras := filter nonblank paras in
    length paras.

Definition sum (l : list nat) : nat := fold_left Nat.add l 0.

(** The stage's view of the shared store and of the clock. *)
Record world : Type := {
  (** [glob(RAW_DIR/*.html)], in the order the directory gives them *)
  raw_files : list str;
  (** [open(path, 'rb').read()] *)
  read_bytes : str -> result (list Byte.byte);
  (** can [write_json] create and fill that path *)
  writable : str -> bool;
  (** [utcnow_iso()] while the file of that index is processed *)
  clock : nat -> str
}.

Definition process_html_file (w : world) (now : str) (path : str) : json + str :=
  let fname := basename path in
  let attempt :=
    let* raw := read_bytes w path in
    let* html := Utf8.decode Utf8.Ignore raw in
    let '(text, links, images) := strip_html html in
    let words := tokenize_words text in
    let sentences := split_sentences text in
    let paragraph_count := count_paragraphs_from_text_preserving_double_newlines text in
    let word_count := length words in
    let sentence_count := length sentences in
    let avg_word_len :=
      match word_count with
      | O => 0%Q
      | S _ => pyround (truediv (sum (map (@length cp) words)) word_count) 3
      end in
    Ok (JObj [
      (cps "source_file", JStr fname);
      (cps "text", JStr text);
      (cps "statistics", JObj [
        (cps "word_count", JInt (Z.of_nat word_count));
        (cps "sentence_count", JInt (Z.of_nat sentence_count));
        (cps "paragraph_count", JInt (Z.of_nat paragraph_count));
        (cps "avg_word_length", JFloat avg_word_len) ]);
      (cps "links", JArr (map JStr links));
      (cps "images", JArr (map JStr images));
      (cps "processed_at", JStr now) ]) in
  match attempt with
  | Ok out => inl out
  | Raise e => inr (format_exn e)
  end.

Definition store := list (str * json).

Definition write_json (w : world) (path : str) (obj : json) (fs : store) : result store :=
  if writable w path then Ok (dict_set path obj fs)
  else Raise (OSError path).

Record entry : Type := {
  source : str;
  output : option str;
  status : str;
  error : option str
}.

Record manifest : Type := {
  timestamp : str;
  files_found : nat;
  successful : nat;
  failed : nat;
  results : list entry
}.

Definition manifest_json (m : manifest) : json :=
  JObj [
    (cps "timestamp", JStr (timestamp m));
    (cps "files_found", JInt (Z.of_nat (files_found m)));
    (cps "successful", JInt (Z.of_nat (successful m)));
    (cps "failed", JInt (Z.of_nat (failed m)));
    (cps "results", JArr (map (fun e =>
       JObj ([ (cps "source", JStr (source e));
               (cps "output", match output e with Some o => JStr o | None => JNull end);
               (cps "status", JStr (status e)) ]
             ++ match error e with Some err => [(cps "error", JStr err)] | None => [] end))
       (results m))) ].

Definition STATUS_DIR : str := cps "/shared/status".
Definition RAW_DIR : str := cps "/shared/raw".
Definition PROCESSED_DIR : str := cps "/shared/processed".

(** [os.path.join(d, name)] for a relative [name]. *)
Definition path_join (d name : str) : str := d ++ cps "/" ++ name.

(** The variables of [main] that the loop over the files updates. *)
Record progress : Type := {
  p_results : list entry;
  p_success : nat;
  p_failed : nat;
  p_store : store
}.

(** The body of [for idx, path in enumerate(html_files, 1)]. *)
Definition step (w : world) (idx : nat) (path : str) (p : progress) : result progress :=
  match process_html_file w (clock w idx) path with
  | inl out =>
      let base := basename path in
      let stem :=
        match match_group RE_page base with
        | Some g => g
        | None => cps "page_" ++ str_of_nat idx
        end in
      let out_path := path_join PROCESSED_DIR (stem ++ cps ".json") in
      let* fs := write_json w out_path out (p_store p) in
      Ok {| p_results := p_results p ++
              [ {| source := base; output := Some (stem ++ cps ".json");
                   status := cps "success"; error := None |} ];
            p_success := p_success p + 1;
            p_failed := p_failed p;
            p_store := fs |}
  | inr err =>
      Ok {| p_results := p_results p ++
              [ {| source := basename path; output := None;
                   status := cps "failed"; error := Some err |} ];
            p_success := p_success p;
            p_failed := p_failed p + 1;
            p_store := p_store p |}
  end.

Fixpoint loop (w : world) (idx : nat) (files : list str) (p : progress) : result progress :=
  match files with
  | [] => Ok p
  | path :: rest =>
      let* p' := step w idx path p in
      loop w (S idx) rest p'
  end.

(** [main], from the point where [fetch_complete.json] has been seen: the
    manifest it writes and the store it leaves, or the exception that ends
    the run. *)
Definition main (w : world) (fs : store) : result (manifest * store) :=
  let html_files := sorted (raw_files w) in
  let* p := loop w 1 html_files
              {| p_results := []; p_success := 0; p_failed := 0; p_store := fs |} in
  let status :=
    {| timestamp := clock w (S (length html_files));
       files_found := length html_files;
       successful := p_success p;
       failed := p_failed p;
       results := p_results p |} in
  let* fs' := write_json w (path_join STATUS_DIR (cps "process_complete.json"))
                (manifest_json status) (p_store p) in
  Ok (status, fs').

End Program.
End Processor.

(* ================================================================== *)
(** * analyzer/analyze.py *)
(* ================================================================== *)

Module Analyzer.
Import Re.

Section Program.
Context {U : UnicodeDB}.

Definition mem (x : str) (l : list str) : bool := existsb (str_eqb x) l.

(** [set(words)]: the distinct elements, of which only the number is used. *)
Fixpoint set (words : list str) : list str :=
  match words with
  | [] => []
  | x :: rest => if mem x rest then set rest else x :: set rest
  end.

Definition intersection (s1 s2 : list str) : list str := filter (fun x => mem x s2) s1.
Definition union (s1 s2 : list str) : list str := s1 ++ filter (fun x => negb (mem x s1)) s2.

Definition jaccard_similarity (doc1_words doc2_words : list str) : Q :=
  let set1 := set doc1_words in
  let set2 := set doc2_words in
  let inter := intersection set1 set2 in
  let uni := union set1 set2 in
  match uni with
  | [] => 0%Q
  | _ :: _ => truediv (length inter) (length uni)
  end.

(** [\b\w+\b] with UNICODE *)
Definition RE_word : regex := Seq (Bnd is_word) (Seq (Plus is_word) (Bnd is_word)).

(** [[.!?]+] *)
Definition RE_stop : regex := Plus (one_of (cps ".!?")).

Definition tokenize_lower (text : str) : list str := findall RE_word (uc_lower text).

Definition nonblank (s : str) : bool :=
  match strip s with [] => false | _ :: _ => true end.

Definition sentences_in_text (text : str) : list str :=
  let parts := split RE_stop text in
  map strip (filter nonblank parts).

(** [islice(tokens, i, None)] *)
Definition islice {A : Type} (tokens : list A) (i : nat) : list A := skipn i tokens.

Fixpoint heads {A : Type} (ls : list (list A)) : option (list A) :=
  match ls with
  | [] => Some []
  | [] :: _ => None
  | (x :: _) :: rest =>
      match heads rest with
      | Some hs => Some (x :: hs)
      | None => None
      end
  end.

(** [zip(first, *others)]: tuples are produced until one argument runs out. *)
Fixpoint zip {A : Type} (first : list A) (others : list (list A)) : list (list A) :=
  match first with
  | [] => []
  | x :: first' =>
      match heads others with
      | Some hs => (x :: hs) :: zip first' (map (@tl A) others)
      | None => []
      end
  end.

Definition ngrams {A : Type} (tokens : list A) (n : nat) : list (list A) :=
  match n with
  | O => []
  | S m => zip (islice tokens 0) (map (islice tokens) (seq 1 m))
  end.

Definition counter := list (str * nat).

(** [Counter.update(words)] *)
Definition update (c : counter) (words : list str) : counter :=
  fold_left
    (fun c w => dict_set w (match dict_get w c with Some k => k | None => 0 end + 1) c)
    words c.

Fixpoint insert_by_count (x : str * nat) (l : counter) : counter :=
  match l with
  | [] => [x]
  | y :: l' => if snd y <=? snd x then x :: l else y :: insert_by_count x l'
  end.

(** [sorted(items, key=itemgetter(1), reverse=True)]: a stable sort. *)
Definition sorted_by_count (c : counter) : counter := fold_right insert_by_count [] c.

(** [Counter.most_common(n)] is [heapq.nlargest(n, items, key=itemgetter(1))],
    which returns what [sorted(items, key=..., reverse=True)[:n]] returns. *)
Definition most_common (c : counter) (n : nat) : counter := firstn n (sorted_by_count c).

(** [itertools.combinations(l, 2)] *)
Fixpoint combinations {A : Type} (l : list A) : list (A * A) :=
  match l with
  | [] => []
  | x :: l' => map (pair x) l' ++ combinations l'
  end.

Definition sum (l : list nat) : nat := fold_left Nat.add l 0.

Record word_entry : Type := { word : str; count : nat; frequency : Q }.
Record ngram_entry : Type := { ngram : str; ngram_count : nat }.
Record similarity_entry : Type := { doc1 : str; doc2 : str; similarity : Q }.
Record readability_entry : Type := {
  avg_sentence_length : Q;
  avg_word_length : Q;
  complexity_score : Q
}.

Record report : Type := {
  processing_timestamp : str;
  documents_processed : nat;
  total_words : nat;
  unique_words : nat;
  top_100_words : list word_entry;
  document_similarity : list similarity_entry;
  top_bigrams : list ngram_entry;
  top_trigrams : list ngram_entry;
  readability : readability_entry
}.

(** The stage's view of the shared store and of the clock. *)
Record world : Type := {
  (** [glob(PROCESSED_DIR/*.json)], in the order the directory gives them *)
  processed_files : list str;
  (** [read_processed_json(path)] *)
  read_processed_json : str -> result json;
  (** [utcnow_iso()] when the report is built *)
  now : str
}.

(** The variables of [main] that the loop over the documents updates. *)
Record totals : Type := {
  t_total_words : nat;
  vocab_counter : counter;
  bigram_counter : counter;
  trigram_counter : counter;
  doc_word_lists : list (str * list str);
  all_sentences : nat;
  total_sentence_len_words : nat;
  total_word_len : nat
}.

Definition start : totals :=
  {| t_total_words := 0; vocab_counter := []; bigram_counter := []; trigram_counter := [];
     doc_word_lists := []; all_sentences := 0; total_sentence_len_words := 0;
     total_word_len := 0 |}.

(** [d.get("text", "")] *)
Definition get_text (d : json) : result json :=
  match d with
  | JObj fields =>
      Ok (match dict_get (cps "text") fields with Some v => v | None => JStr [] end)
  | _ => Raise (AttributeError (cps "object has no attribute 'get'"))
  end.

(** The receiver of [text.lower()] and the argument of [re.split] must be a [str]. *)
Definition as_str (v : json) : result str :=
  match v with
  | JStr s => Ok s
  | _ => Raise (AttributeError (cps "object has no attribute 'lower'"))
  end.

(** The body of [for fname, d in docs]. *)
Definition step (t : totals) (doc : str * json) : result totals :=
  let '(fname, d) := doc in
  let* v := get_text d in
  let* text := as_str v in
  let words := tokenize_lower text in
  let sents := sentences_in_text text in
  Ok {| t_total_words := t_total_words t + length words;
        vocab_counter := update (vocab_counter t) words;
        bigram_counter := update (bigram_counter t) (map (join [SP]) (ngrams words 2));
        trigram_counter := update (trigram_counter t) (map (join [SP]) (ngrams words 3));
        doc_word_lists := dict_set fname words (doc_word_lists t);
        all_sentences := all_sentences t + length sents;
        total_sentence_len_words :=
          total_sentence_len_words t
          + sum (map (fun s => length (tokenize_lower s)) sents);
        total_word_len := total_word_len t + sum (map (@length cp) words) |}.

Fixpoint loop (t : totals) (docs : list (str * json)) : result totals :=
  match docs with
  | [] => Ok t
  | doc :: rest => let* t' := step t doc in loop t' rest
  end.

(** The first loop of [main]: a file that cannot be read is passed over. *)
Fixpoint load_docs (w : world) (paths : list str) : list (str * json) :=
  match paths with
  | [] => []
  | p :: rest =>
      match read_processed_json w p with
      | Ok data => (basename p, data) :: load_docs w rest
      | Raise _ => load_docs w rest
      end
  end.

Definition words_of (lists : list (str * list str)) (f : str) : list str :=
  match dict_get f lists with Some ws => ws | None => [] end.

Definition is_zero (q : Q) : bool := Qeq_bool q 0.

(** The report [main] builds from the loaded documents. *)
Definition build_report (timestamp : str) (docs : list (str * json)) : result report :=
  let* t := loop start docs in
  let total := t_total_words t in
  let top_100 :=
    map (fun wc => {| word := fst wc; count := snd wc;
                      frequency := match total with
                                   | O => 0%Q
                                   | S _ => truediv (snd wc) total
                                   end |})
        (most_common (vocab_counter t) 100) in
  let similarity_list :=
    map (fun pr =>
           let f1 := fst (fst pr) in
           let f2 := fst (snd pr) in
           let sim := jaccard_similarity (words_of (doc_word_lists t) f1)
                                         (words_of (doc_word_lists t) f2) in
           {| doc1 := f1; doc2 := f2; similarity := pyround sim 6 |})
        (combinations docs) in
  let avg_sentence_length :=
    match all_sentences t with
    | O => 0%Q
    | S _ => truediv (total_sentence_len_words t) (all_sentences t)
    end in
  let avg_word_length :=
    match total with
    | O => 0%Q
    | S _ => truediv (total_word_len t) total
    end in
  let complexity_score :=
    if (negb (is_zero avg_sentence_length) && negb (is_zero avg_word_length))%bool
    then fmul avg_sentence_length avg_word_length
    else 0%Q in
  Ok {| processing_timestamp := timestamp;
        documents_processed := length docs;
        total_words := total;
        unique_words := length (vocab_counter t);
        top_100_words := top_100;
        document_similarity := similarity_list;
        top_bigrams :=
          map (fun bc => {| ngram := fst bc; ngram_count := snd bc |})
              (most_common (bigram_counter t) 50);
        top_trigrams :=
          map (fun tc => {| ngram := fst tc; ngram_count := snd tc |})
              (most_common (trigram_counter t) 50);
        readability :=
          {| avg_sentence_length := pyround avg_sentence_length 3;
             avg_word_length := pyround avg_word_length 3;
             complexity_score := pyround complexity_score 3 |} |}.

(** [main], from the point where [process_complete.json] has been seen, up
    to the report it hands to [write_json]. *)
Definition main (w : world) : result report :=
  let processed := sorted (processed_files w) in
  let docs := load_docs w processed in
  build_report (now w) docs.

End Program.
End Analyzer.

(* ================================================================== *)
(** * The Unicode tables on the characters of the examples *)
(* ================================================================== *)

Local Open Scope N_scope.

(** [str.isspace]: the characters of category Zs or of bidirectional class
    WS, B or S. *)
Definition table_isspace (c : cp) : bool :=
  (in_range 9 13 c || in_range 28 32 c || N.eqb c 133 || N.eqb c 160 || N.eqb c 5760
   || in_range 8192 8202 c || N.eqb c 8232 || N.eqb c 8233 || N.eqb c 8239
   || N.eqb c 8287 || N.eqb c 12288)%bool.

(** [str.isalnum] on U+0000..U+007F, on U+0130 (LATIN CAPITAL LETTER I WITH
    DOT ABOVE, a letter) and on U+0307 (COMBINING DOT ABOVE, a mark). *)
Definition table_isalnum (c : cp) : bool :=
  (in_range 48 57 c || in_range 65 90 c || in_range 97 122 c || N.eqb c 304)%bool.

Definition table_isdecimal (c : cp) : bool := in_range 48 57 c.

(** [str.lower] on the same characters: U+0130 becomes U+0069 U+0307. *)
Definition table_lower_char (c : cp) : str :=
  if in_range 65 90 c then [c + 32]
  else if N.eqb c 304 then [105; 775]
  else [c].

Definition table_lower (s : str) : str := flat_map table_lower_char s.

Definition table_caseless (a b : cp) : bool :=
  let fold c := if in_range 65 90 c then c + 32 else c in
  N.eqb (fold a) (fold b).

Local Close Scope N_scope.

#[export] Instance table : UnicodeDB := {|
  uc_isspace := table_isspace;
  uc_isalnum := table_isalnum;
  uc_isdecimal := table_isdecimal;
  uc_lower := table_lower;
  uc_caseless := table_caseless;
  uc_isspace_NL := eq_refl;
  uc_isspace_LT := eq_refl;
  uc_isspace_GT := eq_refl
|}.

(* ================================================================== *)
(** * The statements of the specification, in the terms of the programs *)
(* ================================================================== *)

Module Spec.
Section Statements.
Context {U : UnicodeDB}.





(** The manifest entry of the file at position [idx] of the sorted input. *)
Definition entry_for (w : Processor.world) (idx : nat) (path : str) : Processor.entry :=
  match Processor.read_bytes w path with
  | Ok _ =>
      let stem :=
        match Re.match_group Processor.RE_page (basename path) with
        | Some g => g
        | None => cps "page_" ++ str_of_nat idx
        end in
      {| Processor.source := basename path;
         Processor.output := Some (stem ++ cps ".json");
         Processor.status := cps "success";
         Processor.error := None |}
  | Raise e =>
      {| Processor.source := basename path;
         Processor.output := None;
         Processor.status := cps "failed";
         Processor.error := Some (format_exn e) |}
  end.

Definition entries_for (w : Processor.world) (first : nat) (files : list str)
  : list Processor.entry :=
  map (fun ip => entry_for w (fst ip) (snd ip)) (combine (seq first (length files)) files).

Definition success_or_failed (e : Processor.entry) : Prop :=
  Processor.status e = cps "success" \/ Processor.status e = cps "failed".

(** The terms and counts of a top-K table of the report. *)
Definition word_table (l : list Analyzer.word_entry) : Analyzer.counter :=
  map (fun e => (Analyzer.word e, Analyzer.count e)) l.

Definition ngram_table (l : list Analyzer.ngram_entry) : Analyzer.counter :=
  map (fun e => (Analyzer.ngram e, Analyzer.ngram_count e)) l.

Definition counts_descending (l : Analyzer.counter) : Prop :=
  StronglySorted (fun x y => snd y <= snd x) l.

(** Equal counts come in ascending lexicographic order of the term. *)
Definition ties_ascending (l : Analyzer.counter) : Prop :=
  forall i j a b, i < j -> nth_error l i = Some a -> nth_error l j = Some b ->
    snd a = snd b -> str_ltb (fst a) (fst b) = true.

(** Equal counts come in the order the count table has them, which is the
    order in which their terms were first counted. *)
Definition ties_in_table_order (table l : Analyzer.counter) : Prop :=
  forall v, filter (fun e => snd e =? v) l = filter (fun e => snd e =? v) table.

(** [top] is the first [k] entries of the count table put in descending
    order of count, equal counts staying in the order of the table. *)
Definition top_of (k : nat) (table top : Analyzer.counter) : Prop :=
  exists l, Permutation l table /\ counts_descending l /\ ties_in_table_order table l
            /\ top = firstn k l.

(** [top] is the first [k] entries of the count table put in descending
    order of count, equal counts in ascending order of the term. *)
Definition top_lexicographic (k : nat) (table top : Analyzer.counter) : Prop :=
  exists l, Permutation l table /\ counts_descending l /\ ties_ascending l
            /\ top = firstn k l.

(** The distinct terms of a sequence, in the order of their first
    occurrence. *)
Fixpoint distinct (terms : list str) : list str :=
  match terms with
  | [] => []
  | w :: rest => w :: filter (fun x => negb (str_eqb x w)) (distinct rest)
  end.

Definition occurrences (terms : list str) (k : str) : nat :=
  length (filter (str_eqb k) terms).

(** The count table of a sequence of terms: each distinct term with the
    number of its occurrences, the terms in the order in which they first
    occur. *)
Definition count_table (terms : list str) : Analyzer.counter :=
  map (fun k => (k, occurrences terms k)) (distinct terms).

(** The words, the bigrams and the trigrams of a corpus, document after
    document. *)
Definition corpus_words (texts : list str) : list str :=
  concat (map Analyzer.tokenize_lower texts).

Definition corpus_ngrams (n : nat) (texts : list str) : list str :=
  concat (map (fun text => map (join [SP]) (Analyzer.ngrams (Analyzer.tokenize_lower text) n))
              texts).

(** The documents [main] loads. *)
Definition loaded (w : Analyzer.world) : list (str * json) :=
  Analyzer.load_docs w (sorted (Analyzer.processed_files w)).

(** [d.get("text", "")] when it is a [str]. *)
Definition text_of (d : json) : result str :=
  let* v := Analyzer.get_text d in Analyzer.as_str v.

Definition has_text (d : str * json) (text : str) : Prop := text_of (snd d) = Ok text.

(** The three top-K tables of every report are the highest counts of their
    tables, ties broken lexicographically. *)
Definition report_tops_lexicographic (w : Analyzer.world) : Prop :=
  forall r, Analyzer.main w = Ok r ->
  exists texts, Forall2 has_text (loaded w) texts
    /\ top_lexicographic 100 (count_table (corpus_words texts))
         (word_table (Analyzer.top_100_words r))
    /\ top_lexicographic 50 (count_table (corpus_ngrams 2 texts))
         (ngram_table (Analyzer.top_bigrams r))
    /\ top_lexicographic 50 (count_table (corpus_ngrams 3 texts))
         (ngram_table (Analyzer.top_trigrams r)).

(** Two reports that differ at most in [processing_timestamp]. *)
Definition same_but_timestamp (r1 r2 : Analyzer.report) : Prop :=
  Analyzer.documents_processed r1 = Analyzer.documents_processed r2
  /\ Analyzer.total_words r1 = Analyzer.total_words r2
  /\ Analyzer.unique_words r1 = Analyzer.unique_words r2
  /\ Analyzer.top_100_words r1 = Analyzer.top_100_words r2
  /\ Analyzer.document_similarity r1 = Analyzer.document_similarity r2
  /\ Analyzer.top_bigrams r1 = Analyzer.top_bigrams r2
  /\ Analyzer.top_trigrams r1 = Analyzer.top_trigrams r2
  /\ Analyzer.readability r1 = Analyzer.readability r2.

(** Two runs end the same way: with reports that differ at most in the
    timestamp, or with the same exception. *)
Definition runs_agree (a b : result Analyzer.report) : Prop :=
  match a, b with
  | Ok r1, Ok r2 => same_but_timestamp r1 r2
  | Raise e1, Raise e2 => e1 = e2
  | _, _ => False
  end.

(** Two stores hold, under each path, records with the same "text". *)
Definition same_text (a b : result json) : Prop :=
  match a, b with
  | Ok d1, Ok d2 => Analyzer.get_text d1 = Analyzer.get_text d2
  | Raise _, Raise _ => True
  | _, _ => False
  end.

(** The sum of a quantity over the documents. *)
Definition total (f : str -> nat) (texts : list str) : nat := list_sum (map f texts).

Definition words_in_sentences (text : str) : nat :=
  list_sum (map (fun s => length (Analyzer.tokenize_lower s)) (Analyzer.sentences_in_text text)).

Definition sentence_count (text : str) : nat := length (Analyzer.sentences_in_text text).

Definition token_chars (text : str) : nat :=
  list_sum (map (@length cp) (Analyzer.tokenize_lower text)).

Definition token_count (text : str) : nat := length (Analyzer.tokenize_lower text).

(** [a / b], and 0.0 when [b] is 0. *)
Definition ratio (a b : nat) : Q :=
  match b with
  | O => 0%Q
  | S _ => truediv a b
  end.

Definition exact_avg_sentence_length (texts : list str) : Q :=
  ratio (total words_in_sentences texts) (total sentence_count texts).

Definition exact_avg_word_length (texts : list str) : Q :=
  ratio (total token_chars texts) (total token_count texts).

Definition exact_complexity_score (texts : list str) : Q :=
  let asl := exact_avg_sentence_length texts in
  let awl := exact_avg_word_length texts in
  if (Analyzer.is_zero asl || Analyzer.is_zero awl)%bool then 0%Q else Qred (Qmult asl awl).

(** The readability composite, exactly as the formulas give it. *)
Definition readability_exact (texts : list str) : Analyzer.readability_entry :=
  {| Analyzer.avg_sentence_length := exact_avg_sentence_length texts;
     Analyzer.avg_word_length := exact_avg_word_length texts;
     Analyzer.complexity_score := exact_complexity_score texts |}.

(** The product of the two averages as the floats have it: the two
    quotients are floats, and so is their product. *)
Definition float_complexity_score (texts : list str) : Q :=
  let asl := exact_avg_sentence_length texts in
  let awl := exact_avg_word_length texts in
  if (Analyzer.is_zero asl || Analyzer.is_zero awl)%bool then 0%Q else fmul asl awl.

(** The three numbers, each rounded to three decimals by [round]. *)
Definition readability_rounded (texts : list str) : Analyzer.readability_entry :=
  {| Analyzer.avg_sentence_length := pyround (exact_avg_sentence_length texts) 3;
     Analyzer.avg_word_length := pyround (exact_avg_word_length texts) 3;
     Analyzer.complexity_score := pyround (float_complexity_score texts) 3 |}.

(** The report carries the readability composite exactly. *)
Definition report_readability_exact (w : Analyzer.world) : Prop :=
  forall r texts, Analyzer.main w = Ok r -> Forall2 has_text (loaded w) texts ->
    Analyzer.readability r = readability_exact texts.

(** The record is one that [process_html_file] returns for some raw file. *)
Definition written_by_processor (d : json) : Prop :=
  exists (w : Processor.world) (now path : str), Processor.process_html_file w now path = inl d.

(** [d["statistics"]["word_count"]] of a record. *)
Definition stored_word_count (d : json) : nat :=
  match d with
  | JObj fields =>
      match dict_get (cps "statistics") fields with
      | Some (JObj stats) =>
          match dict_get (cps "word_count") stats with
          | Some (JInt n) => Z.to_nat n
          | _ => 0
          end
      | _ => 0
      end
  | _ => 0
  end.

(** [total_words] is the sum of the stored word counts of the loaded
    records, when the Processor wrote them. *)
Definition total_is_stored_sum (w : Analyzer.world) : Prop :=
  Forall (fun d => written_by_processor (snd d)) (loaded w) ->
  forall r, Analyzer.main w = Ok r ->
    Analyzer.total_words r = list_sum (map (fun d => stored_word_count (snd d)) (loaded w)).

(** Lower-casing leaves the word characters of the text where they are. *)
Definition lower_keeps_words (text : str) : Prop :=
  map is_word (uc_lower text) = map is_word text.

Definition lower_keeps_words_of (d : str * json) : Prop :=
  forall text, has_text d text -> lower_keeps_words text.

(** The text [strip_html] extracts. *)
Definition extracted (html : str) : str := fst (fst (Processor.strip_html html)).




(** No white space (a newline is white space) at either end. *)
Definition trimmed (t : str) : Prop :=
  (forall c rest, t = c :: rest -> uc_isspace c = false)
  /\ (forall front c, t = front ++ [c] -> uc_isspace c = false).


Definition whitespace_only (t : str) : Prop := Forall (fun c => uc_isspace c = true) t.

(** The blocks of a text are its groups of lines between empty lines; a
    block is counted at its first line that is not blank.  [counted] says
    that the block being read has been counted already. *)
Fixpoint count_blocks (counted : bool) (lines : list str) : nat :=
  match lines with
  | [] => 0
  | [] :: rest => count_blocks false rest
  | (_ :: _) as l :: rest =>
      if (Processor.nonblank l && negb counted)%bool
      then S (count_blocks true rest)
      else count_blocks counted rest
  end.

(** The number of blocks of the trimmed text that are not blank. *)
Definition paragraphs_by_lines (text : str) : nat :=
  count_blocks false (split_char NL (strip text)).

End Statements.
End Spec.

(* ================================================================== *)
(** * Decoding *)
(* ================================================================== *)

Lemma decode_from_ignore_total (bs : list N) :
  forall skip, exists s, Utf8.decode_from Utf8.Ignore skip bs = Ok s.
Proof.
  induction bs as [|b bs IH]; intros skip; cbn [Utf8.decode_from].
  - now exists [].
  - destruct skip as [|n]; [|apply IH].
    destruct (Utf8.sequence (b :: bs)) as [[c len]|].
    + destruct (IH (len - 1)) as [s Hs]. rewrite Hs. cbn [bind]. now exists (c :: s).
    + apply IH.
Qed.

Lemma decode_ignore_total (raw : list Byte.byte) :
  exists s, Utf8.decode Utf8.Ignore raw = Ok s.
Proof. apply decode_from_ignore_total. Qed.





(* ================================================================== *)
(** * The processor's loop over the raw files *)
(* ================================================================== *)

Section ProcessorLoop.
Context {U : UnicodeDB}.
Import Processor.

Lemma process_html_file_cases (w : world) (now path : str) :
  match read_bytes w path with
  | Ok _ => exists out, process_html_file w now path = inl out
  | Raise e => process_html_file w now path = inr (format_exn e)
  end.
Proof.
  unfold process_html_file.
  destruct (read_bytes w path) as [raw|e]; cbn [bind]; [|reflexivity].
  destruct (decode_ignore_total raw) as [html ->]. cbn [bind].
  destruct (strip_html html) as [[text links] images]. eauto.
Qed.

(** One turn of the loop appends the entry of its file and counts it, or
    ends the run because the record could not be written. *)
Lemma step_cases (w : world) (idx : nat) (path : str) (p : progress) :
  match step w idx path p with
  | Ok p' =>
      p_results p' = p_results p ++ [Spec.entry_for w idx path]
      /\ p_success p' + p_failed p' = S (p_success p + p_failed p)
  | Raise e => exists out_path, writable w out_path = false /\ e = OSError out_path
  end.
Proof.
  unfold step, Spec.entry_for.
  pose proof (process_html_file_cases w (clock w idx) path) as H.
  destruct (read_bytes w path) as [raw|e].
  - destruct H as [out ->]. unfold write_json.
    match goal with |- context [writable w ?q] => destruct (writable w q) eqn:Hw end; simpl.
    + split; [reflexivity|lia].
    + eauto.
  - rewrite H. simpl. split; [reflexivity|lia].
Qed.

Lemma loop_cases (w : world) (files : list str) :
  forall idx p,
  match loop w idx files p with
  | Ok p' =>
      p_results p' = p_results p ++ Spec.entries_for w idx files
      /\ p_success p' + p_failed p' = p_success p + p_failed p + length files
  | Raise e => exists out_path, writable w out_path = false /\ e = OSError out_path
  end.
Proof.
  induction files as [|path rest IH]; intros idx p; simpl.
  - unfold Spec.entries_for; simpl. rewrite app_nil_r. split; [reflexivity|lia].
  - pose proof (step_cases w idx path p) as Hs.
    destruct (step w idx path p) as [p1|e]; simpl; [|exact Hs].
    destruct Hs as [Hr Hc].
    specialize (IH (S idx) p1).
    destruct (loop w (S idx) rest p1) as [p2|e]; [|exact IH].
    destruct IH as [Hr2 Hc2]. split.
    + rewrite Hr2, Hr, <- app_assoc. reflexivity.
    + lia.
Qed.

Lemma entries_for_length (w : world) (first : nat) (files : list str) :
  length (Spec.entries_for w first files) = length files.
Proof.
  unfold Spec.entries_for.
  rewrite length_map, length_combine, length_seq. lia.
Qed.

Lemma entry_for_source (w : world) (idx : nat) (path : str) :
  source (Spec.entry_for w idx path) = basename path.
Proof. unfold Spec.entry_for. now destruct (read_bytes w path). Qed.

Lemma entry_for_status (w : world) (idx : nat) (path : str) :
  Spec.success_or_failed (Spec.entry_for w idx path).
Proof.
  unfold Spec.success_or_failed, Spec.entry_for.
  destruct (read_bytes w path); simpl; auto.
Qed.

Lemma entries_for_sources (w : world) (files : list str) :
  forall first, map source (Spec.entries_for w first files) = map basename files.
Proof.
  unfold Spec.entries_for.
  induction files as [|f files IH]; intros first; simpl; [reflexivity|].
  rewrite entry_for_source. f_equal. apply IH.
Qed.

Lemma entries_for_status (w : world) (first : nat) (files : list str) :
  Forall Spec.success_or_failed (Spec.entries_for w first files).
Proof.
  unfold Spec.entries_for. apply Forall_forall. intros e He.
  apply in_map_iff in He. destruct He as [[i f] [<- _]]. apply entry_for_status.
Qed.

Lemma main_cases (w : world) (fs : store) :
  match main w fs with
  | Ok (m, _) =>
      results m = Spec.entries_for w 1 (sorted (raw_files w))
      /\ files_found m = length (sorted (raw_files w))
      /\ successful m + failed m = files_found m
  | Raise e => exists out_path, writable w out_path = false /\ e = OSError out_path
  end.
Proof.
  unfold main.
  pose proof (loop_cases w (sorted (raw_files w)) 1
    {| p_results := []; p_success := 0; p_failed := 0; p_store := fs |}) as H.
  destruct (loop w 1 (sorted (raw_files w)) _) as [p|e]; simpl; [|exact H].
  simpl in H. destruct H as [Hr Hc].
  unfold write_json.
  match goal with |- context [writable w ?q] => destruct (writable w q) eqn:Hw end; simpl.
  - repeat split; [exact Hr|lia].
  - eauto.
Qed.

End ProcessorLoop.

Lemma str_eqb_refl (a : str) : str_eqb a a = true.
Proof. induction a as [|x a IH]; simpl; [reflexivity|]. now rewrite N.eqb_refl, IH. Qed.

Lemma str_eqb_eq (a b : str) : str_eqb a b = true <-> a = b.
Proof.
  split; [|intros ->; apply str_eqb_refl].
  revert b. induction a as [|x a IH]; intros [|y b]; simpl; try discriminate; auto.
  intros H. apply andb_true_iff in H. destruct H as [Hx Hr].
  apply N.eqb_eq in Hx. apply IH in Hr. congruence.
Qed.

Lemma dict_get_set_same {V : Type} (k : str) (v : V) (d : list (str * V)) :
  dict_get k (dict_set k v d) = Some v.
Proof.
  induction d as [|[k' v'] d IH]; simpl.
  - now rewrite str_eqb_refl.
  - destruct (str_eqb k k') eqn:E; simpl; rewrite ?str_eqb_refl, ?E; auto.
Qed.

Lemma insert_sorted_length (x : str) (l : list str) :
  length (insert_sorted x l) = S (length l).
Proof.
  induction l as [|y l IH]; simpl; [reflexivity|].
  destruct (str_leb x y); simpl; auto.
Qed.

Lemma sorted_length (l : list str) : length (sorted l) = length l.
Proof.
  induction l as [|x l IH]; simpl; [reflexivity|].
  now rewrite insert_sorted_length, IH.
Qed.

Section ProcessorManifest.
Context {U : UnicodeDB}.
Import Processor.

Lemma main_writes_manifest (w : world) (fs : store) (m : manifest) (fs' : store) :
  main w fs = Ok (m, fs') ->
  dict_get (path_join STATUS_DIR (cps "process_complete.json")) fs' = Some (manifest_json m).
Proof.
  unfold main.
  destruct (loop w 1 (sorted (raw_files w)) _) as [p|e]; simpl; [|discriminate].
  unfold write_json.
  match goal with |- context [writable w ?q] => destruct (writable w q) end; simpl;
    [|discriminate].
  intros H. injection H as <- <-. apply dict_get_set_same.
Qed.

(** C2: whenever the Processor writes its manifest, [successful + failed]
    is [files_found], which is the number of raw files, the results have
    [files_found] entries, the entry at each position is the entry of the
    input file at that position of the sorted input, and every entry has
    status "success" or "failed".  The run ends without a manifest only
    when an output file cannot be written. *)
Theorem C2_manifest_counts (w : world) (fs : store) :
  match main w fs with
  | Ok (m, fs') =>
      dict_get (path_join STATUS_DIR (cps "process_complete.json")) fs'
        = Some (manifest_json m)
      /\ successful m + failed m = files_found m
      /\ files_found m = length (raw_files w)
      /\ length (results m) = files_found m
      /\ map source (results m) = map basename (sorted (raw_files w))
      /\ Forall Spec.success_or_failed (results m)
  | Raise e => exists out_path, writable w out_path = false /\ e = OSError out_path
  end.
Proof.
  pose proof (main_cases w fs) as H.
  pose proof (main_writes_manifest w fs) as Hw.
  destruct (main w fs) as [[m fs']|e]; [|exact H].
  destruct H as (Hr & Hf & Hc).
  split; [now apply Hw|].
  split; [exact Hc|].
  split; [now rewrite Hf, sorted_length|].
  split; [now rewrite Hr, entries_for_length|].
  split; [rewrite Hr; apply entries_for_sources|].
  rewrite Hr. apply entries_for_status.
Qed.

End ProcessorManifest.

Section ProcessorErrors.
Context {U : UnicodeDB}.
Import Processor.


End ProcessorErrors.


(* ================================================================== *)
(** * Jaccard similarity *)
(* ================================================================== *)

Section Jaccard.
Import Analyzer.

Lemma mem_In (x : str) (l : list str) : mem x l = true <-> In x l.
Proof.
  unfold mem. rewrite existsb_exists. split.
  - intros (y & Hy & E). apply str_eqb_eq in E. now subst.
  - intros H. exists x. split; [exact H|apply str_eqb_refl].
Qed.

Lemma mem_ext (l l' : list str) :
  (forall x, In x l <-> In x l') -> forall x, mem x l = mem x l'.
Proof.
  intros H x. destruct (mem x l) eqn:E, (mem x l') eqn:E'; try reflexivity.
  - apply mem_In, H, mem_In in E. congruence.
  - apply mem_In, H, mem_In in E'. congruence.
Qed.

Lemma set_In (l : list str) (x : str) : In x (set l) <-> In x l.
Proof.
  induction l as [|y l IH]; simpl; [tauto|].
  destruct (mem y l) eqn:E; simpl; rewrite IH; [|tauto].
  apply mem_In in E. split; [tauto|]. intros [<-|H]; assumption.
Qed.

Lemma set_NoDup (l : list str) : NoDup (set l).
Proof.
  induction l as [|y l IH]; simpl; [constructor|].
  destruct (mem y l) eqn:E; [exact IH|].
  constructor; [|exact IH].
  rewrite set_In, <- mem_In. congruence.
Qed.

Lemma intersection_In (s1 s2 : list str) (x : str) :
  In x (intersection s1 s2) <-> In x s1 /\ In x s2.
Proof. unfold intersection. now rewrite filter_In, mem_In. Qed.

Lemma union_In (s1 s2 : list str) (x : str) :
  In x (union s1 s2) <-> In x s1 \/ In x s2.
Proof.
  unfold union. rewrite in_app_iff, filter_In, negb_true_iff. split.
  - tauto.
  - intros [H|H]; [tauto|].
    destruct (mem x s1) eqn:E; [left; now apply mem_In|right; tauto].
Qed.

Lemma intersection_NoDup (s1 s2 : list str) : NoDup s1 -> NoDup (intersection s1 s2).
Proof. apply NoDup_filter. Qed.

Lemma union_NoDup (s1 s2 : list str) : NoDup s1 -> NoDup s2 -> NoDup (union s1 s2).
Proof.
  intros H1 H2. unfold union. apply NoDup_app; [exact H1|now apply NoDup_filter|].
  intros x Hx Hf. apply filter_In in Hf. destruct Hf as [_ Hf].
  apply mem_In in Hx. rewrite Hx in Hf. discriminate.
Qed.

End Jaccard.

Section JaccardProperties.
Import Analyzer.

Lemma truediv_same (n : nat) : n <> 0 -> truediv n n = 1%Q.
Proof.
  intros Hn. unfold truediv.
  change 1%Q with (Qred 1). apply Qred_complete.
  unfold Qeq. cbn [Qnum Qden]. destruct n as [|m]; [congruence|].
  rewrite <- Pos.of_nat_succ, Zpos_P_of_succ_nat, Nat2Z.inj_succ. lia.
Qed.

Lemma jaccard_by_size (a b : list str) :
  jaccard_similarity a b =
    match length (union (set a) (set b)) with
    | O => 0%Q
    | S _ => truediv (length (intersection (set a) (set b))) (length (union (set a) (set b)))
    end.
Proof. unfold jaccard_similarity. now destruct (union (set a) (set b)). Qed.

Lemma intersection_size_comm (s1 s2 : list str) :
  NoDup s1 -> NoDup s2 -> length (intersection s1 s2) = length (intersection s2 s1).
Proof.
  intros H1 H2. apply Permutation_length, NoDup_Permutation.
  - now apply intersection_NoDup.
  - now apply intersection_NoDup.
  - intros x. rewrite !intersection_In. tauto.
Qed.

Lemma union_size_comm (s1 s2 : list str) :
  NoDup s1 -> NoDup s2 -> length (union s1 s2) = length (union s2 s1).
Proof.
  intros H1 H2. apply Permutation_length, NoDup_Permutation.
  - now apply union_NoDup.
  - now apply union_NoDup.
  - intros x. rewrite !union_In. tauto.
Qed.

Lemma filter_all {A : Type} (f : A -> bool) (l : list A) :
  (forall x, In x l -> f x = true) -> filter f l = l.
Proof.
  induction l as [|x l IH]; simpl; intros H; [reflexivity|].
  rewrite (H x) by auto. f_equal. apply IH. auto.
Qed.

Lemma filter_none {A : Type} (f : A -> bool) (l : list A) :
  (forall x, In x l -> f x = false) -> filter f l = [].
Proof.
  induction l as [|x l IH]; simpl; intros H; [reflexivity|].
  rewrite (H x) by auto. apply IH. auto.
Qed.

Lemma filter_size_perm {A : Type} (f : A -> bool) (l l' : list A) :
  Permutation l l' -> length (filter f l) = length (filter f l').
Proof.
  induction 1 as [|x l l' _ IH|x y l|l l' l'' _ IH1 _ IH2]; simpl.
  - reflexivity.
  - destruct (f x); simpl; congruence.
  - destruct (f x), (f y); reflexivity.
  - congruence.
Qed.

Lemma jaccard_self (a : list str) : a <> [] -> jaccard_similarity a a = 1%Q.
Proof.
  intros Ha. rewrite jaccard_by_size.
  assert (Hi : intersection (set a) (set a) = set a).
  { apply filter_all. intros x Hx. now apply mem_In. }
  assert (Hu : union (set a) (set a) = set a).
  { unfold union. rewrite filter_none, app_nil_r; [reflexivity|].
    intros x Hx. apply negb_false_iff. now apply mem_In. }
  rewrite Hi, Hu.
  destruct (length (set a)) as [|n] eqn:E.
  - apply length_zero_iff_nil in E. destruct a as [|x a]; [congruence|].
    assert (In x (set (x :: a))) by (apply set_In; now left).
    rewrite E in *. contradiction.
  - now apply truediv_same.
Qed.

Lemma jaccard_comm (a b : list str) : jaccard_similarity a b = jaccard_similarity b a.
Proof.
  rewrite !jaccard_by_size.
  rewrite (intersection_size_comm (set_NoDup a) (set_NoDup b)).
  rewrite (union_size_comm (set_NoDup a) (set_NoDup b)).
  reflexivity.
Qed.

Lemma str_eqb_neq (a b : str) : a <> b -> str_eqb a b = false.
Proof.
  intros H. destruct (str_eqb a b) eqn:E; [|reflexivity].
  apply str_eqb_eq in E. contradiction.
Qed.

Lemma jaccard_abc_bcd (a b c d : str) (l1 l2 : list str) :
  NoDup [a; b; c; d] ->
  (forall x, In x l1 <-> In x [a; b; c]) ->
  (forall x, In x l2 <-> In x [b; c; d]) ->
  jaccard_similarity l1 l2 = (1 # 2)%Q.
Proof.
  intros Hnd H1 H2.
  assert (Hne : a <> b /\ a <> c /\ a <> d /\ b <> c /\ b <> d /\ c <> d).
  { repeat match goal with H : NoDup (_ :: _) |- _ => inversion H; clear H; subst end.
    simpl in *. repeat split; intros ->; tauto. }
  destruct Hne as (Hab & Hac & Had & Hbc & Hbd & Hcd).
  assert (Nabc : NoDup [a; b; c]).
  { repeat constructor; simpl; intuition congruence. }
  assert (Nbcd : NoDup [b; c; d]).
  { repeat constructor; simpl; intuition congruence. }
  assert (P1 : Permutation (set l1) [a; b; c]).
  { apply NoDup_Permutation; [apply set_NoDup|exact Nabc|].
    intros x. now rewrite set_In. }
  assert (P2 : Permutation (set l2) [b; c; d]).
  { apply NoDup_Permutation; [apply set_NoDup|exact Nbcd|].
    intros x. now rewrite set_In. }
  assert (E2 : forall x, mem x (set l2) = mem x [b; c; d]).
  { apply mem_ext. intros x. now rewrite set_In. }
  assert (E1 : forall x, mem x (set l1) = mem x [a; b; c]).
  { apply mem_ext. intros x. now rewrite set_In. }
  assert (Hi : length (intersection (set l1) (set l2)) = 2).
  { unfold intersection. rewrite (filter_ext _ _ E2), (filter_size_perm _ P1).
    unfold mem; simpl.
    rewrite !str_eqb_refl, (str_eqb_neq Hab), (str_eqb_neq Hac), (str_eqb_neq Had),
      (str_eqb_neq Hbc). simpl.
    now rewrite ?orb_true_r. }
  assert (Hu : length (union (set l1) (set l2)) = 4).
  { unfold union. rewrite length_app, (Permutation_length P1).
    rewrite (filter_ext _ (fun x => negb (mem x [a; b; c]))), (filter_size_perm _ P2).
    - unfold mem; simpl.
      rewrite !str_eqb_refl, (str_eqb_neq Hbc).
      rewrite (str_eqb_neq (not_eq_sym Hab)), (str_eqb_neq (not_eq_sym Hac)),
        (str_eqb_neq (not_eq_sym Hbc)), (str_eqb_neq (not_eq_sym Had)),
        (str_eqb_neq (not_eq_sym Hbd)), (str_eqb_neq (not_eq_sym Hcd)).
      simpl. now rewrite ?orb_true_r.
    - intros x. now rewrite E1. }
  rewrite jaccard_by_size, Hi, Hu. reflexivity.
Qed.

(** C4: the similarity of a non-empty token list with itself is 1, the
    similarity is symmetric, it is 0 for two empty lists, and it is 1/2 for
    any two token lists whose distinct tokens are a, b, c and b, c, d. *)
Theorem C4_jaccard :
  (forall a : list str, a <> [] -> jaccard_similarity a a = 1%Q)
  /\ (forall a b : list str, jaccard_similarity a b = jaccard_similarity b a)
  /\ jaccard_similarity [] [] = 0%Q
  /\ (forall (a b c d : str) (l1 l2 : list str),
        NoDup [a; b; c; d] ->
        (forall x, In x l1 <-> In x [a; b; c]) ->
        (forall x, In x l2 <-> In x [b; c; d]) ->
        jaccard_similarity l1 l2 = (1 # 2)%Q).
Proof.
  split; [exact jaccard_self|].
  split; [exact jaccard_comm|].
  split; [reflexivity|exact jaccard_abc_bcd].
Qed.

End JaccardProperties.

Lemma C4_jaccard_example :
  Analyzer.jaccard_similarity [cps "x"; cps "y"] [cps "x"; cps "y"] = 1%Q
  /\ Analyzer.jaccard_similarity [cps "a"; cps "b"; cps "c"; cps "a"]
       [cps "d"; cps "c"; cps "b"] = (1 # 2)%Q.
Proof.
  destruct C4_jaccard as (Hself & _ & _ & Habcd).
  split.
  - apply Hself. discriminate.
  - apply (Habcd (cps "a") (cps "b") (cps "c") (cps "d")).
    + repeat constructor; simpl; intuition discriminate.
    + intros x; simpl; tauto.
    + intros x; simpl; tauto.
Defined.

(* ================================================================== *)
(** * Counters and [most_common] *)
(* ================================================================== *)

Section MostCommon.
Import Analyzer.

Lemma insert_by_count_perm (x : str * nat) (l : counter) :
  Permutation (insert_by_count x l) (x :: l).
Proof.
  induction l as [|y l IH]; simpl; [reflexivity|].
  destruct (snd y <=? snd x); [reflexivity|].
  rewrite IH. apply perm_swap.
Qed.

Lemma sorted_by_count_perm (c : counter) : Permutation (sorted_by_count c) c.
Proof.
  induction c as [|x c IH]; simpl; [reflexivity|].
  rewrite insert_by_count_perm. now constructor.
Qed.

Lemma insert_by_count_descending (x : str * nat) (l : counter) :
  Spec.counts_descending l -> Spec.counts_descending (insert_by_count x l).
Proof.
  unfold Spec.counts_descending.
  induction l as [|y l IH]; simpl; intros Hs.
  - repeat constructor.
  - destruct (snd y <=? snd x) eqn:E.
    + apply Nat.leb_le in E. constructor; [exact Hs|].
      constructor; [exact E|].
      apply StronglySorted_inv in Hs. destruct Hs as [_ Hf].
      eapply Forall_impl; [|exact Hf]. simpl. intros; lia.
    + apply Nat.leb_gt in E.
      apply StronglySorted_inv in Hs. destruct Hs as [Hs Hf].
      constructor; [now apply IH|].
      rewrite (insert_by_count_perm x l). constructor; [lia|exact Hf].
Qed.

Lemma sorted_by_count_descending (c : counter) : Spec.counts_descending (sorted_by_count c).
Proof.
  induction c as [|x c IH]; simpl; [constructor|].
  now apply insert_by_count_descending.
Qed.

Lemma insert_by_count_ties (v : nat) (x : str * nat) (l : counter) :
  filter (fun e => snd e =? v) (insert_by_count x l) = filter (fun e => snd e =? v) (x :: l).
Proof.
  induction l as [|y l IH]; [reflexivity|].
  cbn [insert_by_count]. destruct (snd y <=? snd x) eqn:E; [reflexivity|].
  apply Nat.leb_gt in E. cbn [filter] in *.
  rewrite IH. destruct (snd y =? v) eqn:Ey; [|reflexivity].
  apply Nat.eqb_eq in Ey.
  assert (Ex : (snd x =? v) = false) by (apply Nat.eqb_neq; lia).
  now rewrite Ex.
Qed.

Lemma sorted_by_count_ties (c : counter) : Spec.ties_in_table_order c (sorted_by_count c).
Proof.
  intros v. induction c as [|x c IH]; [reflexivity|].
  cbn [sorted_by_count fold_right]. rewrite insert_by_count_ties.
  cbn [filter]. fold (sorted_by_count c). now rewrite IH.
Qed.

Lemma most_common_top (c : counter) (k : nat) : Spec.top_of k c (most_common c k).
Proof.
  exists (sorted_by_count c).
  split; [apply sorted_by_count_perm|].
  split; [apply sorted_by_count_descending|].
  split; [apply sorted_by_count_ties|reflexivity].
Qed.

End MostCommon.

(* ================================================================== *)
(** * What a [Counter] holds *)
(* ================================================================== *)

Section CountTables.
Import Analyzer.

Lemma dict_get_set {V : Type} (k k' : str) (v : V) (d : list (str * V)) :
  dict_get k (dict_set k' v d) = if str_eqb k k' then Some v else dict_get k d.
Proof.
  induction d as [|[x y] d IH]; simpl; [reflexivity|].
  destruct (str_eqb k' x) eqn:E; simpl.
  - apply str_eqb_eq in E. subst x. destruct (str_eqb k k'); reflexivity.
  - rewrite IH. destruct (str_eqb k x) eqn:E1; [|reflexivity].
    destruct (str_eqb k k') eqn:E2; [|reflexivity].
    apply str_eqb_eq in E1, E2. subst. rewrite str_eqb_refl in E. discriminate.
Qed.

Lemma dict_get_absent {V : Type} (k : str) (d : list (str * V)) :
  ~ In k (map fst d) -> dict_get k d = None.
Proof.
  induction d as [|[x y] d IH]; simpl; [reflexivity|]. intros H.
  rewrite str_eqb_neq by (intros ->; tauto). apply IH. tauto.
Qed.

(** Two tables with the same keys, each once, and the same values are equal. *)
Lemma table_ext (t1 : counter) :
  forall t2, map fst t1 = map fst t2 -> NoDup (map fst t1) ->
    (forall k, dict_get k t1 = dict_get k t2) -> t1 = t2.
Proof.
  induction t1 as [|[k1 v1] t1 IH]; intros [|[k2 v2] t2] Hk Hn Hg; try discriminate.
  - reflexivity.
  - simpl in Hk. injection Hk as <- Hk. inversion Hn as [|? ? Hnot Hn']; subst.
    pose proof (Hg k1) as H1. simpl in H1. rewrite str_eqb_refl in H1. injection H1 as <-.
    f_equal. apply IH; auto. intros k.
    destruct (str_eqb k k1) eqn:E.
    + apply str_eqb_eq in E. subst k.
      rewrite !dict_get_absent; auto. now rewrite <- Hk.
    + specialize (Hg k). simpl in Hg. now rewrite E in Hg.
Qed.

Lemma mem_app (k : str) (a b : list str) : mem k (a ++ b) = (mem k a || mem k b)%bool.
Proof. unfold mem. apply existsb_app. Qed.

Lemma distinct_In (terms : list str) (k : str) : In k (Spec.distinct terms) <-> In k terms.
Proof.
  induction terms as [|w terms IH]; simpl; [tauto|].
  rewrite filter_In, IH, negb_true_iff. split.
  - tauto.
  - intros [->|H]; [now left|].
    destruct (str_eqb k w) eqn:E; [left; symmetry; now apply str_eqb_eq|right; tauto].
Qed.

Lemma distinct_NoDup (terms : list str) : NoDup (Spec.distinct terms).
Proof.
  induction terms as [|w terms IH]; simpl; constructor.
  - rewrite filter_In, str_eqb_refl. simpl. intros [_ H]. discriminate.
  - now apply NoDup_filter.
Qed.

Lemma distinct_snoc (a : list str) (w : str) :
  Spec.distinct (a ++ [w]) =
    if mem w a then Spec.distinct a else Spec.distinct a ++ [w].
Proof.
  induction a as [|x a IH]; simpl; [reflexivity|].
  rewrite IH. destruct (str_eqb w x) eqn:E; simpl.
  - destruct (mem w a); [reflexivity|].
    rewrite filter_app. simpl. rewrite E. simpl. now rewrite app_nil_r.
  - destruct (mem w a); [reflexivity|].
    rewrite filter_app. simpl. rewrite E. reflexivity.
Qed.

Lemma occurrences_snoc (a : list str) (w k : str) :
  Spec.occurrences (a ++ [w]) k = Spec.occurrences a k + (if str_eqb k w then 1 else 0).
Proof.
  unfold Spec.occurrences. rewrite filter_app, length_app. simpl.
  now destruct (str_eqb k w).
Qed.

Lemma occurrences_absent (a : list str) (k : str) : mem k a = false -> Spec.occurrences a k = 0.
Proof.
  unfold Spec.occurrences, mem. induction a as [|x a IH]; simpl; [reflexivity|].
  destruct (str_eqb k x); simpl; [discriminate|exact IH].
Qed.

Lemma dict_get_count_table (terms : list str) (k : str) :
  dict_get k (Spec.count_table terms) =
    if mem k terms then Some (Spec.occurrences terms k) else None.
Proof.
  unfold Spec.count_table.
  assert (H : forall D, dict_get k (map (fun x => (x, Spec.occurrences terms x)) D)
                        = if mem k D then Some (Spec.occurrences terms k) else None).
  { induction D as [|x D IH]; simpl; [reflexivity|].
    destruct (str_eqb k x) eqn:E; simpl; [|exact IH].
    apply str_eqb_eq in E. now subst. }
  rewrite H, (mem_ext _ _ (distinct_In terms)). reflexivity.
Qed.

Lemma count_table_keys (terms : list str) :
  map fst (Spec.count_table terms) = Spec.distinct terms.
Proof. unfold Spec.count_table. rewrite map_map. simpl. apply map_id. Qed.

Lemma dict_set_keys {V : Type} (k : str) (v : V) (d : list (str * V)) :
  map fst (dict_set k v d) = if mem k (map fst d) then map fst d else map fst d ++ [k].
Proof.
  induction d as [|[x y] d IH]; simpl; [reflexivity|].
  destruct (str_eqb k x) eqn:E; simpl.
  - apply str_eqb_eq in E. now subst.
  - rewrite IH. now destruct (mem k (map fst d)).
Qed.

(** Counting one more term. *)
Lemma count_table_snoc (a : list str) (w : str) :
  dict_set w (match dict_get w (Spec.count_table a) with Some n => n | None => 0 end + 1)
    (Spec.count_table a) = Spec.count_table (a ++ [w]).
Proof.
  apply table_ext.
  - rewrite dict_set_keys, !count_table_keys, distinct_snoc.
    rewrite (mem_ext _ _ (distinct_In a)). reflexivity.
  - rewrite dict_set_keys, count_table_keys, (mem_ext _ _ (distinct_In a)).
    pose proof (distinct_NoDup (a ++ [w])) as H. rewrite distinct_snoc in H. exact H.
  - intros k. rewrite dict_get_set, !dict_get_count_table, mem_app, occurrences_snoc.
    unfold mem at 2. simpl. rewrite orb_false_r.
    destruct (str_eqb k w) eqn:E.
    + apply str_eqb_eq in E. subst k. rewrite orb_true_r.
      destruct (mem w a) eqn:M; [reflexivity|]. now rewrite occurrences_absent.
    + rewrite orb_false_r, Nat.add_0_r. reflexivity.
Qed.

(** [Counter.update] on a count table counts the new terms into it. *)
Lemma update_count_table (terms : list str) :
  forall a, update (Spec.count_table a) terms = Spec.count_table (a ++ terms).
Proof.
  unfold update. induction terms as [|w terms IH]; intros a; simpl.
  - now rewrite app_nil_r.
  - rewrite count_table_snoc, IH, <- app_assoc. reflexivity.
Qed.

End CountTables.

(* ================================================================== *)
(** * The report of the analyzer *)
(* ================================================================== *)

Section Report.
Context {U : UnicodeDB}.
Import Analyzer.

Lemma word_table_map (total : nat) (c : counter) :
  Spec.word_table
    (map (fun wc => {| word := fst wc; count := snd wc;
                       frequency := match total with
                                    | O => 0%Q
                                    | S _ => truediv (snd wc) total
                                    end |}) c) = c.
Proof.
  unfold Spec.word_table. rewrite map_map. simpl.
  induction c as [|[t n] c IH]; simpl; congruence.
Qed.

Lemma ngram_table_map (c : counter) :
  Spec.ngram_table (map (fun bc => {| ngram := fst bc; ngram_count := snd bc |}) c) = c.
Proof.
  unfold Spec.ngram_table. rewrite map_map. simpl.
  induction c as [|[t n] c IH]; simpl; congruence.
Qed.

(** The top-K tables of a report are [most_common] of the loop's counters. *)
Lemma build_report_tables (ts : str) (docs : list (str * json)) (r : report) :
  build_report ts docs = Ok r ->
  exists t, loop start docs = Ok t
    /\ Spec.word_table (top_100_words r) = most_common (vocab_counter t) 100
    /\ Spec.ngram_table (top_bigrams r) = most_common (bigram_counter t) 50
    /\ Spec.ngram_table (top_trigrams r) = most_common (trigram_counter t) 50.
Proof.
  unfold build_report. destruct (loop start docs) as [t|e]; simpl; [|discriminate].
  intros H. injection H as <-. exists t. simpl.
  rewrite word_table_map, !ngram_table_map. auto.
Qed.

End Report.

(* ================================================================== *)
(** * [sorted] puts a directory listing in one order *)
(* ================================================================== *)

Lemma str_leb_refl (a : str) : str_leb a a = true.
Proof.
  induction a as [|x a IH]; simpl; [reflexivity|].
  now rewrite N.ltb_irrefl, N.eqb_refl.
Qed.

Lemma str_leb_antisym (a : str) : forall b, str_leb a b = true -> str_leb b a = true -> a = b.
Proof.
  induction a as [|x a IH]; intros [|y b]; simpl; try discriminate; auto.
  destruct (N.ltb_spec x y), (N.ltb_spec y x); try lia;
    destruct (N.eqb_spec x y), (N.eqb_spec y x); try lia; try discriminate.
  intros H1 H2. subst. f_equal. now apply IH.
Qed.

Lemma str_leb_trans (a : str) :
  forall b c, str_leb a b = true -> str_leb b c = true -> str_leb a c = true.
Proof.
  induction a as [|x a IH]; intros [|y b] [|z c]; simpl; try discriminate; auto.
  destruct (N.ltb_spec x y), (N.ltb_spec y z), (N.ltb_spec x z); try lia; auto;
    destruct (N.eqb_spec x y), (N.eqb_spec y z), (N.eqb_spec x z);
    try lia; try discriminate; auto.
  apply IH.
Qed.

Lemma str_leb_total (a : str) : forall b, str_leb a b = false -> str_leb b a = true.
Proof.
  induction a as [|x a IH]; intros [|y b]; simpl; try discriminate; auto.
  destruct (N.ltb_spec x y), (N.ltb_spec y x); try lia; try discriminate; auto;
    destruct (N.eqb_spec x y), (N.eqb_spec y x); try lia; try discriminate; auto.
Qed.

Definition str_le (a b : str) : Prop := str_leb a b = true.

Lemma insert_sorted_perm (x : str) (l : list str) : Permutation (insert_sorted x l) (x :: l).
Proof.
  induction l as [|y l IH]; simpl; [reflexivity|].
  destruct (str_leb x y); [reflexivity|].
  rewrite IH. apply perm_swap.
Qed.

Lemma sorted_perm (l : list str) : Permutation (sorted l) l.
Proof.
  induction l as [|x l IH]; simpl; [reflexivity|].
  rewrite insert_sorted_perm. now constructor.
Qed.

Lemma insert_sorted_ordered (x : str) (l : list str) :
  StronglySorted str_le l -> StronglySorted str_le (insert_sorted x l).
Proof.
  induction l as [|y l IH]; simpl; intros Hs.
  - repeat constructor.
  - destruct (str_leb x y) eqn:E.
    + constructor; [exact Hs|]. constructor; [exact E|].
      apply StronglySorted_inv in Hs. destruct Hs as [_ Hf].
      eapply Forall_impl; [|exact Hf]. intros z Hz. eapply str_leb_trans; eassumption.
    + apply StronglySorted_inv in Hs. destruct Hs as [Hs Hf].
      constructor; [now apply IH|].
      rewrite (insert_sorted_perm x l). constructor; [now apply str_leb_total|exact Hf].
Qed.

Lemma sorted_ordered (l : list str) : StronglySorted str_le (sorted l).
Proof.
  induction l as [|x l IH]; simpl; [constructor|].
  now apply insert_sorted_ordered.
Qed.

Lemma ordered_unique (l1 : list str) :
  forall l2, StronglySorted str_le l1 -> StronglySorted str_le l2 ->
    Permutation l1 l2 -> l1 = l2.
Proof.
  induction l1 as [|x l1 IH]; intros l2 H1 H2 P.
  - apply Permutation_nil in P. now subst.
  - destruct l2 as [|y l2]; [apply Permutation_sym, Permutation_nil in P; discriminate|].
    apply StronglySorted_inv in H1. destruct H1 as [H1 F1].
    apply StronglySorted_inv in H2. destruct H2 as [H2 F2].
    assert (x = y) as <-.
    { assert (Hx : In x (y :: l2)) by (eapply Permutation_in; [exact P|now left]).
      assert (Hy : In y (x :: l1))
        by (eapply Permutation_in; [apply Permutation_sym; exact P|now left]).
      rewrite Forall_forall in F1, F2.
      destruct Hx as [->|Hx]; [reflexivity|].
      destruct Hy as [->|Hy]; [reflexivity|].
      apply str_leb_antisym; [now apply F1|now apply F2]. }
    f_equal. apply IH; try assumption. eapply Permutation_cons_inv. exact P.
Qed.

(** The order in which the directory gives its files does not matter. *)
Lemma sorted_order_independent (l1 l2 : list str) :
  Permutation l1 l2 -> sorted l1 = sorted l2.
Proof.
  intros P. apply ordered_unique; try apply sorted_ordered.
  rewrite !sorted_perm. exact P.
Qed.

(* ================================================================== *)
(** * What the report depends on *)
(* ================================================================== *)

Section Dependence.
Context {U : UnicodeDB}.
Import Analyzer.

Lemma load_docs_ext (w1 w2 : world) (paths : list str) :
  (forall p, read_processed_json w1 p = read_processed_json w2 p) ->
  load_docs w1 paths = load_docs w2 paths.
Proof.
  intros H. induction paths as [|p paths IH]; simpl; [reflexivity|].
  rewrite H, IH. reflexivity.
Qed.

Definition same_name_and_text (d1 d2 : str * json) : Prop :=
  fst d1 = fst d2 /\ get_text (snd d1) = get_text (snd d2).

Lemma load_docs_same_text (w1 w2 : world) (paths : list str) :
  (forall p, Spec.same_text (read_processed_json w1 p) (read_processed_json w2 p)) ->
  Forall2 same_name_and_text (load_docs w1 paths) (load_docs w2 paths).
Proof.
  intros H. induction paths as [|p paths IH]; simpl; [constructor|].
  specialize (H p). unfold Spec.same_text in H.
  destruct (read_processed_json w1 p), (read_processed_json w2 p); try contradiction.
  - constructor; [split; [reflexivity|exact H]|exact IH].
  - exact IH.
Qed.

Lemma step_same_text (t : totals) (d1 d2 : str * json) :
  same_name_and_text d1 d2 -> step t d1 = step t d2.
Proof.
  destruct d1 as [f1 j1], d2 as [f2 j2]. intros [Hf Ht]. simpl in Hf, Ht. subst f2.
  unfold step. now rewrite Ht.
Qed.

Lemma loop_same_text (docs1 docs2 : list (str * json)) :
  Forall2 same_name_and_text docs1 docs2 -> forall t, loop t docs1 = loop t docs2.
Proof.
  induction 1 as [|d1 d2 docs1 docs2 Hd _ IH]; intros t; simpl; [reflexivity|].
  rewrite (step_same_text t Hd). destruct (step t d2); simpl; auto.
Qed.

Lemma names_same_text (docs1 docs2 : list (str * json)) :
  Forall2 same_name_and_text docs1 docs2 -> map fst docs1 = map fst docs2.
Proof.
  induction 1 as [|d1 d2 docs1 docs2 [Hf _] _ IH]; simpl; congruence.
Qed.

Lemma combinations_map {A B : Type} (f : A -> B) (l : list A) :
  combinations (map f l) = map (fun pr => (f (fst pr), f (snd pr))) (combinations l).
Proof.
  induction l as [|x l IH]; simpl; [reflexivity|].
  rewrite map_app, !map_map, IH. reflexivity.
Qed.

(** The report is a function of the names of the documents and of what the
    loop has accumulated; the timestamp goes into one field only. *)
Lemma build_report_depends (ts1 ts2 : str) (docs1 docs2 : list (str * json)) :
  loop start docs1 = loop start docs2 ->
  map fst docs1 = map fst docs2 ->
  Spec.runs_agree (build_report ts1 docs1) (build_report ts2 docs2).
Proof.
  intros Hl Hn. unfold build_report. rewrite Hl.
  destruct (loop start docs2) as [t|e]; simpl; [|reflexivity].
  unfold Spec.same_but_timestamp; simpl.
  assert (Hlen : length docs1 = length docs2).
  { rewrite <- (length_map fst docs1), Hn. apply length_map. }
  repeat split; try reflexivity; try exact Hlen.
  set (entry := fun q : str * str =>
    {| doc1 := fst q; doc2 := snd q;
       similarity := pyround (jaccard_similarity (words_of (doc_word_lists t) (fst q))
                                                 (words_of (doc_word_lists t) (snd q))) 6 |}).
  transitivity (map entry (combinations (map fst docs1))).
  - rewrite combinations_map, map_map. reflexivity.
  - rewrite Hn, combinations_map, map_map. reflexivity.
Qed.

(** C5: two runs of the analyzer over the same processed directory, the
    directory giving its files in any order and the clock being at any
    time, end with reports that are equal in every field but
    [processing_timestamp] (or with the same exception). *)
Theorem C5_rerun_same_report (w1 w2 : world) :
  Permutation (processed_files w1) (processed_files w2) ->
  (forall p, read_processed_json w1 p = read_processed_json w2 p) ->
  Spec.runs_agree (main w1) (main w2).
Proof.
  intros P R. unfold main.
  rewrite (sorted_order_independent P), (load_docs_ext w1 w2 _ R).
  now apply build_report_depends.
Qed.

(** C10: two processed directories with the same file names whose records
    agree, file by file, on [get("text", "")], whatever their statistics,
    links and images, give reports that are equal in every field but
    [processing_timestamp] (or the same exception). *)
Theorem C10_only_text_matters (w1 w2 : world) :
  Permutation (processed_files w1) (processed_files w2) ->
  (forall p, Spec.same_text (read_processed_json w1 p) (read_processed_json w2 p)) ->
  Spec.runs_agree (main w1) (main w2).
Proof.
  intros P R. unfold main. rewrite (sorted_order_independent P).
  pose proof (load_docs_same_text w1 w2 (sorted (processed_files w2)) R) as H.
  apply build_report_depends.
  - now apply loop_same_text.
  - now apply names_same_text.
Qed.

End Dependence.

(* ================================================================== *)
(** * The totals of the analyzer's loop *)
(* ================================================================== *)

Section Totals.
Context {U : UnicodeDB}.
Import Analyzer.

Lemma fold_left_add (l : list nat) : forall a, fold_left Nat.add l a = a + list_sum l.
Proof.
  induction l as [|x l IH]; intros a; simpl; [lia|]. rewrite IH. lia.
Qed.

Lemma sum_list_sum (l : list nat) : sum l = list_sum l.
Proof. unfold sum. now rewrite fold_left_add. Qed.

Lemma step_has_text (t t' : totals) (doc : str * json) :
  step t doc = Ok t' ->
  exists text, Spec.has_text doc text
    /\ t_total_words t' = t_total_words t + Spec.token_count text
    /\ all_sentences t' = all_sentences t + Spec.sentence_count text
    /\ total_sentence_len_words t' = total_sentence_len_words t + Spec.words_in_sentences text
    /\ total_word_len t' = total_word_len t + Spec.token_chars text.
Proof.
  destruct doc as [fname d]. unfold step, Spec.has_text, Spec.text_of. simpl.
  destruct (get_text d) as [v|e]; simpl; [|discriminate].
  destruct (as_str v) as [text|e]; simpl; [|discriminate].
  intros H. injection H as <-. exists text. simpl.
  unfold Spec.token_count, Spec.sentence_count, Spec.words_in_sentences, Spec.token_chars.
  rewrite !sum_list_sum. auto.
Qed.

(** The loop adds up, document by document, the quantities of the texts. *)
Lemma loop_totals (docs : list (str * json)) :
  forall t t', loop t docs = Ok t' ->
  exists texts, Forall2 Spec.has_text docs texts
    /\ t_total_words t' = t_total_words t + Spec.total Spec.token_count texts
    /\ all_sentences t' = all_sentences t + Spec.total Spec.sentence_count texts
    /\ total_sentence_len_words t'
         = total_sentence_len_words t + Spec.total Spec.words_in_sentences texts
    /\ total_word_len t' = total_word_len t + Spec.total Spec.token_chars texts.
Proof.
  unfold Spec.total.
  induction docs as [|doc docs IH]; intros t t'; simpl.
  - intros H. injection H as <-. exists []. simpl. repeat split; auto.
  - destruct (step t doc) as [t1|e] eqn:Hs; simpl; [|discriminate].
    intros H. destruct (step_has_text _ _ Hs) as (text & Ht & E1 & E2 & E3 & E4).
    destruct (IH _ _ H) as (texts & Hts & F1 & F2 & F3 & F4).
    exists (text :: texts). simpl. split; [now constructor|]. lia.
Qed.

Lemma is_zero_both (a b : Q) :
  (negb (is_zero a) && negb (is_zero b))%bool = negb (is_zero a || is_zero b)%bool.
Proof. now destruct (is_zero a), (is_zero b). Qed.

(** What [main] reports when it ends well. *)
Lemma main_totals (w : world) (r : report) :
  main w = Ok r ->
  exists texts, Forall2 Spec.has_text (Spec.loaded w) texts
    /\ documents_processed r = length texts
    /\ total_words r = Spec.total Spec.token_count texts
    /\ readability r = Spec.readability_rounded texts.
Proof.
  unfold main, build_report. fold (Spec.loaded w).
  destruct (loop start (Spec.loaded w)) as [t|e] eqn:Hl; simpl; [|discriminate].
  intros H. injection H as <-.
  destruct (loop_totals _ _ Hl) as (texts & Hts & E1 & E2 & E3 & E4).
  simpl in E1, E2, E3, E4.
  exists texts. split; [exact Hts|]. simpl.
  split; [eapply Forall2_length; exact Hts|].
  split; [exact E1|].
  unfold Spec.readability_rounded, Spec.float_complexity_score,
    Spec.exact_avg_sentence_length, Spec.exact_avg_word_length, Spec.ratio.
  rewrite E1, E2, E3, E4, is_zero_both.
  destruct (is_zero _ || is_zero _)%bool; reflexivity.
Qed.

(** C9, as the program has it: the three readability numbers of the report
    are the averages and the product of the stated formulas, each put
    through [round(., 3)] at the moment it is put in the report.  The two
    averages are floats, the quotients of the stated totals (0.0 when the
    divisor is 0); the product is the float product of the two averages
    before they are rounded (0.0 when one of them is 0); and [round] works
    on the binary64 value, so that a quotient such as 87/80, whose float is
    just under 1.0875, is reported as 1.087. *)
Theorem C9_readability_rounded (w : world) (r : report) :
  main w = Ok r ->
  exists texts, Forall2 Spec.has_text (Spec.loaded w) texts
    /\ avg_sentence_length (readability r)
         = pyround (Spec.ratio (Spec.total Spec.words_in_sentences texts)
                               (Spec.total Spec.sentence_count texts)) 3
    /\ avg_word_length (readability r)
         = pyround (Spec.ratio (Spec.total Spec.token_chars texts)
                               (Spec.total Spec.token_count texts)) 3
    /\ complexity_score (readability r) = pyround (Spec.float_complexity_score texts) 3.
Proof.
  intros H. destruct (main_totals w H) as (texts & Hts & _ & _ & Hr).
  exists texts. split; [exact Hts|]. rewrite Hr. simpl. auto.
Qed.

End Totals.

(* ================================================================== *)
(** * The top-K tables *)
(* ================================================================== *)

Section TopTables.
Context {U : UnicodeDB}.
Import Analyzer.

Lemma update_app (c : counter) (a b : list str) : update c (a ++ b) = update (update c a) b.
Proof. unfold update. apply fold_left_app. Qed.

(** The loop counts into its three counters the words, the bigrams and the
    trigrams of the documents, one document after the other. *)
Lemma loop_counters (docs : list (str * json)) :
  forall texts t t', Forall2 Spec.has_text docs texts -> loop t docs = Ok t' ->
    vocab_counter t' = update (vocab_counter t) (Spec.corpus_words texts)
    /\ bigram_counter t' = update (bigram_counter t) (Spec.corpus_ngrams 2 texts)
    /\ trigram_counter t' = update (trigram_counter t) (Spec.corpus_ngrams 3 texts).
Proof.
  induction docs as [|[fname d] docs IH]; intros texts t t' Hts; inversion Hts; subst; simpl.
  - intros H. injection H as <-. auto.
  - match goal with H : Spec.has_text _ _ |- _ => unfold Spec.has_text, Spec.text_of in H;
      simpl in H end.
    destruct (get_text d) as [v|e]; [|discriminate]. simpl in *.
    destruct (as_str v) as [text|e]; [|discriminate]. simpl.
    match goal with H : Ok _ = Ok _ |- _ => injection H as <- end.
    intros H.
    match goal with HF : Forall2 _ docs _ |- _ => destruct (IH _ _ _ HF H) as (E1 & E2 & E3) end.
    simpl in E1, E2, E3.
    unfold Spec.corpus_words, Spec.corpus_ngrams. simpl.
    rewrite !update_app. auto.
Qed.

(** C1, as the program has it: each of [top_100_words], [top_bigrams] and
    [top_trigrams] is the first 100 (50, 50) entries of its count table put
    in descending order of count, and entries of equal count stay in the
    order of the table, which is the order in which their terms first
    occur in the corpus (no lexicographic order is imposed). *)
Theorem C1_top_tables (w : world) (r : report) :
  main w = Ok r ->
  exists texts, Forall2 Spec.has_text (Spec.loaded w) texts
    /\ Spec.top_of 100 (Spec.count_table (Spec.corpus_words texts))
         (Spec.word_table (top_100_words r))
    /\ Spec.top_of 50 (Spec.count_table (Spec.corpus_ngrams 2 texts))
         (Spec.ngram_table (top_bigrams r))
    /\ Spec.top_of 50 (Spec.count_table (Spec.corpus_ngrams 3 texts))
         (Spec.ngram_table (top_trigrams r)).
Proof.
  intros H.
  destruct (main_totals w H) as (texts & Hts & _).
  unfold main in H. fold (Spec.loaded w) in H.
  destruct (build_report_tables _ _ H) as (t & Ht & Hw & Hb & Htr).
  destruct (@loop_counters _ _ _ _ Hts Ht) as (E1 & E2 & E3).
  change (vocab_counter start) with (Spec.count_table []) in E1.
  change (bigram_counter start) with (Spec.count_table []) in E2.
  change (trigram_counter start) with (Spec.count_table []) in E3.
  rewrite update_count_table in E1, E2, E3. simpl in E1, E2, E3.
  exists texts. split; [exact Hts|].
  rewrite Hw, Hb, Htr, <- E1, <- E2, <- E3.
  repeat split; apply most_common_top.
Qed.

End TopTables.

(** A processed directory with the single record [{"text": "b a"}]. *)
Definition world_b_a : Analyzer.world :=
  {| Analyzer.processed_files := [cps "/shared/processed/page_1.json"];
     Analyzer.read_processed_json := fun _ => Ok (JObj [(cps "text", JStr (cps "b a"))]);
     Analyzer.now := cps "2024-01-01T00:00:00+00:00" |}.

Definition report_b_a : Analyzer.report :=
  {| Analyzer.processing_timestamp := cps "2024-01-01T00:00:00+00:00";
     Analyzer.documents_processed := 1;
     Analyzer.total_words := 2;
     Analyzer.unique_words := 2;
     Analyzer.top_100_words :=
       [ {| Analyzer.word := cps "b"; Analyzer.count := 1; Analyzer.frequency := (1 # 2)%Q |};
         {| Analyzer.word := cps "a"; Analyzer.count := 1; Analyzer.frequency := (1 # 2)%Q |} ];
     Analyzer.document_similarity := [];
     Analyzer.top_bigrams := [ {| Analyzer.ngram := cps "b a"; Analyzer.ngram_count := 1 |} ];
     Analyzer.top_trigrams := [];
     Analyzer.readability :=
       {| Analyzer.avg_sentence_length := 2%Q;
          Analyzer.avg_word_length := 1%Q;
          Analyzer.complexity_score := 2%Q |} |}.

Example main_b_a : Analyzer.main world_b_a = Ok report_b_a.
Proof. vm_compute. reflexivity. Qed.

(** C1, as stated, fails on the corpus of the one document "b a": both
    words have count 1 and [top_100_words] lists "b" before "a". *)
Lemma C1_ties_not_lexicographic : ~ Spec.report_tops_lexicographic world_b_a.
Proof.
  intros H.
  destruct (H report_b_a main_b_a) as (texts & _ & (l & _ & _ & Hties & Htop) & _).
  destruct l as [|x [|y l]]; try discriminate Htop.
  simpl in Htop. injection Htop as <- <- _.
  specialize (Hties 0 1 (cps "b", 1) (cps "a", 1)).
  discriminate Hties; [lia|reflexivity|reflexivity|reflexivity].
Qed.

Lemma C1_top_tables_example :
  Analyzer.main world_b_a = Ok report_b_a
  /\ exists texts, Forall2 Spec.has_text (Spec.loaded world_b_a) texts
      /\ Spec.top_of 100 (Spec.count_table (Spec.corpus_words texts))
           (Spec.word_table (Analyzer.top_100_words report_b_a))
      /\ Spec.top_of 50 (Spec.count_table (Spec.corpus_ngrams 2 texts))
           (Spec.ngram_table (Analyzer.top_bigrams report_b_a))
      /\ Spec.top_of 50 (Spec.count_table (Spec.corpus_ngrams 3 texts))
           (Spec.ngram_table (Analyzer.top_trigrams report_b_a)).
Proof.
  split; [vm_compute; reflexivity|].
  apply (C1_top_tables (U := table) world_b_a). vm_compute. reflexivity.
Defined.

(** A processed directory with the single record [{"text": "a. b. c d"}]. *)
Definition world_thirds : Analyzer.world :=
  {| Analyzer.processed_files := [cps "/shared/processed/page_1.json"];
     Analyzer.read_processed_json :=
       fun _ => Ok (JObj [(cps "text", JStr (cps "a. b. c d"))]);
     Analyzer.now := cps "2024-01-01T00:00:00+00:00" |}.

Definition report_thirds : Analyzer.report :=
  let w (t : string) := {| Analyzer.word := cps t; Analyzer.count := 1;
                Analyzer.frequency := (1 # 4)%Q |} in
  let g (t : string) := {| Analyzer.ngram := cps t; Analyzer.ngram_count := 1 |} in
  {| Analyzer.processing_timestamp := cps "2024-01-01T00:00:00+00:00";
     Analyzer.documents_processed := 1;
     Analyzer.total_words := 4;
     Analyzer.unique_words := 4;
     Analyzer.top_100_words := [w "a"%string; w "b"%string; w "c"%string; w "d"%string];
     Analyzer.document_similarity := [];
     Analyzer.top_bigrams := [g "a b"%string; g "b c"%string; g "c d"%string];
     Analyzer.top_trigrams := [g "a b c"%string; g "b c d"%string];
     Analyzer.readability :=
       {| Analyzer.avg_sentence_length := (1333 # 1000)%Q;
          Analyzer.avg_word_length := 1%Q;
          Analyzer.complexity_score := (1333 # 1000)%Q |} |}.

Example main_thirds : Analyzer.main world_thirds = Ok report_thirds.
Proof. vm_compute. reflexivity. Qed.

Example loaded_thirds : Forall2 Spec.has_text (Spec.loaded world_thirds) [cps "a. b. c d"].
Proof. repeat constructor. Qed.

(** C9, as stated, fails on the one document "a. b. c d": its three
    sentences hold four words, the exact average is 4/3, and the report
    carries 1.333. *)
Lemma C9_readability_not_exact : ~ Spec.report_readability_exact world_thirds.
Proof.
  intros H. specialize (H report_thirds [cps "a. b. c d"] main_thirds loaded_thirds).
  vm_compute in H. discriminate H.
Qed.

Lemma C9_readability_rounded_example :
  Analyzer.main world_thirds = Ok report_thirds
  /\ exists texts, Forall2 Spec.has_text (Spec.loaded world_thirds) texts
      /\ (1333 # 1000)%Q
           = pyround (Spec.ratio (Spec.total Spec.words_in_sentences texts)
                                 (Spec.total Spec.sentence_count texts)) 3
      /\ 1%Q
           = pyround (Spec.ratio (Spec.total Spec.token_chars texts)
                                 (Spec.total Spec.token_count texts)) 3
      /\ (1333 # 1000)%Q = pyround (Spec.float_complexity_score texts) 3.
Proof.
  split; [vm_compute; reflexivity|].
  apply (C9_readability_rounded (U := table) world_thirds (r := report_thirds)).
  vm_compute. reflexivity.
Defined.

(** [round] on the float, where the float is not the quotient: the floats
    of 87/80 and of 1/640 are just under and just above the middle of two
    decimals (1.087, 0.001563), 1/8 is a float and a middle itself (0.12,
    that is 3/25), the float of 2.675 is just under it (2.67), and the
    float product of 87/80 and 80 is 87. *)
Example round_of_floats :
  pyround (truediv 87 80) 3 = (1087 # 1000)%Q
  /\ pyround (truediv 1 640) 6 = (1563 # 1000000)%Q
  /\ pyround (truediv 1 8) 2 = (3 # 25)%Q
  /\ pyround (truediv 2675 1000) 2 = (267 # 100)%Q
  /\ pyround (fmul (truediv 87 80) (truediv 80 1)) 3 = 87%Q.
Proof. vm_compute. repeat split. Qed.

(** A processed directory with one record, whose text is 73 times "a" and
    7 times "bb": 80 words of 87 characters in one sentence. *)
Definition world_eighty : Analyzer.world :=
  {| Analyzer.processed_files := [cps "/shared/processed/page_1.json"];
     Analyzer.read_processed_json :=
       fun _ => Ok (JObj [(cps "text",
                           JStr (concat (repeat (cps "a ") 73 ++ repeat (cps "bb ") 7)))]);
     Analyzer.now := cps "2024-01-01T00:00:00+00:00" |}.

(** Its average word length, 87/80, is reported as 1.087. *)
Example main_eighty :
  exists r, Analyzer.main world_eighty = Ok r
    /\ Analyzer.readability r
        = {| Analyzer.avg_sentence_length := 80%Q;
             Analyzer.avg_word_length := (1087 # 1000)%Q;
             Analyzer.complexity_score := 87%Q |}.
Proof. eexists. split; [vm_compute; reflexivity|reflexivity]. Qed.

(** Two listings of one processed directory, read at different times. *)
Definition two_records (p : str) : result json :=
  if str_eqb p (cps "/shared/processed/page_1.json")
  then Ok (JObj [(cps "text", JStr (cps "a b c"))])
  else if str_eqb p (cps "/shared/processed/page_2.json")
  then Ok (JObj [(cps "text", JStr (cps "b c d"))])
  else Raise (OSError p).

Definition world_first_run : Analyzer.world :=
  {| Analyzer.processed_files :=
       [cps "/shared/processed/page_2.json"; cps "/shared/processed/page_1.json"];
     Analyzer.read_processed_json := two_records;
     Analyzer.now := cps "2024-01-01T00:00:00+00:00" |}.

Definition world_second_run : Analyzer.world :=
  {| Analyzer.processed_files :=
       [cps "/shared/processed/page_1.json"; cps "/shared/processed/page_2.json"];
     Analyzer.read_processed_json := two_records;
     Analyzer.now := cps "2024-06-30T12:00:00+00:00" |}.

Lemma C5_rerun_example :
  Permutation (Analyzer.processed_files world_first_run)
              (Analyzer.processed_files world_second_run)
  /\ Spec.runs_agree (Analyzer.main world_first_run) (Analyzer.main world_second_run).
Proof.
  split; [apply perm_swap|].
  apply (C5_rerun_same_report (U := table) world_first_run world_second_run).
  - apply perm_swap.
  - intros p. reflexivity.
Defined.

(** The same directory with other statistics, links and images in a record. *)
Definition other_fields (p : str) : result json :=
  if str_eqb p (cps "/shared/processed/page_1.json")
  then Ok (JObj [ (cps "source_file", JStr (cps "page_9.html"));
                  (cps "text", JStr (cps "a b c"));
                  (cps "statistics", JObj [(cps "word_count", JInt 99%Z)]);
                  (cps "links", JArr [JStr (cps "http://x.y/z")]);
                  (cps "images", JArr []) ])
  else if str_eqb p (cps "/shared/processed/page_2.json")
  then Ok (JObj [(cps "text", JStr (cps "b c d")); (cps "links", JNull)])
  else Raise (OSError (cps "no such file")).

Definition world_other_fields : Analyzer.world :=
  {| Analyzer.processed_files :=
       [cps "/shared/processed/page_1.json"; cps "/shared/processed/page_2.json"];
     Analyzer.read_processed_json := other_fields;
     Analyzer.now := cps "2024-06-30T12:00:00+00:00" |}.

Lemma same_text_other_fields (p : str) : Spec.same_text (two_records p) (other_fields p).
Proof.
  unfold two_records, other_fields.
  destruct (str_eqb p _); [reflexivity|].
  destruct (str_eqb p _); [reflexivity|exact I].
Qed.

Lemma C10_only_text_example :
  Spec.runs_agree (Analyzer.main world_first_run) (Analyzer.main world_other_fields).
Proof.
  apply (C10_only_text_matters (U := table) world_first_run world_other_fields).
  - apply perm_swap.
  - exact same_text_other_fields.
Defined.

(* ================================================================== *)
(** * Counting words *)
(* ================================================================== *)

(** The length of the longest prefix in a class. *)
Fixpoint span (p : cp -> bool) (s : str) : nat :=
  match s with
  | c :: s' => if p c then S (span p s') else 0
  | [] => 0
  end.

(** The number of runs of [true] that start in [l], a run that continues
    one from before ([inside]) not counted. *)
Fixpoint runs (inside : bool) (l : list bool) : nat :=
  match l with
  | [] => 0
  | b :: l' => (if (b && negb inside)%bool then 1 else 0) + runs b l'
  end.

Section WordCount.
Context {U : UnicodeDB}.
Import Re.

Lemma span_le (p : cp -> bool) (s : str) : span p s <= length s.
Proof. induction s as [|c s IH]; simpl; [lia|]. destruct (p c); simpl; lia. Qed.

(** After a word character, greedy [\w*] followed by [\b] takes the whole
    run of word characters. *)
Lemma rep_greedy_word (w : cp -> bool) (s : str) :
  forall c0 g, w c0 = true ->
    rep_greedy w (exec (Bnd w) accept) (Some c0) s g = Some (skipn (span w s) s, g).
Proof.
  induction s as [|c s IH]; intros c0 g H0; simpl.
  - unfold at_boundary. simpl. now rewrite H0.
  - destruct (w c) eqn:Hc.
    + now rewrite IH.
    + unfold at_boundary. simpl. now rewrite H0, Hc.
Qed.

Definition RE_word_of (w : cp -> bool) : regex := Seq (Bnd w) (Seq (Plus w) (Bnd w)).

Lemma match_at_word (w : cp -> bool) (prev : option cp) (c : cp) (s : str) :
  match_at (RE_word_of w) prev (c :: s) =
    if (w c && negb (wordness w prev))%bool then Some (S (span w s), None) else None.
Proof.
  unfold match_at, RE_word_of, Plus. cbn [exec]. unfold at_boundary. cbn [hd_error wordness].
  destruct (w c) eqn:Hc.
  - destruct (wordness w prev); cbn [xorb andb negb]; [reflexivity|].
    rewrite rep_greedy_word by exact Hc. cbn [option_map].
    change (length (c :: s)) with (S (length s)).
    pose proof (span_le w s). rewrite length_skipn.
    f_equal. f_equal. lia.
  - destruct (wordness w prev); reflexivity.
Qed.

Lemma findall_word_count (w : cp -> bool) (s : str) :
  (forall prev,
     length (findall_from (RE_word_of w) 0 prev s) = runs (wordness w prev) (map w s))
  /\ (forall prev, wordness w prev = true ->
        length (findall_from (RE_word_of w) (span w s) prev s) = runs true (map w s)).
Proof.
  induction s as [|c s [IHa IHb]].
  - split; reflexivity.
  - assert (A : forall prev,
      length (findall_from (RE_word_of w) 0 prev (c :: s))
        = runs (wordness w prev) (map w (c :: s))).
    { intros prev. cbn [findall_from map runs]. rewrite match_at_word.
      destruct (w c && negb (wordness w prev))%bool eqn:E.
      - apply andb_true_iff in E. destruct E as [Hc _].
        cbn [length]. rewrite IHb by exact Hc. now rewrite Hc.
      - rewrite IHa. reflexivity. }
    split; [exact A|].
    intros prev Hp. cbn [span]. destruct (w c) eqn:Hc.
    + cbn [findall_from map runs]. rewrite Hc. cbn [andb negb]. now apply IHb.
    + rewrite A, Hp. reflexivity.
Qed.

(** The number of words of a text depends only on which of its characters
    are word characters. *)
Lemma word_count_runs (s : str) :
  length (findall (RE_word_of is_word) s) = runs false (map is_word s).
Proof. exact (proj1 (findall_word_count is_word s) None). Qed.

Lemma tokenize_words_count (text : str) :
  length (Processor.tokenize_words text) = runs false (map is_word text).
Proof. apply word_count_runs. Qed.

Lemma tokenize_lower_count (text : str) :
  length (Analyzer.tokenize_lower text) = runs false (map is_word (uc_lower text)).
Proof. apply word_count_runs. Qed.

(** The record of a file carries its text and the number of its words. *)
Lemma written_record (d : json) :
  Spec.written_by_processor d ->
  exists text, Spec.text_of d = Ok text
    /\ Spec.stored_word_count d = length (Processor.tokenize_words text).
Proof.
  intros (w & now & path & H). unfold Processor.process_html_file in H.
  destruct (Processor.read_bytes w path) as [raw|e]; [|discriminate].
  cbn [bind] in H.
  destruct (Utf8.decode Utf8.Ignore raw) as [html|e]; [|discriminate].
  cbn [bind] in H.
  destruct (Processor.strip_html html) as [[text links] images].
  injection H as <-. exists text. split; [reflexivity|].
  cbn. apply Nat2Z.id.
Qed.

End WordCount.

Section TotalWords.
Context {U : UnicodeDB}.
Import Analyzer.

Lemma stored_counts_agree (docs : list (str * json)) (texts : list str) :
  Forall2 Spec.has_text docs texts ->
  Forall (fun d => Spec.written_by_processor (snd d) /\ Spec.lower_keeps_words_of d) docs ->
  Spec.total Spec.token_count texts
    = list_sum (map (fun d => Spec.stored_word_count (snd d)) docs).
Proof.
  unfold Spec.total.
  induction 1 as [|d text docs texts Hd _ IH]; intros HF; [reflexivity|].
  inversion HF as [|? ? [Hw Hk] HF']; subst. simpl.
  rewrite (IH HF'). f_equal.
  destruct (written_record Hw) as (text' & Ht & ->).
  unfold Spec.has_text in Hd. assert (text' = text) as -> by congruence.
  unfold Spec.token_count.
  rewrite tokenize_lower_count, tokenize_words_count.
  now rewrite (Hk text Hd).
Qed.

(** C3, as the program has it: [total_words] is the sum, over the loaded
    documents, of the number of tokens of the lower-cased text; it is the
    sum of the word counts the Processor stored whenever lower-casing
    leaves the word characters of every text where they are (as it does
    for ASCII text). *)
Theorem C3_total_words (w : world) (r : report) :
  main w = Ok r ->
  (exists texts, Forall2 Spec.has_text (Spec.loaded w) texts
     /\ total_words r = Spec.total Spec.token_count texts)
  /\ (Forall (fun d => Spec.written_by_processor (snd d) /\ Spec.lower_keeps_words_of d)
        (Spec.loaded w) ->
      total_words r
        = list_sum (map (fun d => Spec.stored_word_count (snd d)) (Spec.loaded w))).
Proof.
  intros H. destruct (main_totals w H) as (texts & Hts & _ & Htw & _).
  split; [exists texts; now split|].
  intros HF. rewrite Htw. now apply stored_counts_agree.
Qed.

End TotalWords.

(** A raw directory whose one file holds the bytes 61 C4 B0 62, the UTF-8
    form of "a", U+0130, "b". *)
Definition world_dotted_raw : Processor.world :=
  {| Processor.raw_files := [cps "/shared/raw/page_1.html"];
     Processor.read_bytes := fun _ => Ok [Byte.x61; Byte.xc4; Byte.xb0; Byte.x62];
     Processor.writable := fun _ => true;
     Processor.clock := fun _ => cps "2024-01-01T00:00:00+00:00" |}.

Definition record_dotted : json :=
  JObj [ (cps "source_file", JStr (cps "page_1.html"));
         (cps "text", JStr [97; 304; 98]%N);
         (cps "statistics", JObj [ (cps "word_count", JInt 1%Z);
                                   (cps "sentence_count", JInt 1%Z);
                                   (cps "paragraph_count", JInt 1%Z);
                                   (cps "avg_word_length", JFloat 3%Q) ]);
         (cps "links", JArr []);
         (cps "images", JArr []);
         (cps "processed_at", JStr (cps "2024-01-01T00:00:00+00:00")) ].

Example process_dotted :
  Processor.process_html_file world_dotted_raw (cps "2024-01-01T00:00:00+00:00")
    (cps "/shared/raw/page_1.html") = inl record_dotted.
Proof. vm_compute. reflexivity. Qed.

Definition world_dotted : Analyzer.world :=
  {| Analyzer.processed_files := [cps "/shared/processed/page_1.json"];
     Analyzer.read_processed_json := fun _ => Ok record_dotted;
     Analyzer.now := cps "2024-01-01T00:10:00+00:00" |}.

Definition report_dotted : Analyzer.report :=
  {| Analyzer.processing_timestamp := cps "2024-01-01T00:10:00+00:00";
     Analyzer.documents_processed := 1;
     Analyzer.total_words := 2;
     Analyzer.unique_words := 2;
     Analyzer.top_100_words :=
       [ {| Analyzer.word := cps "ai"; Analyzer.count := 1; Analyzer.frequency := (1 # 2)%Q |};
         {| Analyzer.word := cps "b"; Analyzer.count := 1; Analyzer.frequency := (1 # 2)%Q |} ];
     Analyzer.document_similarity := [];
     Analyzer.top_bigrams := [ {| Analyzer.ngram := cps "ai b"; Analyzer.ngram_count := 1 |} ];
     Analyzer.top_trigrams := [];
     Analyzer.readability :=
       {| Analyzer.avg_sentence_length := 2%Q;
          Analyzer.avg_word_length := (3 # 2)%Q;
          Analyzer.complexity_score := 3%Q |} |}.

Example main_dotted : Analyzer.main world_dotted = Ok report_dotted.
Proof. vm_compute. reflexivity. Qed.

(** C3, as stated, fails on the document "a", U+0130, "b": the Processor
    counts one word, and the analyzer, which lower-cases U+0130 to "i"
    followed by the combining dot U+0307, counts the two words "ai" and "b". *)
Lemma C3_total_words_not_stored_sum : ~ Spec.total_is_stored_sum world_dotted.
Proof.
  intros H.
  assert (Hw : Forall (fun d => Spec.written_by_processor (snd d)) (Spec.loaded world_dotted)).
  { repeat constructor. eexists _, _, _. exact process_dotted. }
  specialize (H Hw report_dotted main_dotted).
  vm_compute in H. discriminate H.
Qed.

(** The raw file of the specification's example, through both stages. *)
Definition bytes_of (s : string) : list Byte.byte :=
  map byte_of_ascii (list_ascii_of_string s).

Definition world_hello_raw : Processor.world :=
  {| Processor.raw_files := [cps "/shared/raw/page_1.html"];
     Processor.read_bytes :=
       fun _ => Ok (bytes_of "<p>Hello World</p><script>evil()</script>");
     Processor.writable := fun _ => true;
     Processor.clock := fun _ => cps "2024-01-01T00:00:00+00:00" |}.

Definition record_hello : json :=
  JObj [ (cps "source_file", JStr (cps "page_1.html"));
         (cps "text", JStr (cps "Hello World"));
         (cps "statistics", JObj [ (cps "word_count", JInt 2%Z);
                                   (cps "sentence_count", JInt 1%Z);
                                   (cps "paragraph_count", JInt 1%Z);
                                   (cps "avg_word_length", JFloat 5%Q) ]);
         (cps "links", JArr []);
         (cps "images", JArr []);
         (cps "processed_at", JStr (cps "2024-01-01T00:00:00+00:00")) ].

Example process_hello :
  Processor.process_html_file world_hello_raw (cps "2024-01-01T00:00:00+00:00")
    (cps "/shared/raw/page_1.html") = inl record_hello.
Proof. vm_compute. reflexivity. Qed.

Definition world_hello : Analyzer.world :=
  {| Analyzer.processed_files := [cps "/shared/processed/page_1.json"];
     Analyzer.read_processed_json := fun _ => Ok record_hello;
     Analyzer.now := cps "2024-01-01T00:10:00+00:00" |}.

Definition report_hello : Analyzer.report :=
  {| Analyzer.processing_timestamp := cps "2024-01-01T00:10:00+00:00";
     Analyzer.documents_processed := 1;
     Analyzer.total_words := 2;
     Analyzer.unique_words := 2;
     Analyzer.top_100_words :=
       [ {| Analyzer.word := cps "hello"; Analyzer.count := 1;
            Analyzer.frequency := (1 # 2)%Q |};
         {| Analyzer.word := cps "world"; Analyzer.count := 1;
            Analyzer.frequency := (1 # 2)%Q |} ];
     Analyzer.document_similarity := [];
     Analyzer.top_bigrams :=
       [ {| Analyzer.ngram := cps "hello world"; Analyzer.ngram_count := 1 |} ];
     Analyzer.top_trigrams := [];
     Analyzer.readability :=
       {| Analyzer.avg_sentence_length := 2%Q;
          Analyzer.avg_word_length := 5%Q;
          Analyzer.complexity_score := 10%Q |} |}.

Example main_hello : Analyzer.main world_hello = Ok report_hello.
Proof. vm_compute. reflexivity. Qed.

Example hello_written_and_kept :
  Forall (fun d => Spec.written_by_processor (snd d) /\ Spec.lower_keeps_words_of d)
    (Spec.loaded world_hello).
Proof.
  repeat constructor.
  - eexists _, _, _. exact process_hello.
  - intros text Ht. injection Ht as <-. vm_compute. reflexivity.
Qed.

Lemma C3_total_words_example :
  Analyzer.main world_hello = Ok report_hello
  /\ Forall (fun d => Spec.written_by_processor (snd d) /\ Spec.lower_keeps_words_of d)
       (Spec.loaded world_hello)
  /\ (exists texts, Forall2 Spec.has_text (Spec.loaded world_hello) texts
        /\ Analyzer.total_words report_hello = Spec.total Spec.token_count texts)
  /\ Analyzer.total_words report_hello
       = list_sum (map (fun d => Spec.stored_word_count (snd d)) (Spec.loaded world_hello)).
Proof.
  split; [vm_compute; reflexivity|].
  split; [exact hello_written_and_kept|].
  destruct (C3_total_words (U := table) world_hello (r := report_hello)) as [H1 H2].
  - vm_compute. reflexivity.
  - split; [exact H1|]. apply H2. exact hello_written_and_kept.
Defined.

(* ================================================================== *)
(** * Trimming *)
(* ================================================================== *)

Section Trimming.
Context {U : UnicodeDB}.

Lemma lstrip_head (s : str) (c : cp) (rest : str) :
  lstrip s = c :: rest -> uc_isspace c = false.
Proof.
  induction s as [|x s IH]; simpl; [discriminate|].
  destruct (uc_isspace x) eqn:E; [exact IH|].
  intros H. injection H as <- _. exact E.
Qed.

Lemma lstrip_suffix (s : str) : exists pre, s = pre ++ lstrip s /\ Spec.whitespace_only pre.
Proof.
  induction s as [|x s (pre & IH & Hw)]; simpl.
  - exists []. split; [reflexivity|constructor].
  - destruct (uc_isspace x) eqn:E.
    + exists (x :: pre). split; [simpl; now f_equal|now constructor].
    + exists []. split; [reflexivity|constructor].
Qed.

Lemma rstrip_prefix (s : str) : exists post, s = rstrip s ++ post /\ Spec.whitespace_only post.
Proof.
  unfold rstrip. destruct (lstrip_suffix (rev s)) as (pre & H & Hw).
  exists (rev pre). split.
  - rewrite <- rev_app_distr, <- H. symmetry. apply rev_involutive.
  - unfold Spec.whitespace_only in *. now apply Forall_rev.
Qed.

Lemma rstrip_last (s front : str) (c : cp) :
  rstrip s = front ++ [c] -> uc_isspace c = false.
Proof.
  unfold rstrip. intros H.
  apply (f_equal (@rev cp)) in H. rewrite rev_involutive, rev_app_distr in H. simpl in H.
  eapply lstrip_head. exact H.
Qed.

Lemma rstrip_head (c : cp) (rest : str) :
  uc_isspace c = false -> exists rest', rstrip (c :: rest) = c :: rest'.
Proof.
  intros Hc. unfold rstrip. simpl.
  assert (H : exists a, lstrip (rev rest ++ [c]) = a ++ [c]).
  { generalize (rev rest) as l. induction l as [|x l [a IH]]; simpl.
    - rewrite Hc. now exists [].
    - destruct (uc_isspace x); [now exists a|]. now exists (x :: l). }
  destruct H as [a ->]. rewrite rev_app_distr. simpl. now exists (rev a).
Qed.

(** [s.strip()] has no white space at its ends. *)
Lemma strip_trimmed (s : str) : Spec.trimmed (strip s).
Proof.
  unfold strip. split.
  - intros c rest H.
    destruct (lstrip s) as [|x l] eqn:E; [discriminate H|].
    pose proof (lstrip_head _ E) as Hx.
    destruct (rstrip_head x l Hx) as [rest' H']. rewrite H' in H.
    injection H as <- _. exact Hx.
  - intros front c H. eapply rstrip_last. exact H.
Qed.

(** [s.strip()] is a stretch of [s] between two stretches of white space. *)
Lemma strip_infix (s : str) :
  exists pre post, s = pre ++ strip s ++ post
    /\ Spec.whitespace_only pre /\ Spec.whitespace_only post.
Proof.
  unfold strip.
  destruct (lstrip_suffix s) as (pre & H1 & W1).
  destruct (rstrip_prefix (lstrip s)) as (post & H2 & W2).
  exists pre, post. split; [|split; assumption].
  rewrite <- H2. exact H1.
Qed.

Lemma strip_empty_iff (s : str) : strip s = [] <-> Spec.whitespace_only s.
Proof.
  split.
  - intros H. destruct (strip_infix s) as (pre & post & E & W1 & W2).
    rewrite H in E. simpl in E. rewrite E. unfold Spec.whitespace_only in *.
    apply Forall_app. now split.
  - intros W. unfold strip.
    assert (H : lstrip s = []).
    { induction W as [|c s Hc _ IH]; simpl; [reflexivity|]. now rewrite Hc. }
    now rewrite H.
Qed.

End Trimming.

(* ================================================================== *)
(** * Runs of newlines *)
(* ================================================================== *)


Section NewlineRuns.
Import Re.

Lemma rep_greedy_accept (p : cp -> bool) (s : str) :
  forall prev g, rep_greedy p accept prev s g = Some (skipn (span p s) s, g).
Proof.
  induction s as [|c s IH]; intros prev g; simpl; [reflexivity|].
  destruct (p c); [now rewrite IH|reflexivity].
Qed.

Lemma match_len_nl3 (prev : option cp) (s : str) :
  match_len Processor.RE_nl3 prev s =
    if 3 <=? span (is_char NL) s then Some (span (is_char NL) s) else None.
Proof.
  unfold match_len, match_at, Processor.RE_nl3, Plus. cbn [exec].
  destruct s as [|a s]; [reflexivity|]. cbn [span].
  destruct (is_char NL a); [|reflexivity].
  destruct s as [|b s]; [reflexivity|]. cbn [span].
  destruct (is_char NL b); [|reflexivity].
  destruct s as [|c s]; [reflexivity|]. cbn [span].
  destruct (is_char NL c); [|reflexivity].
  rewrite rep_greedy_accept. cbn [option_map fst Nat.leb].
  f_equal. cbn [length]. rewrite length_skipn. pose proof (span_le (is_char NL) s). lia.
Qed.



End NewlineRuns.

(* ================================================================== *)
(** * Tags *)
(* ================================================================== *)





Section Tags.














End Tags.

(* ================================================================== *)
(** * What a match consumes *)
(* ================================================================== *)

Section Consumption.
Import Re.








End Consumption.

Section Substitution.
Import Re.










(** What a substitution writes comes from the text or from the replacement. *)
Lemma sub_from_In (r : regex) (repl : str) (x : cp) (s : str) :
  forall skip prev, In x (sub_from r repl skip prev s) -> In x repl \/ In x s.
Proof.
  induction s as [|c s IH]; intros skip prev; cbn [sub_from]; [tauto|].
  destruct skip as [|k].
  - destruct (match_len r prev (c :: s)) as [[|n]|].
    + intros [<-|H]; [right; now left|]. apply IH in H. simpl; tauto.
    + intros H. apply in_app_or in H. destruct H as [H|H]; [tauto|].
      apply IH in H. simpl; tauto.
    + intros [<-|H]; [right; now left|]. apply IH in H. simpl; tauto.
  - intros H. apply IH in H. simpl; tauto.
Qed.

End Substitution.

Section TagRemoval.
Import Re.










End TagRemoval.

Section LineTrimming.
Context {U : UnicodeDB}.




Lemma split_char_nonempty (sep : cp) (s : str) : split_char sep s <> [].
Proof.
  destruct s as [|c s]; simpl; [discriminate|].
  destruct (N.eqb c sep); [discriminate|].
  unfold Re.push. destruct (split_char sep s); discriminate.
Qed.

Lemma join_cons (sep p : str) (ps : list str) :
  ps <> [] -> join sep (p :: ps) = p ++ sep ++ join sep ps.
Proof. destruct ps; [congruence|reflexivity]. Qed.




End LineTrimming.

(* ================================================================== *)
(** * The text [strip_html] extracts *)
(* ================================================================== *)

Section Extraction.
Context {U : UnicodeDB}.
Import Processor.

(** The text after the tags have been removed, before white space is
    normalized. *)
Definition untagged (html : str) : str :=
  Re.sub RE_tag [SP]
    (fold_left (fun h tag => Re.sub tag [NL] h) block_tags
       (Re.sub RE_style [] (Re.sub RE_script [] html))).

(** The text before the last trimming. *)
Definition normalized (html : str) : str :=
  Re.sub RE_nl3 [NL; NL]
    (join [NL] (map strip (split_char NL
       (Re.sub RE_blanks [SP] (Re.sub RE_nl2 [NL; NL] (Re.sub RE_cr [NL] (untagged html))))))).

Lemma extracted_normalized (html : str) : Spec.extracted html = strip (normalized html).
Proof. reflexivity. Qed.






End Extraction.



(* ================================================================== *)
(** * Paragraphs *)
(* ================================================================== *)

Section Paragraphs.
Context {U : UnicodeDB}.
Import Processor.

Definition visible (c : cp) : bool := negb (uc_isspace c).

Lemma nonblank_false (p : str) : nonblank p = false <-> Spec.whitespace_only p.
Proof.
  rewrite <- strip_empty_iff. unfold nonblank.
  destruct (strip p); split; congruence.
Qed.

Lemma nonblank_cons (c : cp) (p : str) : nonblank (c :: p) = (visible c || nonblank p)%bool.
Proof.
  unfold visible.
  destruct (nonblank (c :: p)) eqn:E1, (uc_isspace c) eqn:E2, (nonblank p) eqn:E3;
    try reflexivity; exfalso.
  - apply nonblank_false in E3.
    assert (H : nonblank (c :: p) = false) by (apply nonblank_false; now constructor).
    congruence.
  - apply nonblank_false in E1. inversion E1; subst.
    assert (H : nonblank p = false) by now apply nonblank_false.
    congruence.
  - apply nonblank_false in E1. inversion E1; congruence.
  - apply nonblank_false in E1. inversion E1; congruence.
Qed.

Lemma match_len_nl2 (prev : option cp) (s : str) :
  Re.match_len RE_nl2 prev s =
    if 2 <=? span (is_char NL) s then Some (span (is_char NL) s) else None.
Proof.
  unfold Re.match_len, Re.match_at, RE_nl2, Re.Plus. cbn [Re.exec].
  destruct s as [|a s]; [reflexivity|]. cbn [span].
  destruct (is_char NL a); [|reflexivity].
  destruct s as [|b s]; [reflexivity|]. cbn [span].
  destruct (is_char NL b); [|reflexivity].
  rewrite rep_greedy_accept. cbn [option_map fst Nat.leb].
  f_equal. cbn [length]. rewrite length_skipn. pose proof (span_le (is_char NL) s). lia.
Qed.

(** The pieces of a split that are not blank, the first piece counting
    also when [hb] says that it holds a visible character already. *)
Definition pieces (hb : bool) (ps : list str) : nat :=
  match ps with
  | [] => if hb then 1 else 0
  | h :: tl => (if (hb || nonblank h)%bool then 1 else 0) + length (filter nonblank tl)
  end.

(** The blocks among the lines, the first line counting as not empty when
    [ne] says that characters of it have been read already. *)
Definition blocks (counted ne : bool) (lines : list str) : nat :=
  match lines with
  | [] => 0
  | l :: rest =>
      match l with
      | [] => if ne then Spec.count_blocks counted rest else Spec.count_blocks false rest
      | _ :: _ =>
          if (nonblank l && negb counted)%bool
          then S (Spec.count_blocks true rest)
          else Spec.count_blocks counted rest
      end
  end.

Lemma pieces_all (ps : list str) : length (filter nonblank ps) = pieces false ps.
Proof. destruct ps as [|h tl]; simpl; [reflexivity|]. now destruct (nonblank h). Qed.

Lemma pieces_push (hb : bool) (c : cp) (ps : list str) :
  pieces hb (Re.push c ps) = pieces (hb || visible c) ps.
Proof.
  destruct ps as [|h tl]; simpl; rewrite nonblank_cons.
  - unfold nonblank. simpl. now rewrite orb_false_r.
  - now rewrite orb_assoc.
Qed.

Lemma blocks_start (counted : bool) (lines : list str) :
  blocks counted false lines = Spec.count_blocks counted lines.
Proof. destruct lines as [|[|c l] rest]; reflexivity. Qed.

Lemma blocks_nil (counted ne : bool) : blocks counted ne (split_char NL []) = 0.
Proof. simpl. now destruct ne. Qed.

Lemma blocks_newline (counted ne : bool) (s : str) :
  blocks counted ne (split_char NL (NL :: s))
    = blocks (if ne then counted else false) false (split_char NL s).
Proof.
  cbn [split_char]. change (N.eqb NL NL) with true. cbv iota.
  rewrite blocks_start. simpl. now destruct ne.
Qed.

Lemma blocks_char (counted ne : bool) (c : cp) (s : str) :
  N.eqb c NL = false ->
  blocks counted ne (split_char NL (c :: s))
    = (if (visible c && negb counted)%bool then 1 else 0)
      + blocks (counted || visible c) true (split_char NL s).
Proof.
  intros Hc. cbn [split_char]. rewrite Hc.
  pose proof (split_char_nonempty NL s) as Hne.
  destruct (split_char NL s) as [|l rest]; [congruence|].
  unfold Re.push. cbn [blocks]. rewrite nonblank_cons.
  destruct l as [|d l].
  - change (nonblank []) with false. destruct counted, (visible c); reflexivity.
  - destruct counted, (visible c), (nonblank (d :: l)); reflexivity.
Qed.

Lemma visible_NL : visible NL = false.
Proof. unfold visible. now rewrite uc_isspace_NL. Qed.

(** Splitting at runs of two or more newlines and grouping the lines
    between empty lines count the same blocks. *)
Lemma split_blocks (s : str) :
  (forall prev hb ne,
     ne = true \/ hb = false \/ span (is_char NL) s = 0 ->
     pieces hb (Re.split_from RE_nl2 0 prev s)
       = (if hb then 1 else 0) + blocks hb ne (split_char NL s))
  /\ (forall prev,
        pieces false (Re.split_from RE_nl2 (span (is_char NL) s) prev s)
          = blocks false false (split_char NL s)).
Proof.
  induction s as [|c s [IHa IHb]].
  - split.
    + intros prev hb ne _. rewrite blocks_nil. simpl. destruct hb; reflexivity.
    + intros prev. reflexivity.
  - assert (A : forall prev hb ne,
      ne = true \/ hb = false \/ span (is_char NL) (c :: s) = 0 ->
      pieces hb (Re.split_from RE_nl2 0 prev (c :: s))
        = (if hb then 1 else 0) + blocks hb ne (split_char NL (c :: s))).
    { intros prev hb ne Hcond. cbn [Re.split_from]. rewrite match_len_nl2.
      cbn [span] in Hcond |- *. unfold is_char in *.
      destruct (N.eqb_spec NL c) as [<-|Hc].
      - rewrite blocks_newline.
        destruct (2 <=? S (span (N.eqb NL) s)) eqn:E.
        + apply Nat.leb_le in E.
          cbn [pieces]. rewrite orb_false_r, pieces_all.
          fold (is_char NL). rewrite IHb.
          destruct s as [|d s]; [simpl in E; lia|].
          cbn [span] in E. unfold is_char in *.
          destruct (N.eqb_spec NL d) as [<-|Hd]; [|lia].
          rewrite !blocks_newline. now destruct ne.
        + apply Nat.leb_gt in E.
          assert (Hs : span (is_char NL) s = 0) by (unfold is_char; lia).
          rewrite pieces_push, visible_NL, orb_false_r.
          rewrite (IHa (Some NL) hb false) by auto.
          destruct Hcond as [->|[->|Hcond]]; [reflexivity|now destruct ne|lia].
      - assert (Hc' : N.eqb c NL = false) by (apply N.eqb_neq; congruence).
        cbn [Nat.leb]. rewrite pieces_push, (@blocks_char hb ne c s Hc').
        rewrite (IHa (Some c) (hb || visible c)%bool true) by auto.
        destruct hb, (visible c); simpl; lia. }
    split; [exact A|].
    intros prev. cbn [span]. unfold is_char in *.
    destruct (N.eqb_spec NL c) as [<-|Hc].
    + cbn [Re.split_from]. rewrite blocks_newline. apply IHb.
    + rewrite (A prev false false) by auto. reflexivity.
Qed.

Lemma paragraphs_split (s : str) :
  length (filter nonblank (Re.split RE_nl2 s)) = Spec.count_blocks false (split_char NL s).
Proof.
  rewrite pieces_all. unfold Re.split.
  rewrite (proj1 (split_blocks s) None false false) by auto.
  now rewrite blocks_start.
Qed.

End Paragraphs.

Section ParagraphCount.
Context {U : UnicodeDB}.
Import Processor.

Lemma count_paragraphs_by_lines (text : str) :
  count_paragraphs_from_text_preserving_double_newlines text = Spec.paragraphs_by_lines text.
Proof.
  unfold count_paragraphs_from_text_preserving_double_newlines, Spec.paragraphs_by_lines.
  destruct (nonblank text) eqn:E; cbn [negb].
  - apply paragraphs_split.
  - apply nonblank_false, strip_empty_iff in E. rewrite E. reflexivity.
Qed.

Lemma paragraphs_by_lines_positive (text : str) :
  ~ Spec.whitespace_only text -> 1 <= Spec.paragraphs_by_lines text.
Proof.
  intros Hn. unfold Spec.paragraphs_by_lines.
  destruct (strip text) as [|c rest] eqn:E.
  - exfalso. apply Hn. now apply strip_empty_iff.
  - assert (Hc : uc_isspace c = false).
    { pose proof (strip_trimmed text) as [H _]. rewrite E in H. eapply H. reflexivity. }
    assert (Hnl : N.eqb c NL = false).
    { apply N.eqb_neq. intros ->. rewrite uc_isspace_NL in Hc. discriminate. }
    rewrite <- blocks_start, (@blocks_char _ false false c rest Hnl).
    unfold visible. rewrite Hc. simpl. lia.
Qed.

(** C7: the paragraph count of a text is 0 exactly when the text is empty
    or holds white space only; it is at least 1 for every other text; and
    it is the number of blocks of the trimmed text that are not blank,
    the blocks being the groups of lines between empty lines. *)
Theorem C7_paragraph_count (text : str) :
  (count_paragraphs_from_text_preserving_double_newlines text = 0
     <-> Spec.whitespace_only text)
  /\ (~ Spec.whitespace_only text ->
      1 <= count_paragraphs_from_text_preserving_double_newlines text)
  /\ count_paragraphs_from_text_preserving_double_newlines text
       = Spec.paragraphs_by_lines text.
Proof.
  split; [|split].
  - split.
    + intros H.
      destruct (nonblank text) eqn:E; [|now apply nonblank_false].
      assert (Hn : ~ Spec.whitespace_only text).
      { intros W. apply nonblank_false in W. congruence. }
      apply paragraphs_by_lines_positive in Hn.
      rewrite <- count_paragraphs_by_lines in Hn. lia.
    + intros W. apply nonblank_false in W.
      unfold count_paragraphs_from_text_preserving_double_newlines. now rewrite W.
  - intros Hn. rewrite count_paragraphs_by_lines. now apply paragraphs_by_lines_positive.
  - apply count_paragraphs_by_lines.
Qed.

End ParagraphCount.

(** Two paragraphs, the second after two blank lines, and a blank tail. *)
Definition text_two_paragraphs : str :=
  cps "one" ++ [NL] ++ cps "more" ++ [NL; NL; NL] ++ cps "two" ++ [NL; NL; SP].

Lemma C7_paragraph_count_example :
  ~ Spec.whitespace_only text_two_paragraphs
  /\ Processor.count_paragraphs_from_text_preserving_double_newlines text_two_paragraphs = 2
  /\ Spec.paragraphs_by_lines text_two_paragraphs = 2
  /\ 1 <= Processor.count_paragraphs_from_text_preserving_double_newlines text_two_paragraphs.
Proof.
  assert (Hn : ~ Spec.whitespace_only text_two_paragraphs).
  { intros W. inversion W as [|c l Hc _]. discriminate Hc. }
  destruct (C7_paragraph_count (U := table) text_two_paragraphs) as (_ & H2 & H3).
  split; [exact Hn|].
  split; [vm_compute; reflexivity|].
  split; [rewrite <- H3; vm_compute; reflexivity|].
  exact (H2 Hn).
Defined.

(* ================================================================== *)
(** * Further properties of the processor: what [main] counts and writes *)
(* ================================================================== *)

(** [s.startswith(pre)] *)
Fixpoint starts_with (pre s : str) : bool :=
  match pre, s with
  | [], _ => true
  | _ :: _, [] => false
  | a :: pre', b :: s' => (N.eqb a b && starts_with pre' s')%bool
  end.

Section ProcessorStore.
Context {U : UnicodeDB}.
Import Processor.

(** Can the raw file be read. *)
Definition readable (w : world) (path : str) : bool :=
  match read_bytes w path with Ok _ => true | Raise _ => false end.

(** The path [main] writes the record of the file at position [idx] to. *)
Definition out_path_for (idx : nat) (path : str) : str :=
  path_join PROCESSED_DIR
    (match Re.match_group RE_page (basename path) with
     | Some g => g
     | None => cps "page_" ++ str_of_nat idx
     end ++ cps ".json").

Definition MANIFEST_PATH : str := path_join STATUS_DIR (cps "process_complete.json").

Lemma starts_with_app (pre s : str) : starts_with pre (pre ++ s) = true.
Proof. induction pre as [|a pre IH]; simpl; [reflexivity|]. now rewrite N.eqb_refl. Qed.

Lemma out_path_in_processed (idx : nat) (path : str) :
  starts_with (cps "/shared/processed/") (out_path_for idx path) = true.
Proof.
  unfold out_path_for, path_join, PROCESSED_DIR.
  rewrite app_assoc. apply (starts_with_app (cps "/shared/processed/")).
Qed.

Lemma readable_process (w : world) (now path : str) :
  if readable w path
  then exists out, process_html_file w now path = inl out
  else exists err, process_html_file w now path = inr err.
Proof.
  unfold readable. pose proof (process_html_file_cases w now path) as H.
  destruct (read_bytes w path); eauto.
Qed.

(** One turn of the loop: which counter moves and what is written. *)
Lemma step_effect (w : world) (idx : nat) (path : str) (p p' : progress) :
  step w idx path p = Ok p' ->
  p_success p' = p_success p + (if readable w path then 1 else 0)
  /\ p_failed p' = p_failed p + (if readable w path then 0 else 1)
  /\ p_store p' =
       match process_html_file w (clock w idx) path with
       | inl out => dict_set (out_path_for idx path) out (p_store p)
       | inr _ => p_store p
       end.
Proof.
  unfold step, out_path_for.
  pose proof (readable_process w (clock w idx) path) as H.
  destruct (readable w path); destruct H as [x ->].
  - unfold write_json. cbv zeta.
    match goal with |- context [writable w ?q] => destruct (writable w q) end;
      cbn [bind]; [|discriminate].
    intros E. injection E as <-. cbn [p_success p_failed p_store].
    repeat split; try reflexivity; lia.
  - intros E. injection E as <-. cbn [p_success p_failed p_store].
    repeat split; try reflexivity; lia.
Qed.

Lemma loop_counts (w : world) (files : list str) :
  forall idx p p', loop w idx files p = Ok p' ->
    p_success p' = p_success p + length (filter (readable w) files)
    /\ p_failed p' = p_failed p + length (filter (fun f => negb (readable w f)) files).
Proof.
  induction files as [|path rest IH]; intros idx p p'; simpl.
  - intros E. injection E as <-. lia.
  - destruct (step w idx path p) as [p1|e] eqn:Hs; cbn [bind]; [|discriminate].
    intros E. apply step_effect in Hs. destruct Hs as (S1 & F1 & _).
    apply IH in E. destruct E as [S2 F2].
    destruct (readable w path); simpl; lia.
Qed.

(** A path that no later turn writes keeps what it holds. *)
Lemma loop_store_keep (w : world) (q : str) (files : list str) :
  forall idx p p', loop w idx files p = Ok p' ->
    (forall j path, nth_error files j = Some path -> readable w path = true ->
       out_path_for (idx + j) path <> q) ->
    dict_get q (p_store p') = dict_get q (p_store p).
Proof.
  induction files as [|path rest IH]; intros idx p p'; simpl.
  - intros E _. now injection E as <-.
  - destruct (step w idx path p) as [p1|e] eqn:Hs; cbn [bind]; [|discriminate].
    intros E Hq. apply step_effect in Hs. destruct Hs as (_ & _ & S1).
    rewrite (IH _ _ _ E).
    + rewrite S1. pose proof (readable_process w (clock w idx) path) as H.
      destruct (readable w path) eqn:R; destruct H as [x ->]; [|reflexivity].
      rewrite dict_get_set. rewrite str_eqb_neq; [reflexivity|].
      intros ->. apply (Hq 0 path); [reflexivity|exact R|].
      now rewrite Nat.add_0_r.
    + intros j path' Hj R. rewrite Nat.add_succ_comm. now apply (Hq (S j)).
Qed.

(** The record of a file stays under its path unless a later file is
    written to the same path. *)
Lemma loop_store_record (w : world) (files : list str) :
  forall idx p p' i path out, loop w idx files p = Ok p' ->
    nth_error files i = Some path ->
    process_html_file w (clock w (idx + i)) path = inl out ->
    (forall j path', i < j -> nth_error files j = Some path' -> readable w path' = true ->
       out_path_for (idx + j) path' <> out_path_for (idx + i) path) ->
    dict_get (out_path_for (idx + i) path) (p_store p') = Some out.
Proof.
  induction files as [|f rest IH]; intros idx p p' i path out; simpl.
  - intros _ H. destruct i; discriminate H.
  - destruct (step w idx f p) as [p1|e] eqn:Hs; cbn [bind]; [|discriminate].
    intros E Hi Hout Hlater. destruct i as [|i]; simpl in Hi.
    + injection Hi as ->. rewrite Nat.add_0_r in *.
      rewrite (loop_store_keep _ _ _ _ E).
      * apply step_effect in Hs. destruct Hs as (_ & _ & ->). rewrite Hout.
        apply dict_get_set_same.
      * intros j path' Hj R. rewrite Nat.add_succ_comm.
        apply (Hlater (S j)); [lia|exact Hj|exact R].
    + rewrite <- Nat.add_succ_comm in *. eapply IH; eauto.
      intros j path' Hlt Hj R. rewrite Nat.add_succ_comm.
      apply (Hlater (S j)); [lia|exact Hj|exact R].
Qed.

End ProcessorStore.

Section ProcessorRun.
Context {U : UnicodeDB}.
Import Processor.

Lemma main_inversion (w : world) (fs : store) (m : manifest) (fs' : store) :
  main w fs = Ok (m, fs') ->
  exists p,
    loop w 1 (sorted (raw_files w))
      {| p_results := []; p_success := 0; p_failed := 0; p_store := fs |} = Ok p
    /\ successful m = p_success p /\ failed m = p_failed p
    /\ fs' = dict_set MANIFEST_PATH (manifest_json m) (p_store p).
Proof.
  unfold main.
  destruct (loop w 1 (sorted (raw_files w)) _) as [p|e]; cbn [bind]; [|discriminate].
  unfold write_json.
  match goal with |- context [writable w ?q] => destruct (writable w q) end;
    cbn [bind]; [|discriminate].
  intros E. injection E as <- <-. exists p. auto.
Qed.

(** X1: in the manifest, [successful] is the number of raw files that could
    be read and [failed] the number of those that could not. *)
Theorem X1_manifest_counts_readable
  (w : world) (fs : store) (m : manifest) (fs' : store) :
  main w fs = Ok (m, fs') ->
  successful m = length (filter (readable w) (raw_files w))
  /\ failed m = length (filter (fun f => negb (readable w f)) (raw_files w)).
Proof.
  intros H. destruct (main_inversion _ _ H) as (p & Hl & -> & -> & _).
  apply loop_counts in Hl. cbn [p_success p_failed] in Hl.
  rewrite !(filter_size_perm _ (sorted_perm (raw_files w))) in Hl. lia.
Qed.

(** X2: a run changes nothing outside its outputs: a path that is not
    under /shared/processed/ and is not the manifest holds after the run
    what it held before. *)
Theorem X2_other_paths_untouched
  (w : world) (fs : store) (m : manifest) (fs' : store) (q : str) :
  main w fs = Ok (m, fs') ->
  starts_with (cps "/shared/processed/") q = false ->
  q <> MANIFEST_PATH ->
  dict_get q fs' = dict_get q fs.
Proof.
  intros H Hq Hm. destruct (main_inversion _ _ H) as (p & Hl & _ & _ & ->).
  rewrite dict_get_set, (str_eqb_neq Hm).
  rewrite (@loop_store_keep _ w q _ 1 _ p Hl); [reflexivity|].
  intros j path _ _ E. rewrite <- E, out_path_in_processed in Hq. discriminate.
Qed.

(** X3: after the run, the record of a file that was read is found under
    its output path, provided no file that comes later in the sorted input
    and was read has the same output path. *)
Theorem X3_record_stored
  (w : world) (fs : store) (m : manifest) (fs' : store) (i : nat) (path : str) (out : json) :
  main w fs = Ok (m, fs') ->
  nth_error (sorted (raw_files w)) i = Some path ->
  process_html_file w (clock w (S i)) path = inl out ->
  (forall j path', i < j -> nth_error (sorted (raw_files w)) j = Some path' ->
     readable w path' = true -> out_path_for (S j) path' <> out_path_for (S i) path) ->
  dict_get (out_path_for (S i) path) fs' = Some out.
Proof.
  intros H Hi Hout Hlater. destruct (main_inversion _ _ H) as (p & Hl & _ & _ & ->).
  rewrite dict_get_set, str_eqb_neq.
  - exact (@loop_store_record _ w _ 1 _ p i path out Hl Hi Hout Hlater).
  - intros E.
    pose proof (out_path_in_processed (S i) path) as Hp. rewrite E in Hp. discriminate Hp.
Qed.

End ProcessorRun.

(** A raw directory with two files that can be read and one that cannot. *)
Definition world_mixed : Processor.world :=
  {| Processor.raw_files :=
       [cps "/shared/raw/b.html"; cps "/shared/raw/page_7.html"; cps "/shared/raw/a.html"];
     Processor.read_bytes := fun p =>
       if str_eqb p (cps "/shared/raw/a.html") then Ok (bytes_of "<p>One. Two!</p>")
       else if str_eqb p (cps "/shared/raw/page_7.html")
       then Ok (bytes_of "<h1>Title</h1><a href='x.html'>go</a>")
       else Raise (OSError (cps "permission denied"));
     Processor.writable := fun _ => true;
     Processor.clock := fun _ => cps "2024-01-01T00:00:00+00:00" |}.

Lemma X1_manifest_counts_example :
  exists m fs', Processor.main world_mixed [] = Ok (m, fs')
    /\ Processor.successful m = 2 /\ Processor.failed m = 1.
Proof.
  destruct (Processor.main world_mixed []) as [[m fs']|e] eqn:E.
  - exists m, fs'. split; [reflexivity|].
    exact (X1_manifest_counts_readable (U := table) world_mixed [] E).
  - vm_compute in E. discriminate E.
Defined.

Lemma X2_other_paths_example :
  exists m fs',
    Processor.main world_mixed [(cps "/shared/raw/a.html", JNull)] = Ok (m, fs')
    /\ dict_get (cps "/shared/raw/a.html") fs' = Some JNull.
Proof.
  destruct (Processor.main world_mixed [(cps "/shared/raw/a.html", JNull)])
    as [[m fs']|e] eqn:E.
  - exists m, fs'. split; [reflexivity|].
    rewrite (@X2_other_paths_untouched table world_mixed _ m fs' (cps "/shared/raw/a.html") E);
      [reflexivity|reflexivity|discriminate].
  - vm_compute in E. discriminate E.
Defined.

Lemma X3_record_stored_example :
  exists m fs' out, Processor.main world_mixed [] = Ok (m, fs')
    /\ Processor.process_html_file world_mixed (cps "2024-01-01T00:00:00+00:00")
         (cps "/shared/raw/a.html") = inl out
    /\ dict_get (cps "/shared/processed/page_1.json") fs' = Some out.
Proof.
  destruct (Processor.main world_mixed []) as [[m fs']|e] eqn:E;
    [|vm_compute in E; discriminate E].
  destruct (Processor.process_html_file world_mixed (cps "2024-01-01T00:00:00+00:00")
              (cps "/shared/raw/a.html")) as [out|err] eqn:P;
    [|vm_compute in P; discriminate P].
  exists m, fs', out. split; [reflexivity|]. split; [reflexivity|].
  apply (@X3_record_stored table world_mixed [] m fs' 0 (cps "/shared/raw/a.html") out E).
  - reflexivity.
  - exact P.
  - intros [|[|[|j]]] path' Hlt Hj R; [lia| | |].
    + vm_compute in Hj. injection Hj as <-. vm_compute in R. discriminate R.
    + vm_compute in Hj. injection Hj as <-. vm_compute. discriminate.
    + vm_compute in Hj. destruct j; discriminate Hj.
Defined.

(* ================================================================== *)
(** * Further properties of the analyzer: when it reports and how much *)
(* ================================================================== *)

Section AnalyzerRun.
Context {U : UnicodeDB}.
Import Analyzer.

(** Can the processed file be read and parsed. *)
Definition loadable (w : world) (path : str) : bool :=
  match read_processed_json w path with Ok _ => true | Raise _ => false end.

Lemma load_docs_length (w : world) (paths : list str) :
  length (load_docs w paths) = length (filter (loadable w) paths).
Proof.
  unfold loadable. induction paths as [|p paths IH]; simpl; [reflexivity|].
  destruct (read_processed_json w p); simpl; auto.
Qed.

Lemma loop_runs (docs : list (str * json)) :
  Forall (fun d => exists text, Spec.has_text d text) docs ->
  forall t, exists t', loop t docs = Ok t'.
Proof.
  induction 1 as [|[fname d] docs [text Ht] _ IH]; intros t; simpl; [eauto|].
  unfold Spec.has_text, Spec.text_of in Ht. simpl in Ht.
  destruct (get_text d) as [v|e]; [|discriminate]. cbn [bind] in Ht |- *.
  rewrite Ht. cbn [bind]. apply IH.
Qed.

Lemma main_fields (w : world) (r : report) :
  main w = Ok r ->
  exists t, loop start (Spec.loaded w) = Ok t
    /\ documents_processed r = length (Spec.loaded w)
    /\ unique_words r = length (vocab_counter t)
    /\ length (document_similarity r) = length (combinations (Spec.loaded w))
    /\ length (top_100_words r) = length (most_common (vocab_counter t) 100)
    /\ length (top_bigrams r) = length (most_common (bigram_counter t) 50)
    /\ length (top_trigrams r) = length (most_common (trigram_counter t) 50)
    /\ map count (top_100_words r) = map snd (most_common (vocab_counter t) 100).
Proof.
  unfold main, build_report. fold (Spec.loaded w).
  destruct (loop start (Spec.loaded w)) as [t|e]; cbn [bind]; [|discriminate].
  intros H. injection H as <-. exists t. cbn.
  rewrite !length_map, map_map. cbn. auto 10.
Qed.

(** X4: the analyzer ends with a report exactly when every record it has
    loaded is an object whose "text" (the empty string when the key is
    absent) is a string; any other record is not skipped but ends the run
    with its exception. *)
Theorem X4_report_iff_texts (w : world) :
  (exists r, main w = Ok r)
  <-> Forall (fun d => exists text, Spec.has_text d text) (Spec.loaded w).
Proof.
  split.
  - intros [r H]. destruct (main_totals w H) as (texts & Hts & _).
    clear H. induction Hts; constructor; eauto.
  - intros H. unfold main, build_report. fold (Spec.loaded w).
    destruct (loop_runs H start) as [t ->]. cbn [bind]. eauto.
Qed.

(** X5: [documents_processed] is the number of processed files that could
    be read and parsed; a file that could not is passed over. *)
Theorem X5_documents_processed (w : world) (r : report) :
  main w = Ok r ->
  documents_processed r = length (filter (loadable w) (processed_files w)).
Proof.
  intros H. destruct (main_fields w H) as (t & _ & -> & _).
  unfold Spec.loaded. rewrite load_docs_length.
  apply filter_size_perm, sorted_perm.
Qed.

Lemma combinations_length {A : Type} (l : list A) :
  2 * length (combinations l) = length l * (length l - 1).
Proof.
  induction l as [|x l IH]; simpl; [reflexivity|].
  rewrite length_app, length_map, Nat.sub_0_r. nia.
Qed.

(** X6: the report has one similarity entry for each unordered pair of
    documents: n (n - 1) / 2 entries for n documents. *)
Theorem X6_similarity_pairs (w : world) (r : report) :
  main w = Ok r ->
  2 * length (document_similarity r) = documents_processed r * (documents_processed r - 1).
Proof.
  intros H. destruct (main_fields w H) as (t & _ & -> & _ & -> & _).
  apply combinations_length.
Qed.

Lemma sorted_by_count_length (c : counter) : length (sorted_by_count c) = length c.
Proof. apply Permutation_length, sorted_by_count_perm. Qed.

(** X7: [top_100_words] has 100 entries, or all the distinct words when
    there are fewer; [top_bigrams] and [top_trigrams] have at most 50. *)
Theorem X7_top_sizes (w : world) (r : report) :
  main w = Ok r ->
  length (top_100_words r) = Nat.min 100 (unique_words r)
  /\ length (top_bigrams r) <= 50
  /\ length (top_trigrams r) <= 50.
Proof.
  intros H. destruct (main_fields w H) as (t & _ & _ & -> & _ & -> & -> & -> & _).
  unfold most_common. rewrite !length_firstn, sorted_by_count_length. lia.
Qed.

End AnalyzerRun.

Section AnalyzerCounts.
Context {U : UnicodeDB}.
Import Analyzer.

Lemma dict_set_sum (k : str) (c : counter) :
  list_sum (map snd (dict_set k (match dict_get k c with Some n => n | None => 0 end + 1) c))
    = S (list_sum (map snd c)).
Proof.
  induction c as [|[x n] c IH]; simpl; [reflexivity|].
  destruct (str_eqb k x); simpl; [lia|]. rewrite IH. lia.
Qed.

Lemma update_sum (ws : list str) :
  forall c, list_sum (map snd (update c ws)) = list_sum (map snd c) + length ws.
Proof.
  unfold update. induction ws as [|w ws IH]; intros c; simpl; [lia|].
  rewrite IH, dict_set_sum. lia.
Qed.

(** The counts of a count table add up to the number of terms counted. *)
Lemma count_table_sum (terms : list str) :
  list_sum (map snd (Spec.count_table terms)) = length terms.
Proof.
  change terms with ([] ++ terms) at 1. rewrite <- update_count_table, update_sum.
  reflexivity.
Qed.

Lemma distinct_length (terms : list str) : length (Spec.distinct terms) <= length terms.
Proof.
  induction terms as [|w terms IH]; simpl; [lia|].
  pose proof (filter_length_le (fun x => negb (str_eqb x w)) (Spec.distinct terms)). lia.
Qed.

Lemma concat_length (f : str -> list str) (texts : list str) :
  length (concat (map f texts)) = Spec.total (fun text => length (f text)) texts.
Proof.
  unfold Spec.total. induction texts as [|x texts IH]; simpl; [reflexivity|].
  rewrite length_app, IH. reflexivity.
Qed.

Lemma main_vocabulary (w : world) (r : report) :
  main w = Ok r ->
  exists texts, Forall2 Spec.has_text (Spec.loaded w) texts
    /\ total_words r = length (Spec.corpus_words texts)
    /\ unique_words r = length (Spec.distinct (Spec.corpus_words texts))
    /\ map count (top_100_words r)
         = map snd (most_common (Spec.count_table (Spec.corpus_words texts)) 100).
Proof.
  intros H. destruct (main_totals w H) as (texts & Hts & _ & Htw & _).
  destruct (main_fields w H) as (t & Ht & _ & Hu & _ & _ & _ & _ & Hc).
  destruct (@loop_counters _ _ _ _ _ Hts Ht) as (E1 & _).
  change (vocab_counter start) with (Spec.count_table []) in E1.
  rewrite update_count_table in E1. simpl in E1.
  exists texts. split; [exact Hts|].
  split; [rewrite Htw; symmetry; apply concat_length|].
  split.
  - rewrite Hu, E1. unfold Spec.count_table. apply length_map.
  - now rewrite Hc, E1.
Qed.

(** X8: [unique_words] is the number of distinct words of the corpus and
    is at most [total_words]; when there are at most 100 distinct words,
    the counts listed in [top_100_words] add up to [total_words]. *)
Theorem X8_vocabulary_counts (w : world) (r : report) :
  main w = Ok r ->
  (exists texts, Forall2 Spec.has_text (Spec.loaded w) texts
     /\ unique_words r = length (Spec.distinct (Spec.corpus_words texts)))
  /\ unique_words r <= total_words r
  /\ (unique_words r <= 100 -> list_sum (map count (top_100_words r)) = total_words r).
Proof.
  intros H. destruct (main_vocabulary w H) as (texts & Hts & Htw & Hu & Hc).
  split; [exists texts; now split|].
  split; [rewrite Hu, Htw; apply distinct_length|].
  intros Hle. rewrite Hc, Htw. unfold most_common.
  rewrite firstn_all2.
  - rewrite (Permutation_map snd (sorted_by_count_perm _)).
    + apply count_table_sum.
  - rewrite sorted_by_count_length. unfold Spec.count_table. rewrite length_map.
    rewrite <- Hu. exact Hle.
Qed.

(** X9: when no processed file can be read (in particular when there is
    none), the analyzer still ends with a report: no documents, no words,
    empty tables and a readability of zero. *)
Theorem X9_empty_corpus (w : world) :
  (forall p, In p (processed_files w) -> loadable w p = false) ->
  main w = Ok {| processing_timestamp := now w;
                 documents_processed := 0;
                 total_words := 0;
                 unique_words := 0;
                 top_100_words := [];
                 document_similarity := [];
                 top_bigrams := [];
                 top_trigrams := [];
                 readability := {| avg_sentence_length := 0%Q;
                                   avg_word_length := 0%Q;
                                   complexity_score := 0%Q |} |}.
Proof.
  intros H. unfold main.
  assert (E : load_docs w (sorted (processed_files w)) = []).
  { assert (Hs : forall p, In p (sorted (processed_files w)) -> loadable w p = false).
    { intros p Hp. apply H. eapply Permutation_in; [apply sorted_perm|exact Hp]. }
    induction (sorted (processed_files w)) as [|p l IH]; simpl; [reflexivity|].
    pose proof (Hs p (or_introl eq_refl)) as Hp. unfold loadable in Hp.
    destruct (read_processed_json w p); [discriminate|]. apply IH.
    intros q Hq. apply Hs. now right. }
  rewrite E. reflexivity.
Qed.

End AnalyzerCounts.

(** A processed directory with two records and a file that cannot be read. *)
Definition world_three_files : Analyzer.world :=
  {| Analyzer.processed_files :=
       [cps "/shared/processed/page_3.json"; cps "/shared/processed/page_1.json";
        cps "/shared/processed/page_2.json"];
     Analyzer.read_processed_json := two_records;
     Analyzer.now := cps "2024-01-01T00:00:00+00:00" |}.

Lemma X5_documents_processed_example :
  exists r, Analyzer.main world_three_files = Ok r /\ Analyzer.documents_processed r = 2.
Proof.
  destruct (Analyzer.main world_three_files) as [r|e] eqn:E;
    [|vm_compute in E; discriminate E].
  exists r. split; [reflexivity|].
  exact (X5_documents_processed (U := table) world_three_files E).
Defined.

Lemma X6_similarity_pairs_example :
  exists r, Analyzer.main world_three_files = Ok r
    /\ 2 * length (Analyzer.document_similarity r)
       = Analyzer.documents_processed r * (Analyzer.documents_processed r - 1).
Proof.
  destruct (Analyzer.main world_three_files) as [r|e] eqn:E;
    [|vm_compute in E; discriminate E].
  exists r. split; [reflexivity|].
  exact (X6_similarity_pairs (U := table) world_three_files E).
Defined.

Lemma X7_top_sizes_example :
  exists r, Analyzer.main world_three_files = Ok r
    /\ length (Analyzer.top_100_words r) = Nat.min 100 (Analyzer.unique_words r)
    /\ length (Analyzer.top_bigrams r) <= 50
    /\ length (Analyzer.top_trigrams r) <= 50.
Proof.
  destruct (Analyzer.main world_three_files) as [r|e] eqn:E;
    [|vm_compute in E; discriminate E].
  exists r. split; [reflexivity|].
  exact (X7_top_sizes (U := table) world_three_files E).
Defined.

Lemma X8_vocabulary_counts_example :
  exists r, Analyzer.main world_three_files = Ok r
    /\ Analyzer.unique_words r <= 100
    /\ list_sum (map Analyzer.count (Analyzer.top_100_words r)) = Analyzer.total_words r.
Proof.
  destruct (Analyzer.main world_three_files) as [r|e] eqn:E;
    [|vm_compute in E; discriminate E].
  exists r. split; [reflexivity|].
  destruct (X8_vocabulary_counts (U := table) world_three_files E) as (_ & _ & H).
  assert (Hle : Analyzer.unique_words r <= 100).
  { vm_compute in E. injection E as <-. cbn [Analyzer.unique_words]. lia. }
  split; [exact Hle|exact (H Hle)].
Defined.

(** A processed directory whose only file cannot be read. *)
Definition world_unreadable : Analyzer.world :=
  {| Analyzer.processed_files := [cps "/shared/processed/page_9.json"];
     Analyzer.read_processed_json := two_records;
     Analyzer.now := cps "2024-01-01T00:00:00+00:00" |}.

Lemma X9_empty_corpus_example :
  exists r, Analyzer.main world_unreadable = Ok r
    /\ Analyzer.documents_processed r = 0 /\ Analyzer.total_words r = 0.
Proof.
  eexists. split.
  - apply (X9_empty_corpus (U := table) world_unreadable).
    intros p [<-|[]]. reflexivity.
  - split; reflexivity.
Defined.

(* ================================================================== *)
(** * Further properties of the similarity *)
(* ================================================================== *)

Section SimilarityRange.
Import Analyzer.

Lemma truediv_eq (a b : nat) : b <> 0 -> Qeq (truediv a b) (Qmake (Z.of_nat a) (Pos.of_nat b)).
Proof. intros _. unfold truediv. apply Qred_correct. Qed.

Lemma pos_of_nat_Z (b : nat) : b <> 0 -> Zpos (Pos.of_nat b) = Z.of_nat b.
Proof.
  destruct b as [|m]; [congruence|]. intros _.
  rewrite <- Pos.of_nat_succ, Zpos_P_of_succ_nat, Nat2Z.inj_succ. reflexivity.
Qed.

Lemma truediv_range (a b : nat) : b <> 0 -> a <= b -> Qle 0 (truediv a b) /\ Qle (truediv a b) 1.
Proof.
  intros Hb Hab. rewrite (truediv_eq a Hb). unfold Qle. cbn [Qnum Qden].
  rewrite (pos_of_nat_Z Hb). lia.
Qed.

Lemma truediv_one (a b : nat) : b <> 0 -> truediv a b = 1%Q -> a = b.
Proof.
  intros Hb H. pose proof (truediv_eq a Hb) as E. rewrite H in E.
  unfold Qeq in E. cbn [Qnum Qden] in E. rewrite (pos_of_nat_Z Hb) in E. lia.
Qed.

Lemma truediv_zero (a b : nat) : b <> 0 -> truediv a b = 0%Q -> a = 0.
Proof.
  intros Hb H. pose proof (truediv_eq a Hb) as E. rewrite H in E.
  unfold Qeq in E. cbn [Qnum Qden] in E. lia.
Qed.

Lemma truediv_of_zero (b : nat) : truediv 0 b = 0%Q.
Proof. reflexivity. Qed.

Lemma intersection_le_union (s1 s2 : list str) :
  length (intersection s1 s2) <= length (union s1 s2).
Proof.
  unfold intersection, union. rewrite length_app.
  pose proof (filter_length_le (fun x => mem x s2) s1). lia.
Qed.

Lemma filter_full {A : Type} (f : A -> bool) (l : list A) :
  length (filter f l) = length l -> forall x, In x l -> f x = true.
Proof.
  induction l as [|y l IH]; simpl; [tauto|].
  pose proof (filter_length_le f l) as Hle.
  destruct (f y) eqn:E; simpl; intros H x [<-|Hx]; auto; try lia.
Qed.

Lemma filter_empty {A : Type} (f : A -> bool) (l : list A) :
  length (filter f l) = 0 -> forall x, In x l -> f x = false.
Proof.
  induction l as [|y l IH]; simpl; [tauto|].
  destruct (f y) eqn:E; simpl; intros H x [<-|Hx]; auto; discriminate.
Qed.

Lemma jaccard_range (a b : list str) :
  Qle 0 (jaccard_similarity a b) /\ Qle (jaccard_similarity a b) 1.
Proof.
  rewrite jaccard_by_size.
  pose proof (intersection_le_union (set a) (set b)) as H.
  destruct (length (union (set a) (set b))) as [|n] eqn:E.
  - split; discriminate.
  - apply truediv_range; [discriminate|exact H].
Qed.

(** X11: the similarity of two token lists is 1 exactly when the lists are
    not empty and hold the same tokens, and 0 exactly when they have no
    token in common. *)
Theorem X11_jaccard_extremes (a b : list str) :
  (jaccard_similarity a b = 1%Q <-> a <> [] /\ forall x, In x a <-> In x b)
  /\ (jaccard_similarity a b = 0%Q <-> forall x, In x a -> ~ In x b).
Proof.
  rewrite jaccard_by_size. unfold union, intersection. rewrite length_app.
  set (extra := filter (fun x => negb (mem x (set a))) (set b)).
  set (common := filter (fun x => mem x (set b)) (set a)).
  pose proof (filter_length_le (fun x => mem x (set b)) (set a)) as Hle.
  fold common in Hle.
  split; split.
  - destruct (length (set a) + length extra) as [|n] eqn:E; [discriminate|].
    intros H. apply truediv_one in H; [|discriminate].
    assert (Hc : length common = length (set a)) by lia.
    assert (He : length extra = 0) by lia.
    split.
    + intros ->. simpl in *. lia.
    + intros x. split; intros Hx.
      * apply set_In. apply mem_In.
        apply (filter_full _ _ Hc). now apply set_In.
      * apply set_In in Hx. pose proof (filter_empty _ _ He x Hx) as Hm.
        apply negb_false_iff in Hm. apply (proj1 (mem_In _ _)) in Hm.
        apply (proj1 (set_In _ _)) in Hm. exact Hm.
  - intros [Hne Hsame].
    assert (Hc : common = set a).
    { apply filter_all. intros x Hx. apply mem_In, set_In, Hsame, set_In. exact Hx. }
    assert (He : extra = []).
    { apply filter_none. intros x Hx. apply negb_false_iff, mem_In, set_In, Hsame, set_In.
      exact Hx. }
    rewrite Hc, He, Nat.add_0_r.
    destruct (length (set a)) as [|n] eqn:E.
    + apply length_zero_iff_nil in E. destruct a as [|x a]; [congruence|].
      assert (In x (set (x :: a))) by (apply set_In; now left).
      rewrite E in *. contradiction.
    + now apply truediv_same.
  - intros H x Hx Hb.
    assert (Hin : In x common).
    { apply filter_In. split; [now apply set_In|]. apply mem_In. now apply set_In. }
    destruct (length (set a) + length extra) as [|n] eqn:E.
    + apply (proj2 (set_In _ _)) in Hx. destruct (set a); [contradiction|simpl in E; lia].
    + apply truediv_zero in H; [|discriminate].
      apply length_zero_iff_nil in H. rewrite H in Hin. contradiction.
  - intros H.
    assert (Hc : common = []).
    { apply filter_none. intros x Hx.
      destruct (mem x (set b)) eqn:M; [|reflexivity].
      apply (proj1 (mem_In _ _)) in M. apply (proj1 (set_In _ _)) in M.
      apply (proj1 (set_In _ _)) in Hx. exfalso. exact (H x Hx M). }
    rewrite Hc. simpl.
    destruct (length (set a) + length extra); reflexivity.
Qed.

End SimilarityRange.

Section RoundingRange.

Lemma round_half_even_bounds (x : Q) (a b : Z) :
  Qle (inject_Z a) x -> Qle x (inject_Z b) -> (a <= round_half_even x <= b)%Z.
Proof.
  intros Ha Hb.
  assert (Hfa : (a <= Qfloor x)%Z).
  { rewrite <- (Qfloor_Z a). now apply Qfloor_resp_le. }
  assert (Hfb : (Qfloor x <= b)%Z).
  { rewrite <- (Qfloor_Z b). now apply Qfloor_resp_le. }
  assert (Hhalf : Qle (1 # 2) (Qminus x (inject_Z (Qfloor x))) -> (Qfloor x + 1 <= b)%Z).
  { intros Hd. destruct (Z.eq_dec (Qfloor x) b) as [E|E]; [|lia].
    exfalso. rewrite E in Hd.
    assert (Hneg : Qle (Qminus x (inject_Z b)) 0).
    { unfold Qminus. rewrite <- (Qplus_opp_r (inject_Z b)).
      apply Qplus_le_compat; [exact Hb|apply Qle_refl]. }
    pose proof (Qle_trans _ _ _ Hd Hneg) as Habs. now apply Habs. }
  unfold round_half_even. cbv zeta.
  destruct (Qcompare (Qminus x (inject_Z (Qfloor x))) (1 # 2)) eqn:C.
  - apply Qeq_alt in C.
    assert (Hd : Qle (1 # 2) (Qminus x (inject_Z (Qfloor x)))).
    { rewrite C. apply Qle_refl. }
    specialize (Hhalf Hd). destruct (Z.even (Qfloor x)); lia.
  - lia.
  - apply Qgt_alt in C. specialize (Hhalf (Qlt_le_weak _ _ C)). lia.
Qed.

End RoundingRange.

(** The nearest float: where it lies, and how far it is from the number. *)
Section Binary64.
Local Open Scope Q_scope.

Lemma round_half_even_ge (x : Q) (a : Z) : inject_Z a <= x -> (a <= round_half_even x)%Z.
Proof.
  intros H. apply (@round_half_even_bounds x a (Qfloor x + 1)); [exact H|].
  apply Qlt_le_weak, Qlt_floor.
Qed.

Lemma round_half_even_le (x : Q) (b : Z) : x <= inject_Z b -> (round_half_even x <= b)%Z.
Proof.
  intros H. apply (@round_half_even_bounds x (Qfloor x) b); [apply Qfloor_le|exact H].
Qed.

Lemma pow2_pos (e : Z) : 0 < pow2 e.
Proof. apply Qpower_0_lt. reflexivity. Qed.

Lemma pow2_inv (e : Z) : pow2 (- e) * pow2 e == 1.
Proof.
  unfold pow2. rewrite <- Qpower_plus by discriminate.
  rewrite Z.add_opp_diag_l. reflexivity.
Qed.

Lemma pow2_Z (e : Z) : (0 <= e)%Z -> pow2 e == inject_Z (2 ^ e).
Proof. intros H. unfold pow2. symmetry. now apply Zpower_Qpower. Qed.

Lemma pow2_le (a b : Z) : (a <= b)%Z -> pow2 a <= pow2 b.
Proof. intros H. apply Qpower_le_compat_l; [exact H|discriminate]. Qed.

(** [ilog2] is not above the logarithm. *)
Lemma ilog2_le (q : Q) : 0 < q -> pow2 (ilog2 q) <= q.
Proof.
  intros Hq. unfold ilog2. cbv zeta.
  destruct (Qle_bool (pow2 (Z.log2 (Qnum q) - Z.log2 (Zpos (Qden q)))) q) eqn:E.
  - now apply Qle_bool_iff.
  - clear E. destruct q as [n d]. cbn [Qnum Qden].
    assert (Hn : (0 < n)%Z).
    { unfold Qlt in Hq. cbn in Hq. lia. }
    pose proof (Z.log2_spec n Hn) as [Hln _].
    pose proof (Z.log2_spec (Zpos d) (Pos2Z.is_pos d)) as [_ Hld].
    pose proof (Z.log2_nonneg n) as H0n.
    pose proof (Z.log2_nonneg (Zpos d)) as H0d.
    replace (Z.log2 n - Z.log2 (Zpos d) - 1)%Z
      with (Z.log2 n - Z.succ (Z.log2 (Zpos d)))%Z by lia.
    unfold pow2 at 1. rewrite Qpower_minus by discriminate.
    fold (pow2 (Z.log2 n)) (pow2 (Z.succ (Z.log2 (Zpos d)))).
    rewrite (pow2_Z H0n), (pow2_Z (Z.le_le_succ_r _ _ H0d)).
    set (A := (2 ^ Z.log2 n)%Z) in *. set (B := (2 ^ Z.succ (Z.log2 (Zpos d)))%Z) in *.
    assert (HB : (0 < B)%Z) by lia.
    apply Qle_shift_div_r.
    + change 0 with (inject_Z 0). rewrite <- Zlt_Qlt. exact HB.
    + unfold Qle. cbn [Qnum Qden inject_Z Qmult]. nia.
Qed.

Lemma nearest53_le (q : Q) (N : Z) :
  0 < q -> q <= inject_Z N -> (N < 2 ^ 53)%Z -> nearest53 q <= inject_Z N.
Proof.
  intros Hq HN Hb. unfold nearest53. cbv zeta.
  set (e := (ilog2 q - 52)%Z).
  assert (He : (e <= 0)%Z).
  { assert (Hlt : pow2 (ilog2 q) < pow2 53).
    { eapply Qle_lt_trans; [apply ilog2_le; exact Hq|].
      eapply Qle_lt_trans; [exact HN|].
      rewrite (@pow2_Z 53) by lia. rewrite <- Zlt_Qlt. exact Hb. }
    apply Qpower_lt_compat_l_inv in Hlt; [|reflexivity]. lia. }
  assert (Hx : q * pow2 (- e) <= inject_Z (N * 2 ^ (- e))).
  { rewrite inject_Z_mult, <- (@pow2_Z (- e)) by lia.
    apply Qmult_le_compat_r; [exact HN|apply Qlt_le_weak, pow2_pos]. }
  apply round_half_even_le in Hx.
  rewrite Zle_Qle in Hx. rewrite inject_Z_mult, <- (@pow2_Z (- e)) in Hx by lia.
  apply (Qmult_le_compat_r _ _ (pow2 e)) in Hx; [|apply Qlt_le_weak, pow2_pos].
  rewrite <- Qmult_assoc, pow2_inv, Qmult_1_r in Hx. exact Hx.
Qed.

Lemma nearest53_ge (q : Q) (N : Z) :
  0 < q -> inject_Z N <= q -> (N < 2 ^ 53)%Z -> inject_Z N <= nearest53 q.
Proof.
  intros Hq HN Hb. unfold nearest53. cbv zeta.
  set (e := (ilog2 q - 52)%Z).
  destruct (Z.le_gt_cases e 0) as [He|He].
  - assert (Hx : inject_Z (N * 2 ^ (- e)) <= q * pow2 (- e)).
    { rewrite inject_Z_mult, <- (@pow2_Z (- e)) by lia.
      apply Qmult_le_compat_r; [exact HN|apply Qlt_le_weak, pow2_pos]. }
    apply round_half_even_ge in Hx.
    rewrite Zle_Qle in Hx. rewrite inject_Z_mult, <- (@pow2_Z (- e)) in Hx by lia.
    apply (Qmult_le_compat_r _ _ (pow2 e)) in Hx; [|apply Qlt_le_weak, pow2_pos].
    rewrite <- Qmult_assoc, pow2_inv, Qmult_1_r in Hx. exact Hx.
  - assert (Hx : inject_Z (2 ^ 52) <= q * pow2 (- e)).
    { rewrite <- (@pow2_Z 52) by lia.
      assert (E : pow2 52 == pow2 (ilog2 q) * pow2 (- e)).
      { unfold pow2. rewrite <- Qpower_plus by discriminate.
        replace (ilog2 q + - e)%Z with 52%Z by (unfold e; lia). reflexivity. }
      rewrite E. apply Qmult_le_compat_r; [now apply ilog2_le|apply Qlt_le_weak, pow2_pos]. }
    apply round_half_even_ge in Hx.
    rewrite Zle_Qle in Hx.
    apply Qle_trans with (inject_Z (2 ^ 52) * pow2 1).
    + rewrite (@pow2_Z 1), <- inject_Z_mult, <- Zle_Qle by lia. lia.
    + apply Qle_trans with (inject_Z (2 ^ 52) * pow2 e).
      * rewrite !(Qmult_comm (inject_Z (2 ^ 52))).
        apply Qmult_le_compat_r; [apply pow2_le; lia|].
        change 0 with (inject_Z 0). rewrite <- Zle_Qle. lia.
      * apply Qmult_le_compat_r; [exact Hx|apply Qlt_le_weak, pow2_pos].
Qed.

(** The nearest float of a number that is at least (at most) an integer
    that is a float is at least (at most) that integer. *)
Lemma b64_ge (q : Q) (a : Z) :
  (0 <= a)%Z -> (a < 2 ^ 53)%Z -> inject_Z a <= q -> inject_Z a <= b64 q.
Proof.
  intros H0 Hb Ha. unfold b64.
  assert (Hq0 : 0 <= q).
  { eapply Qle_trans; [|exact Ha]. change 0 with (inject_Z 0). now rewrite <- Zle_Qle. }
  destruct (Qcompare q 0) eqn:C.
  - apply Qeq_alt in C. now rewrite C in Ha.
  - apply Qlt_alt in C. exfalso. exact (Qlt_not_le _ _ C Hq0).
  - apply Qgt_alt in C. rewrite Qred_correct. now apply nearest53_ge.
Qed.

Lemma b64_le (q : Q) (b : Z) :
  0 <= q -> (b < 2 ^ 53)%Z -> q <= inject_Z b -> b64 q <= inject_Z b.
Proof.
  intros Hq0 Hb Hq. unfold b64.
  destruct (Qcompare q 0) eqn:C.
  - apply Qeq_alt in C. now rewrite C in Hq.
  - apply Qlt_alt in C. exfalso. exact (Qlt_not_le _ _ C Hq0).
  - apply Qgt_alt in C. rewrite Qred_correct. now apply nearest53_le.
Qed.

(** [ilog2] is the integer part of the logarithm. *)
Lemma ilog2_gt (q : Q) : 0 < q -> q < pow2 (ilog2 q + 1).
Proof.
  intros Hq. unfold ilog2. cbv zeta.
  destruct (Qle_bool (pow2 (Z.log2 (Qnum q) - Z.log2 (Zpos (Qden q)))) q) eqn:E.
  - clear E. destruct q as [n d]. cbn [Qnum Qden].
    assert (Hn : (0 < n)%Z).
    { unfold Qlt in Hq. cbn in Hq. lia. }
    pose proof (Z.log2_spec n Hn) as [_ Hln].
    pose proof (Z.log2_spec (Zpos d) (Pos2Z.is_pos d)) as [Hld _].
    pose proof (Z.log2_nonneg n) as H0n.
    pose proof (Z.log2_nonneg (Zpos d)) as H0d.
    replace (Z.log2 n - Z.log2 (Zpos d) + 1)%Z
      with (Z.succ (Z.log2 n) - Z.log2 (Zpos d))%Z by lia.
    unfold pow2. rewrite Qpower_minus by discriminate.
    fold (pow2 (Z.succ (Z.log2 n))) (pow2 (Z.log2 (Zpos d))).
    rewrite (pow2_Z (Z.le_le_succ_r _ _ H0n)), (pow2_Z H0d).
    set (A := (2 ^ Z.succ (Z.log2 n))%Z) in *. set (B := (2 ^ Z.log2 (Zpos d))%Z) in *.
    assert (HB : (0 < B)%Z) by (apply Z.pow_pos_nonneg; lia).
    apply Qlt_shift_div_l.
    + change 0 with (inject_Z 0). rewrite <- Zlt_Qlt. exact HB.
    + unfold Qlt. cbn [Qnum Qden inject_Z Qmult]. nia.
  - replace (Z.log2 (Qnum q) - Z.log2 (Zpos (Qden q)) - 1 + 1)%Z
      with (Z.log2 (Qnum q) - Z.log2 (Zpos (Qden q)))%Z by lia.
    apply Qnot_le_lt. intros H. apply Qle_bool_iff in H. congruence.
Qed.

(** The nearest integer is at most one half away. *)
Lemma round_half_even_near (x : Q) : Qabs (inject_Z (round_half_even x) - x) <= 1 # 2.
Proof.
  pose proof (Qfloor_le x) as Hlo. pose proof (Qlt_floor x) as Hhi.
  rewrite inject_Z_plus in Hhi. change (inject_Z 1) with 1 in Hhi.
  apply Qabs_Qle_condition. unfold round_half_even. cbv zeta.
  destruct (Qcompare (x - inject_Z (Qfloor x)) (1 # 2)) eqn:C.
  - apply Qeq_alt in C.
    destruct (Z.even (Qfloor x)); [|rewrite inject_Z_plus; change (inject_Z 1) with 1];
      split; lra.
  - apply Qlt_alt in C. split; lra.
  - apply Qgt_alt in C. rewrite inject_Z_plus. change (inject_Z 1) with 1. split; lra.
Qed.

(** The nearest float of a positive number: an integer of at most 53 bits
    times a power of two, at most half a unit of the last of the 53 bits
    away. *)
Lemma nearest53_float (q : Q) :
  0 < q ->
  exists m : Z, nearest53 q == inject_Z m * pow2 (ilog2 q - 52)
    /\ (2 ^ 52 <= m <= 2 ^ 53)%Z
    /\ Qabs (nearest53 q - q) <= pow2 (ilog2 q - 53).
Proof.
  intros Hq. unfold nearest53. cbv zeta.
  set (e := (ilog2 q - 52)%Z). set (x := q * pow2 (- e)).
  exists (round_half_even x). split; [reflexivity|].
  assert (Hx : x * pow2 e == q).
  { unfold x. rewrite <- Qmult_assoc, pow2_inv. apply Qmult_1_r. }
  assert (Hlo : inject_Z (2 ^ 52) <= x).
  { rewrite <- (@pow2_Z 52) by lia.
    assert (E : pow2 52 == pow2 (ilog2 q) * pow2 (- e)).
    { unfold pow2. rewrite <- Qpower_plus by discriminate.
      replace (ilog2 q + - e)%Z with 52%Z by (unfold e; lia). reflexivity. }
    rewrite E. apply Qmult_le_compat_r; [now apply ilog2_le|apply Qlt_le_weak, pow2_pos]. }
  assert (Hhi : x <= inject_Z (2 ^ 53)).
  { rewrite <- (@pow2_Z 53) by lia.
    assert (E : pow2 53 == pow2 (ilog2 q + 1) * pow2 (- e)).
    { unfold pow2. rewrite <- Qpower_plus by discriminate.
      replace (ilog2 q + 1 + - e)%Z with 53%Z by (unfold e; lia). reflexivity. }
    rewrite E. apply Qmult_le_compat_r; [|apply Qlt_le_weak, pow2_pos].
    now apply Qlt_le_weak, ilog2_gt. }
  split; [split; [now apply round_half_even_ge|now apply round_half_even_le]|].
  assert (E : inject_Z (round_half_even x) * pow2 e - q
              == (inject_Z (round_half_even x) - x) * pow2 e).
  { rewrite <- Hx at 1. ring. }
  rewrite E, Qabs_Qmult, (Qabs_pos (pow2 e)) by apply Qlt_le_weak, pow2_pos.
  assert (Eh : pow2 (ilog2 q - 53) == (1 # 2) * pow2 e).
  { unfold pow2. replace (ilog2 q - 53)%Z with (-1 + e)%Z by (unfold e; lia).
    rewrite Qpower_plus by discriminate. reflexivity. }
  rewrite Eh. apply Qmult_le_compat_r; [apply round_half_even_near|].
  apply Qlt_le_weak, pow2_pos.
Qed.

Lemma b64_float (q : Q) :
  0 < q ->
  exists m : Z, b64 q == inject_Z m * pow2 (ilog2 q - 52)
    /\ (2 ^ 52 <= m <= 2 ^ 53)%Z
    /\ Qabs (b64 q - q) <= pow2 (ilog2 q - 53).
Proof.
  intros Hq. destruct (nearest53_float Hq) as (m & E & Hm & Hd).
  assert (Eb : b64 q == nearest53 q).
  { unfold b64. destruct (Qcompare q 0) eqn:C.
    - apply Qeq_alt in C. rewrite C in Hq. discriminate Hq.
    - apply Qlt_alt in C. exfalso. exact (Qlt_irrefl _ (Qlt_trans _ _ _ Hq C)).
    - apply Qred_correct. }
  exists m. rewrite Eb. auto.
Qed.

End Binary64.

Section RoundedBounds.

Lemma pow10_pos (n : nat) : (0 < 10 ^ Z.of_nat n)%Z.
Proof. apply Z.pow_pos_nonneg; lia. Qed.

(** Rounding does not cross a whole number that is a float. *)
Lemma pyround_ge (q : Q) (n : nat) (a : Z) :
  (0 <= a)%Z -> (a < 2 ^ 53)%Z -> Qle (inject_Z a) q -> Qle (inject_Z a) (pyround q n).
Proof.
  intros H0 H53 Ha. pose proof (b64_ge H0 H53 Ha) as Fa.
  unfold pyround. cbv zeta.
  pose proof (pow10_pos n) as Hs.
  set (scale := (10 ^ Z.of_nat n)%Z) in *.
  assert (Hp : Qle 0 (inject_Z scale)).
  { change 0%Q with (inject_Z 0). rewrite <- Zle_Qle. lia. }
  assert (Hqa : Qle (inject_Z (a * scale)) (Qmult (b64 q) (inject_Z scale))).
  { rewrite inject_Z_mult. now apply Qmult_le_compat_r. }
  apply round_half_even_ge in Hqa.
  rewrite Qred_correct. unfold Qle. cbn [Qnum Qden inject_Z].
  rewrite Z2Pos.id by exact Hs. lia.
Qed.

Lemma pyround_le (q : Q) (n : nat) (b : Z) :
  Qle 0 q -> (b < 2 ^ 53)%Z -> Qle q (inject_Z b) -> Qle (pyround q n) (inject_Z b).
Proof.
  intros H0 H53 Hb. pose proof (b64_le H0 H53 Hb) as Fb.
  unfold pyround. cbv zeta.
  pose proof (pow10_pos n) as Hs.
  set (scale := (10 ^ Z.of_nat n)%Z) in *.
  assert (Hp : Qle 0 (inject_Z scale)).
  { change 0%Q with (inject_Z 0). rewrite <- Zle_Qle. lia. }
  assert (Hqb : Qle (Qmult (b64 q) (inject_Z scale)) (inject_Z (b * scale))).
  { rewrite inject_Z_mult. now apply Qmult_le_compat_r. }
  apply round_half_even_le in Hqb.
  rewrite Qred_correct. unfold Qle. cbn [Qnum Qden inject_Z].
  rewrite Z2Pos.id by exact Hs. lia.
Qed.

Lemma pyround_range (q : Q) (n : nat) :
  Qle 0 q -> Qle q 1 -> Qle 0 (pyround q n) /\ Qle (pyround q n) 1.
Proof.
  intros H0 H1. split.
  - apply (@pyround_ge q n 0); [lia|reflexivity|exact H0].
  - apply (@pyround_le q n 1); [exact H0|reflexivity|exact H1].
Qed.

End RoundedBounds.

Section ReportRanges.
Context {U : UnicodeDB}.
Import Analyzer.

(** X10: every similarity of the report lies between 0 and 1. *)
Theorem X10_similarity_range (w : world) (r : report) :
  main w = Ok r ->
  Forall (fun e => Qle 0 (similarity e) /\ Qle (similarity e) 1) (document_similarity r).
Proof.
  unfold main, build_report.
  destruct (loop start (load_docs w (sorted (processed_files w)))) as [t|e];
    cbn [bind]; [|discriminate].
  intros H. injection H as <-. cbn [document_similarity].
  apply Forall_forall. intros e He. apply in_map_iff in He.
  destruct He as (pr & <- & _). cbn [similarity].
  apply pyround_range; apply jaccard_range.
Qed.

End ReportRanges.

Lemma X10_similarity_range_example :
  exists r, Analyzer.main world_three_files = Ok r
    /\ Forall (fun e => Qle 0 (Analyzer.similarity e) /\ Qle (Analyzer.similarity e) 1)
              (Analyzer.document_similarity r).
Proof.
  destruct (Analyzer.main world_three_files) as [r|e] eqn:E;
    [|vm_compute in E; discriminate E].
  exists r. split; [reflexivity|].
  exact (X10_similarity_range (U := table) world_three_files E).
Defined.

(* ================================================================== *)
(** * The n-grams of a token list *)
(* ================================================================== *)

Section Windows.
Import Analyzer.
Variable A : Type.

Lemma skipn_S_tl (k : nat) (l : list A) : skipn (S k) l = tl (skipn k l).
Proof.
  revert l. induction k as [|k IH]; intros [|x l]; try reflexivity.
  change (skipn (S (S k)) (x :: l)) with (skipn (S k) l).
  change (skipn (S k) (x :: l)) with (skipn k l). apply IH.
Qed.

Lemma heads_islice (l : list A) (m k : nat) :
  heads (map (islice l) (seq k m))
  = if m <=? length (skipn k l) then Some (firstn m (skipn k l)) else None.
Proof.
  revert k. induction m as [|m IH]; intros k; [reflexivity|].
  cbn [seq map heads]. unfold islice at 1.
  rewrite IH, skipn_S_tl.
  destruct (skipn k l) as [|y r]; [reflexivity|].
  cbn [tl length firstn]. change (S m <=? S (length r)) with (m <=? length r).
  destruct (m <=? length r); reflexivity.
Qed.

Lemma tl_islice (l : list A) (m k : nat) :
  map (@tl A) (map (islice l) (seq k m)) = map (islice l) (seq (S k) m).
Proof.
  rewrite map_map, <- seq_shift, map_map. apply map_ext.
  intros j. unfold islice. symmetry. apply skipn_S_tl.
Qed.

Lemma zip_islice (m : nat) (l : list A) :
  zip l (map (islice l) (seq 1 m))
  = map (fun i => firstn (S m) (skipn i l)) (seq 0 (S (length l) - S m)).
Proof.
  induction l as [|x l IH]; [reflexivity|].
  cbn [zip]. rewrite heads_islice, tl_islice.
  change (skipn 1 (x :: l)) with l.
  assert (Hshift : map (islice (x :: l)) (seq 2 m) = map (islice l) (seq 1 m)).
  { rewrite <- seq_shift, map_map. reflexivity. }
  rewrite Hshift, IH.
  destruct (m <=? length l) eqn:E.
  - apply Nat.leb_le in E.
    replace (S (length (x :: l)) - S m) with (S (S (length l) - S m))
      by (cbn [length]; lia).
    cbn [seq map]. f_equal.
    rewrite <- seq_shift, map_map. reflexivity.
  - apply Nat.leb_gt in E.
    replace (S (length (x :: l)) - S m) with 0 by (cbn [length]; lia).
    reflexivity.
Qed.

(** X12: for [n > 0] the n-grams of a token list are its windows of [n]
    consecutive tokens, one for each start position, in order: there are
    [len + 1 - n] of them (none when the list has fewer than [n] tokens)
    and the one at position [i] holds the tokens [i .. i + n - 1]. *)
Theorem X12_ngrams_windows (tokens : list A) (n : nat) :
  0 < n ->
  ngrams tokens n
  = map (fun i => firstn n (skipn i tokens)) (seq 0 (S (length tokens) - n)).
Proof.
  destruct n as [|m]; [lia|]. intros _. unfold ngrams.
  change (islice tokens 0) with tokens. apply zip_islice.
Qed.

End Windows.

Lemma X12_ngrams_windows_example :
  Analyzer.ngrams [1; 2; 3; 4] 3 = [[1; 2; 3]; [2; 3; 4]].
Proof. exact (@X12_ngrams_windows nat [1; 2; 3; 4] 3 (Nat.lt_0_succ 2)). Defined.

(* ================================================================== *)
(** * The tokens of a text *)
(* ================================================================== *)

Section Tokens.
Context {U : UnicodeDB}.
Import Re.

(** A token: not empty, and of word characters only. *)
Definition token_of (w : cp -> bool) (t : str) : Prop := t <> [] /\ forallb w t = true.

Lemma span_firstn (w : cp -> bool) (s : str) : forallb w (firstn (span w s) s) = true.
Proof.
  induction s as [|c s IH]; [reflexivity|]. cbn [span].
  destruct (w c) eqn:Hc; [|reflexivity]. cbn [firstn forallb]. now rewrite Hc.
Qed.

Lemma filter_forallb (w : cp -> bool) (s : str) : forallb w s = true -> filter w s = s.
Proof.
  intros H. apply filter_all. intros x Hx.
  rewrite forallb_forall in H. now apply H.
Qed.

Lemma filter_span (w : cp -> bool) (s : str) :
  filter w s = firstn (span w s) s ++ filter w (skipn (span w s) s).
Proof.
  rewrite <- (firstn_skipn (span w s) s) at 1.
  rewrite filter_app, (filter_forallb _ _ (span_firstn w s)). reflexivity.
Qed.

Lemma findall_word_tokens (w : cp -> bool) (s : str) :
  (forall prev,
     Forall (token_of w) (findall_from (RE_word_of w) 0 prev s)
     /\ concat (findall_from (RE_word_of w) 0 prev s)
        = filter w (if wordness w prev then skipn (span w s) s else s))
  /\ (forall prev, wordness w prev = true ->
        Forall (token_of w) (findall_from (RE_word_of w) (span w s) prev s)
        /\ concat (findall_from (RE_word_of w) (span w s) prev s)
           = filter w (skipn (span w s) s)).
Proof.
  induction s as [|c s [IHa IHb]].
  - split; intros prev; [|intros _]; (split; [constructor|]); cbn [findall_from concat].
    + destruct (wordness w prev); reflexivity.
    + reflexivity.
  - assert (A : forall prev,
      Forall (token_of w) (findall_from (RE_word_of w) 0 prev (c :: s))
      /\ concat (findall_from (RE_word_of w) 0 prev (c :: s))
         = filter w (if wordness w prev then skipn (span w (c :: s)) (c :: s) else c :: s)).
    { intros prev. cbn [findall_from]. rewrite match_at_word.
      destruct (w c && negb (wordness w prev))%bool eqn:E.
      - apply andb_true_iff in E. destruct E as [Hc Hp].
        apply negb_true_iff in Hp. rewrite Hp.
        destruct (IHb (Some c) Hc) as [Hall Hcat]. split.
        + constructor; [|exact Hall]. split; [discriminate|].
          cbn [firstn forallb]. rewrite Hc. apply span_firstn.
        + cbn [concat firstn filter]. rewrite Hc, Hcat.
          cbn [app]. f_equal. symmetry. apply filter_span.
      - destruct (IHa (Some c)) as [Hall Hcat]. split; [exact Hall|].
        rewrite Hcat. cbn [wordness span].
        destruct (w c) eqn:Hc.
        + cbn [andb] in E. apply negb_false_iff in E. rewrite E. reflexivity.
        + assert (Hf : filter w (c :: s) = filter w s)
            by (cbn [filter]; now rewrite Hc).
          cbn [skipn]. destruct (wordness w prev); symmetry; exact Hf. }
    split; [exact A|].
    intros prev Hp. cbn [span]. destruct (w c) eqn:Hc.
    + cbn [findall_from skipn]. now apply IHb.
    + pose proof (A prev) as HA. rewrite Hp in HA. cbn [span] in HA.
      rewrite Hc in HA. exact HA.
Qed.

(** X13: the words of a text (the processor's, and the analyzer's on the
    lower-cased text) are runs of word characters: no word is empty, a
    word holds word characters only (letters, digits, underscore), and the
    words one after the other are the word characters of the text in their
    order, none lost and none added. *)
Theorem X13_tokens_are_words (text : str) :
  (Forall (token_of is_word) (Processor.tokenize_words text)
   /\ concat (Processor.tokenize_words text) = filter is_word text)
  /\ (Forall (token_of is_word) (Analyzer.tokenize_lower text)
      /\ concat (Analyzer.tokenize_lower text) = filter is_word (uc_lower text)).
Proof.
  split.
  - exact (proj1 (findall_word_tokens is_word text) None).
  - exact (proj1 (findall_word_tokens is_word (uc_lower text)) None).
Qed.

End Tokens.

(* ================================================================== *)
(** * The sentences of a text *)
(* ================================================================== *)

Section Sentences.
Context {U : UnicodeDB}.
Import Re.

Lemma match_len_plus (p : cp -> bool) (prev : option cp) (c : cp) (s : str) :
  match_len (Plus p) prev (c :: s) = if p c then Some (S (span p s)) else None.
Proof.
  unfold match_len, match_at, Plus. cbn [exec].
  destruct (p c); [|reflexivity].
  rewrite rep_greedy_accept. cbn [option_map fst length].
  rewrite length_skipn. pose proof (span_le p s). f_equal. lia.
Qed.

Definition without (p : cp -> bool) (t : str) : bool := forallb (fun c => negb (p c)) t.

Lemma push_without (p : cp -> bool) (c : cp) (l : list str) :
  p c = false -> Forall (fun t => without p t = true) l ->
  Forall (fun t => without p t = true) (push c l).
Proof.
  intros Hc [|t l' Ht Hl]; cbn [push]; constructor; auto.
  - unfold without. cbn [forallb]. now rewrite Hc.
  - unfold without in *. cbn [forallb]. now rewrite Hc.
Qed.

Lemma push_concat (c : cp) (l : list str) : concat (push c l) = c :: concat l.
Proof. destruct l; reflexivity. Qed.

Lemma split_plus (p : cp -> bool) (s : str) :
  (forall prev,
     Forall (fun t => without p t = true) (split_from (Plus p) 0 prev s)
     /\ concat (split_from (Plus p) 0 prev s) = filter (fun c => negb (p c)) s)
  /\ (forall prev,
        Forall (fun t => without p t = true) (split_from (Plus p) (span p s) prev s)
        /\ concat (split_from (Plus p) (span p s) prev s) = filter (fun c => negb (p c)) s).
Proof.
  induction s as [|c s [IHa IHb]].
  - split; intros prev; (split; [repeat constructor|reflexivity]).
  - assert (A : forall prev,
      Forall (fun t => without p t = true) (split_from (Plus p) 0 prev (c :: s))
      /\ concat (split_from (Plus p) 0 prev (c :: s)) = filter (fun c => negb (p c)) (c :: s)).
    { intros prev. cbn [split_from filter]. rewrite match_len_plus.
      destruct (p c) eqn:Hc; cbn [negb].
      - destruct (IHb (Some c)) as [Hall Hcat]. split.
        + constructor; [reflexivity|exact Hall].
        + cbn [concat app]. exact Hcat.
      - destruct (IHa (Some c)) as [Hall Hcat]. split.
        + now apply push_without.
        + rewrite push_concat. now f_equal. }
    split; [exact A|].
    intros prev. cbn [span]. destruct (p c) eqn:Hc.
    + cbn [split_from filter]. rewrite Hc. cbn [negb]. apply IHb.
    + apply A.
Qed.

Lemma whitespace_invisible (t : str) : Spec.whitespace_only t -> filter visible t = [].
Proof.
  intros H. apply filter_none. intros c Hc. unfold visible.
  unfold Spec.whitespace_only in H. rewrite Forall_forall in H.
  now rewrite (H c Hc).
Qed.

Lemma strip_visible (s : str) : filter visible (strip s) = filter visible s.
Proof.
  destruct (strip_infix s) as (pre & post & E & W1 & W2).
  rewrite E at 2. rewrite !filter_app, (whitespace_invisible W1), (whitespace_invisible W2).
  now rewrite app_nil_r.
Qed.

Lemma strip_without (p : cp -> bool) (s : str) : without p s = true -> without p (strip s) = true.
Proof.
  destruct (strip_infix s) as (pre & post & E & _). intros H.
  rewrite E in H. unfold without in *. rewrite !forallb_app in H.
  apply andb_true_iff in H. destruct H as [_ H].
  apply andb_true_iff in H. tauto.
Qed.

Definition stop : cp -> bool := one_of (cps ".!?").

(** The sentences cut from the pieces of a split. *)
Definition sentences_of (parts : list str) : list str := map strip (filter Processor.nonblank parts).

Lemma sentences_of_visible (parts : list str) :
  filter visible (concat (sentences_of parts)) = filter visible (concat parts).
Proof.
  unfold sentences_of. induction parts as [|t parts IH]; [reflexivity|].
  cbn [filter concat]. rewrite filter_app.
  destruct (Processor.nonblank t) eqn:E.
  - cbn [map concat]. rewrite filter_app, strip_visible, IH. reflexivity.
  - apply nonblank_false in E. rewrite (whitespace_invisible E), IH. reflexivity.
Qed.

Lemma sentences_of_shape (parts : list str) :
  Forall (fun t => without stop t = true) parts ->
  Forall (fun t => t <> [] /\ Spec.trimmed t /\ without stop t = true) (sentences_of parts).
Proof.
  unfold sentences_of. induction 1 as [|t parts Ht _ IH]; [constructor|].
  cbn [filter]. destruct (Processor.nonblank t) eqn:E; [|exact IH].
  cbn [map]. constructor; [|exact IH].
  split; [|split].
  - unfold Processor.nonblank in E. destruct (strip t); [discriminate|discriminate].
  - apply strip_trimmed.
  - now apply strip_without.
Qed.

(** X14: a sentence returned by the processor's [split_sentences] (and by
    the analyzer's [sentences_in_text], which is the same function) is not
    empty, has no white space at either end and holds none of [.], [!] and
    [?]; and the sentences keep, in order, every character of the text
    that is neither white space nor one of the three marks. *)
Theorem X14_sentences (text : str) :
  Forall (fun t => t <> [] /\ Spec.trimmed t /\ without stop t = true)
         (Processor.split_sentences text)
  /\ filter visible (concat (Processor.split_sentences text))
     = filter visible (filter (fun c => negb (stop c)) text)
  /\ Analyzer.sentences_in_text text = Processor.split_sentences text.
Proof.
  destruct (proj1 (split_plus stop text) None) as [Hall Hcat].
  split; [|split].
  - apply sentences_of_shape. exact Hall.
  - unfold Processor.split_sentences. cbv zeta.
    change (filter visible (concat (sentences_of (split Processor.RE_stop text)))
            = filter visible (filter (fun c => negb (stop c)) text)).
    rewrite sentences_of_visible. unfold split. f_equal. exact Hcat.
  - reflexivity.
Qed.

End Sentences.

(* ================================================================== *)
(** * The links and the images of a page *)
(* ================================================================== *)

Section Captures.
Import Re.

Fixpoint no_group (r : regex) : Prop :=
  match r with
  | Seq r1 r2 => no_group r1 /\ no_group r2
  | Opt r1 => no_group r1
  | Grp _ => False
  | _ => True
  end.

(** What a continuation returns carries a group that ends where the match
    ends and that is a stretch, not empty, of characters of [p]. *)
Definition captures (p : cp -> bool) (k : cont) : Prop :=
  forall prev s g s' g', k prev s g = Some (s', g') ->
    exists u, g' = Some (u, s') /\ taken u s' <> [] /\ forallb p (taken u s') = true.

Lemma rep_greedy_captures (p q : cp -> bool) (k : cont) :
  captures p k -> captures p (rep_greedy q k).
Proof.
  intros Hk prev s. revert prev.
  induction s as [|c s IH]; intros prev g s' g'; cbn [rep_greedy]; [apply Hk|].
  destruct (q c); [|apply Hk].
  destruct (rep_greedy q k (Some c) s g) as [[s1 g1]|] eqn:E; [|apply Hk].
  intros H. injection H as <- <-. exact (IH _ _ _ _ E).
Qed.

Lemma rep_lazy_captures (p q : cp -> bool) (k : cont) :
  captures p k -> captures p (rep_lazy q k).
Proof.
  intros Hk prev s. revert prev.
  induction s as [|c s IH]; intros prev g s' g'; cbn [rep_lazy].
  - destruct (k prev [] g) as [[s1 g1]|] eqn:E; [|discriminate].
    intros H. injection H as <- <-. exact (Hk _ _ _ _ _ E).
  - destruct (k prev (c :: s) g) as [[s1 g1]|] eqn:E.
    + intros H. injection H as <- <-. exact (Hk _ _ _ _ _ E).
    + destruct (q c); [apply IH|discriminate].
Qed.

Lemma exec_captures (p : cp -> bool) (r : regex) :
  no_group r -> forall k, captures p k -> captures p (exec r k).
Proof.
  induction r as [|q|r1 IH1 r2 IH2|r1 IH1|q|q|w| |r1 IH1]; intros Hr k Hk; cbn [exec].
  - exact Hk.
  - intros prev [|c s] g s' g'; [discriminate|]. destruct (q c); [apply Hk|discriminate].
  - destruct Hr as [H1 H2]. fold (exec r1) (exec r2). apply IH1; [exact H1|]. now apply IH2.
  - intros prev s g s' g'. simpl in Hr.
    destruct (exec r1 k prev s g) as [[s1 g1]|] eqn:E; [|apply Hk].
    intros H. injection H as <- <-. exact (IH1 Hr k Hk _ _ _ _ _ E).
  - now apply rep_greedy_captures.
  - now apply rep_lazy_captures.
  - intros prev s g s' g'. destruct (at_boundary w prev s); [apply Hk|discriminate].
  - intros prev [|c [|d s]] g s' g'; [apply Hk| |discriminate].
    destruct (N.eqb c NL); [apply Hk|discriminate].
  - destruct Hr.
Qed.

Lemma rep_greedy_group (p : cp -> bool) (u s : str) :
  forall prev g,
    rep_greedy p (fun prev' s' _ => accept prev' s' (Some (u, s'))) prev s g
    = Some (skipn (span p s) s, Some (u, skipn (span p s) s)).
Proof.
  induction s as [|c s IH]; intros prev g; cbn [rep_greedy span]; [reflexivity|].
  destruct (p c); [now rewrite IH|reflexivity].
Qed.

Lemma group_captures (p : cp -> bool) : captures p (exec (Grp (Plus p)) accept).
Proof.
  intros prev s g s' g'. unfold Plus. cbn [exec].
  destruct s as [|c s]; [discriminate|].
  destruct (p c) eqn:Hc; [|discriminate].
  rewrite rep_greedy_group. intros H. injection H as <- <-.
  exists (c :: s). split; [reflexivity|].
  unfold taken. rewrite length_skipn. cbn [length].
  pose proof (span_le p s) as Hle.
  replace (S (length s) - (length s - span p s)) with (S (span p s)) by lia.
  cbn [firstn forallb]. split; [discriminate|].
  rewrite Hc. apply span_firstn.
Qed.

Lemma match_at_captures (p : cp -> bool) (r : regex) (prev : option cp) (s : str)
    (n : nat) (g : option str) :
  no_group r ->
  match_at (Seq r (Grp (Plus p))) prev s = Some (n, g) ->
  exists t, g = Some t /\ t <> [] /\ forallb p t = true.
Proof.
  intros Hr. unfold match_at.
  change (exec (Seq r (Grp (Plus p))) accept prev s None)
    with (exec r (exec (Grp (Plus p)) accept) prev s None).
  destruct (exec r (exec (Grp (Plus p)) accept) prev s None) as [[s' g']|] eqn:E;
    [|discriminate].
  destruct (@exec_captures p r Hr _ (group_captures p) _ _ _ _ _ E)
    as (u & -> & Hne & Hall).
  intros H. injection H as _ <-. cbn [option_map fst snd]. eauto.
Qed.

Lemma findall_from_Forall (P : str -> Prop) (r : regex) :
  (forall prev s n g, match_at r prev s = Some (n, g) -> exists t, g = Some t /\ P t) ->
  forall s skip prev, Forall P (findall_from r skip prev s).
Proof.
  intros Hr. induction s as [|c s IH]; intros skip prev; cbn [findall_from]; [constructor|].
  destruct skip as [|k]; [|apply IH].
  destruct (match_at r prev (c :: s)) as [[[|n] g]|] eqn:E; try apply IH.
  destruct (Hr _ _ _ _ E) as (t & -> & Ht). constructor; [exact Ht|apply IH].
Qed.

End Captures.

Section Links.
Context {U : UnicodeDB}.
Import Processor.

Lemma Lit_no_group (eq : cp -> cp -> bool) (l : str) : no_group (Re.Lit eq l).
Proof. induction l; simpl; auto. Qed.

(** What can stand in a link: no quote, no space, no ">". *)
Definition address (t : str) : Prop :=
  t <> [] /\ forallb (none_of (QUOTES ++ [SP; GT])) t = true.

Lemma findall_addresses (l : string) (s : str) :
  Forall address
    (Re.findall (Re.Seq (ci l) (Re.Seq (Re.Opt (Re.Chr (one_of QUOTES)))
                   (Re.Grp (Re.Plus (none_of (QUOTES ++ [SP; GT])))))) s).
Proof.
  apply findall_from_Forall. intros prev s0 n g H.
  assert (Hm : Re.match_at
                 (Re.Seq (Re.Seq (ci l) (Re.Opt (Re.Chr (one_of QUOTES))))
                         (Re.Grp (Re.Plus (none_of (QUOTES ++ [SP; GT]))))) prev s0
               = Some (n, g)) by exact H.
  apply match_at_captures in Hm; [exact Hm|].
  split; [apply Lit_no_group|exact I].
Qed.

(** X16: a link and an image address that [strip_html] returns is never
    empty and holds no single quote, no double quote, no space and no ">". *)
Theorem X16_links_and_images (html : str) :
  Forall address (snd (fst (strip_html html)))
  /\ Forall address (snd (strip_html html)).
Proof. split; apply findall_addresses. Qed.

End Links.

(* ================================================================== *)
(** * The white space of the extracted text *)
(* ================================================================== *)

Section Replaced.
Import Re.

Lemma match_len_chr (p : cp -> bool) (prev : option cp) (c : cp) (s : str) :
  match_len (Chr p) prev (c :: s) = if p c then Some 1 else None.
Proof.
  unfold match_len, match_at. cbn [exec]. destruct (p c); [|reflexivity].
  cbn [accept option_map fst length]. f_equal. lia.
Qed.

(** A substitution for one character of a class leaves no character of
    the class that the replacement does not bring. *)
Lemma sub_chr_clean (p : cp -> bool) (B : cp -> Prop) (repl s : str) :
  (forall x, B x -> p x = true) -> Forall (fun x => ~ B x) repl ->
  forall prev, Forall (fun x => ~ B x) (sub_from (Chr p) repl 0 prev s).
Proof.
  intros HB Hrepl. induction s as [|c s IH]; intros prev; cbn [sub_from]; [constructor|].
  rewrite match_len_chr. destruct (p c) eqn:Hc.
  - apply Forall_app. split; [exact Hrepl|apply IH].
  - constructor; [|apply IH]. intros Hb. apply HB in Hb. congruence.
Qed.

(** The same for a substitution for the runs of a class. *)
Lemma sub_plus_clean (p : cp -> bool) (B : cp -> Prop) (repl s : str) :
  (forall x, B x -> p x = true) -> Forall (fun x => ~ B x) repl ->
  (forall prev, Forall (fun x => ~ B x) (sub_from (Plus p) repl 0 prev s))
  /\ (forall prev, Forall (fun x => ~ B x) (sub_from (Plus p) repl (span p s) prev s)).
Proof.
  intros HB Hrepl. induction s as [|c s [IHa IHb]].
  - split; intros prev; constructor.
  - assert (A : forall prev, Forall (fun x => ~ B x) (sub_from (Plus p) repl 0 prev (c :: s))).
    { intros prev. cbn [sub_from]. rewrite match_len_plus. destruct (p c) eqn:Hc.
      - apply Forall_app. split; [exact Hrepl|apply IHb].
      - constructor; [|apply IHa]. intros Hb. apply HB in Hb. congruence. }
    split; [exact A|].
    intros prev. cbn [span]. destruct (p c); [cbn [sub_from]; apply IHb|apply A].
Qed.

(** What holds of the text and of the replacement holds of the result. *)
Lemma sub_keeps (Q : cp -> Prop) (r : regex) (repl s : str) :
  Forall Q repl -> Forall Q s -> Forall Q (sub r repl s).
Proof.
  rewrite !Forall_forall. intros Hrepl Hs x Hx.
  apply sub_from_In in Hx. destruct Hx; auto.
Qed.

End Replaced.

Section WhiteSpace.
Context {U : UnicodeDB}.
Import Processor.

Lemma strip_keeps (Q : cp -> Prop) (s : str) : Forall Q s -> Forall Q (strip s).
Proof.
  destruct (strip_infix s) as (pre & post & E & _). intros H.
  rewrite E in H. apply Forall_app in H. destruct H as [_ H].
  apply Forall_app in H. tauto.
Qed.

Lemma join_keeps (Q : cp -> Prop) (ls : list str) :
  Q NL -> Forall (Forall Q) ls -> Forall Q (join [NL] ls).
Proof.
  intros HQ. induction 1 as [|l ls Hl Hls IH]; [constructor|].
  destruct ls as [|m ls]; [exact Hl|].
  rewrite join_cons by discriminate.
  apply Forall_app. split; [exact Hl|]. constructor; [exact HQ|exact IH].
Qed.

Lemma split_char_keeps (Q : cp -> Prop) (sep : cp) (s : str) :
  Forall Q s -> Forall (Forall Q) (split_char sep s).
Proof.
  induction 1 as [|c s Hc Hs IH]; cbn [split_char]; [repeat constructor|].
  destruct (N.eqb c sep); [constructor; [constructor|exact IH]|].
  destruct IH as [|l ls Hl Hls]; cbn [Re.push]; repeat constructor; auto.
Qed.

Lemma trim_lines_keeps (Q : cp -> Prop) (s : str) :
  Q NL -> Forall Q s -> Forall Q (join [NL] (map strip (split_char NL s))).
Proof.
  intros HQ Hs. apply join_keeps; [exact HQ|].
  apply Forall_map. eapply Forall_impl; [|apply split_char_keeps; exact Hs].
  intros l. apply strip_keeps.
Qed.

(** The characters that the normalization of white space takes away. *)
Definition unwanted (c : cp) : Prop := c = CR \/ c = TAB \/ c = FF \/ c = VT.

(** X15: the text that [strip_html] extracts holds no carriage return, no
    tab, no form feed and no vertical tab, whatever the page: each of them
    has become a newline or a space, or has been trimmed away. *)
Theorem X15_no_control_white_space (html : str) :
  Forall (fun c => ~ unwanted c) (Spec.extracted html).
Proof.
  rewrite extracted_normalized. apply strip_keeps. unfold normalized.
  set (t0 := untagged html).
  assert (H1 : Forall (fun c => ~ c = CR) (Re.sub RE_cr [NL] t0)).
  { unfold Re.sub, RE_cr. apply sub_chr_clean.
    - intros x ->. reflexivity.
    - repeat constructor. discriminate. }
  set (t1 := Re.sub RE_cr [NL] t0) in *.
  assert (H2 : Forall (fun c => ~ c = CR) (Re.sub RE_nl2 [NL; NL] t1)).
  { apply sub_keeps; [|exact H1]. repeat constructor; discriminate. }
  set (t2 := Re.sub RE_nl2 [NL; NL] t1) in *.
  assert (H3 : Forall (fun c => ~ unwanted c) (Re.sub RE_blanks [SP] t2)).
  { assert (Ha : Forall (fun c => ~ c = CR) (Re.sub RE_blanks [SP] t2)).
    { apply sub_keeps; [|exact H2]. repeat constructor; discriminate. }
    assert (Hb : Forall (fun c => ~ (c = TAB \/ c = FF \/ c = VT)) (Re.sub RE_blanks [SP] t2)).
    { unfold Re.sub, RE_blanks.
      apply (proj1 (@sub_plus_clean (one_of [SP; TAB; FF; VT])
                      (fun c => c = TAB \/ c = FF \/ c = VT) [SP] t2
                      ltac:(intros x [->|[->| ->]]; reflexivity)
                      ltac:(repeat constructor; intros [H|[H|H]]; discriminate H))). }
    rewrite Forall_forall in *. intros x Hx [Hc|Hc].
    - exact (Ha x Hx Hc).
    - exact (Hb x Hx Hc). }
  set (t3 := Re.sub RE_blanks [SP] t2) in *.
  apply sub_keeps.
  - repeat constructor; intros [H|[H|[H|H]]]; discriminate H.
  - apply trim_lines_keeps; [|exact H3].
    intros [H|[H|[H|H]]]; discriminate H.
Qed.

End WhiteSpace.

(* ================================================================== *)
(** * The statistics of a record *)
(* ================================================================== *)

Section RecordStatistics.
Context {U : UnicodeDB}.
Import Processor.

Lemma runs_bound (l : list bool) :
  forall inside, 2 * runs inside l <= length l + (if inside then 0 else 1).
Proof.
  induction l as [|b l IH]; intros inside; cbn [runs length].
  - destruct inside; lia.
  - specialize (IH b). destruct b, inside; cbn [andb negb]; lia.
Qed.

Lemma tokens_lengths (ws : list str) :
  Forall (token_of is_word) ws -> length ws <= list_sum (map (@length cp) ws).
Proof.
  induction 1 as [|t ws [Hne _] _ IH]; simpl; [lia|].
  destruct t; [congruence|]. simpl. lia.
Qed.

(** [d["statistics"][key]] of a record. *)
Definition statistic (key : string) (d : json) : option json :=
  match d with
  | JObj fields =>
      match dict_get (cps "statistics") fields with
      | Some (JObj stats) => dict_get (cps key) stats
      | _ => None
      end
  | _ => None
  end.

(** X17: in the record of a file that could be read, the word count is at
    most half the length of the text, rounded up; the average word length
    is 0 when the text has no word, and otherwise is at least 1 and, for a
    text of fewer than 2^53 characters, at most the length of the text (a
    float cannot hold every whole number from 2^53 on, so that the float of
    a longer single word can be above its length). *)
Theorem X17_record_statistics (w : world) (now path : str) (out : json) :
  process_html_file w now path = inl out ->
  exists text wc avg,
    Spec.text_of out = Ok text
    /\ statistic "word_count" out = Some (JInt (Z.of_nat wc))
    /\ statistic "avg_word_length" out = Some (JFloat avg)
    /\ wc = length (tokenize_words text)
    /\ 2 * wc <= length text + 1
    /\ (wc = 0 -> avg = 0%Q)
    /\ (0 < wc ->
        Qle 1 avg
        /\ ((Z.of_nat (length text) < 2 ^ 53)%Z ->
            Qle avg (inject_Z (Z.of_nat (length text))))).
Proof.
  unfold process_html_file.
  destruct (read_bytes w path) as [raw|e]; [|discriminate]. cbn [bind].
  destruct (Utf8.decode Utf8.Ignore raw) as [html|e]; [|discriminate]. cbn [bind].
  destruct (strip_html html) as [[text links] images].
  intros H. injection H as <-.
  exists text, (length (tokenize_words text)).
  destruct (proj1 (findall_word_tokens is_word text) None) as [Htok Hcat].
  fold (Re.findall (RE_word_of is_word) text) in Htok, Hcat.
  change (Re.findall (RE_word_of is_word) text) with (tokenize_words text) in Htok, Hcat.
  pose proof (tokens_lengths Htok) as Hlow.
  assert (Hhigh : list_sum (map (@length cp) (tokenize_words text)) <= length text).
  { rewrite <- length_concat, Hcat. apply filter_length_le. }
  assert (Hcount : 2 * length (tokenize_words text) <= length text + 1).
  { rewrite tokenize_words_count.
    pose proof (runs_bound (map is_word text) false) as Hr.
    rewrite length_map in Hr. exact Hr. }
  eexists. split; [reflexivity|]. split; [reflexivity|]. split; [reflexivity|].
  split; [reflexivity|]. split; [exact Hcount|].
  unfold sum. rewrite fold_left_add. cbn [Nat.add].
  destruct (length (tokenize_words text)) as [|k] eqn:E.
  - split; [reflexivity|lia].
  - split; [discriminate|]. intros _.
    assert (Hone : Qle (inject_Z 1) (truediv (0 + list_sum (map (@length cp) (tokenize_words text))) (S k))).
    { rewrite truediv_eq by discriminate. unfold Qle. cbn [Qnum Qden inject_Z].
      rewrite pos_of_nat_Z by discriminate. lia. }
    split.
    + change 1%Q with (inject_Z 1). apply pyround_ge; [lia|reflexivity|exact Hone].
    + intros Hlen. apply pyround_le; [|exact Hlen|].
      * eapply Qle_trans; [|exact Hone]. discriminate.
      * rewrite truediv_eq by discriminate. unfold Qle. cbn [Qnum Qden inject_Z].
        rewrite pos_of_nat_Z by discriminate. nia.
Qed.

End RecordStatistics.

Lemma X17_record_statistics_example :
  exists out,
    Processor.process_html_file (U := table) world_hello_raw
      (cps "2024-01-01T00:00:00+00:00") (cps "/shared/raw/page_1.html") = inl out
    /\ exists text wc avg,
         Spec.text_of out = Ok text
         /\ statistic "word_count" out = Some (JInt (Z.of_nat wc))
         /\ statistic "avg_word_length" out = Some (JFloat avg)
         /\ wc = length (Processor.tokenize_words (U := table) text)
         /\ 2 * wc <= length text + 1
         /\ (wc = 0 -> avg = 0%Q)
         /\ (0 < wc ->
             Qle 1 avg
             /\ ((Z.of_nat (length text) < 2 ^ 53)%Z ->
                 Qle avg (inject_Z (Z.of_nat (length text))))).
Proof.
  destruct (Processor.process_html_file (U := table) world_hello_raw
              (cps "2024-01-01T00:00:00+00:00") (cps "/shared/raw/page_1.html"))
    as [out|e] eqn:E; [|vm_compute in E; discriminate E].
  exists out. split; [reflexivity|].
  exact (X17_record_statistics (U := table) world_hello_raw _ _ E).
Defined.

(** A float cannot hold 2^53 + 3: for a text that is one word of that
    many characters the average would be 2^53 + 4. *)
Example round_above_2_53 : pyround (inject_Z (2 ^ 53 + 3)) 3 = inject_Z (2 ^ 53 + 4).
Proof. vm_compute. reflexivity. Qed.

(* ================================================================== *)
(** * The entries of the top tables *)
(* ================================================================== *)

Section TopEntries.
Context {U : UnicodeDB}.
Import Analyzer.

Lemma main_top_words (w : world) (r : report) :
  main w = Ok r ->
  top_100_words r
  = map (fun wc => {| word := fst wc; count := snd wc;
                      frequency := match total_words r with
                                   | O => 0%Q
                                   | S _ => truediv (snd wc) (total_words r)
                                   end |})
        (Spec.word_table (top_100_words r)).
Proof.
  unfold main, build_report.
  destruct (loop start (load_docs w (sorted (processed_files w)))) as [t|e];
    cbn [bind]; [|discriminate].
  intros H. injection H as <-. cbn [top_100_words total_words].
  unfold Spec.word_table. rewrite !map_map. reflexivity.
Qed.

Lemma NoDup_firstn {A : Type} (n : nat) (l : list A) : NoDup l -> NoDup (firstn n l).
Proof.
  intros H. rewrite <- (firstn_skipn n l) in H. exact (NoDup_app_remove_r _ _ H).
Qed.

Lemma most_common_keys (terms : list str) (k : nat) :
  NoDup (map fst (most_common (Spec.count_table terms) k)).
Proof.
  unfold most_common. rewrite <- firstn_map. apply NoDup_firstn.
  apply (Permutation_NoDup (l := map fst (Spec.count_table terms))).
  - apply Permutation_map, Permutation_sym, sorted_by_count_perm.
  - rewrite count_table_keys. apply distinct_NoDup.
Qed.

Lemma most_common_In (terms : list str) (k : nat) (e : str * nat) :
  In e (most_common (Spec.count_table terms) k) ->
  In (fst e) terms /\ snd e = Spec.occurrences terms (fst e).
Proof.
  unfold most_common. intros H.
  assert (Hc : In e (Spec.count_table terms)).
  { apply (Permutation_in _ (sorted_by_count_perm _)).
    rewrite <- (firstn_skipn k (sorted_by_count _)). apply in_or_app. now left. }
  unfold Spec.count_table in Hc. apply in_map_iff in Hc.
  destruct Hc as (x & <- & Hx). split; [|reflexivity].
  apply distinct_In. exact Hx.
Qed.

Lemma occurrences_range (terms : list str) (k : str) :
  In k terms -> 1 <= Spec.occurrences terms k <= length terms.
Proof.
  intros H. unfold Spec.occurrences. split; [|apply filter_length_le].
  assert (Hin : In k (filter (str_eqb k) terms)).
  { apply filter_In. split; [exact H|apply str_eqb_refl]. }
  destruct (filter (str_eqb k) terms); [contradiction|simpl; lia].
Qed.

(** X18: no term is listed twice in [top_100_words], [top_bigrams] or
    [top_trigrams]; and every entry of [top_100_words] has a count between
    1 and [total_words] and a frequency, its count over [total_words],
    above 0 and at most 1. *)
Theorem X18_top_entries (w : world) (r : report) :
  main w = Ok r ->
  NoDup (map word (top_100_words r))
  /\ NoDup (map ngram (top_bigrams r))
  /\ NoDup (map ngram (top_trigrams r))
  /\ Forall (fun e => 1 <= count e <= total_words r
                      /\ frequency e = truediv (count e) (total_words r)
                      /\ Qlt 0 (frequency e) /\ Qle (frequency e) 1)
            (top_100_words r).
Proof.
  intros H.
  destruct (main_totals w H) as (texts & Hts & _ & Htw & _).
  pose proof (main_top_words w H) as Htop.
  unfold main in H. fold (Spec.loaded w) in H.
  destruct (build_report_tables _ _ H) as (t & Ht & Hw & Hb & Htr).
  destruct (@loop_counters _ _ _ _ _ Hts Ht) as (E1 & E2 & E3).
  change (vocab_counter start) with (Spec.count_table []) in E1.
  change (bigram_counter start) with (Spec.count_table []) in E2.
  change (trigram_counter start) with (Spec.count_table []) in E3.
  rewrite update_count_table in E1, E2, E3. simpl in E1, E2, E3.
  rewrite E1 in Hw. rewrite E2 in Hb. rewrite E3 in Htr.
  assert (Hlen : total_words r = length (Spec.corpus_words texts)).
  { rewrite Htw. symmetry. apply concat_length. }
  split; [|split; [|split]].
  - replace (map word (top_100_words r)) with (map fst (Spec.word_table (top_100_words r)))
      by (unfold Spec.word_table; rewrite map_map; reflexivity).
    rewrite Hw. apply most_common_keys.
  - replace (map ngram (top_bigrams r)) with (map fst (Spec.ngram_table (top_bigrams r)))
      by (unfold Spec.ngram_table; rewrite map_map; reflexivity).
    rewrite Hb. apply most_common_keys.
  - replace (map ngram (top_trigrams r)) with (map fst (Spec.ngram_table (top_trigrams r)))
      by (unfold Spec.ngram_table; rewrite map_map; reflexivity).
    rewrite Htr. apply most_common_keys.
  - rewrite Htop, Hw. apply Forall_forall. intros e He.
    apply in_map_iff in He. destruct He as (wc & <- & Hwc).
    apply most_common_In in Hwc. destruct Hwc as [Hin Hocc].
    pose proof (occurrences_range _ _ Hin) as Hr. rewrite <- Hocc, <- Hlen in Hr.
    cbn [count frequency].
    destruct (total_words r) as [|n] eqn:En; [lia|].
    split; [exact Hr|]. split; [reflexivity|].
    rewrite truediv_eq by discriminate. unfold Qlt, Qle. cbn [Qnum Qden].
    rewrite pos_of_nat_Z by discriminate. lia.
Qed.

End TopEntries.

Lemma X18_top_entries_example :
  exists r, Analyzer.main world_three_files = Ok r
    /\ NoDup (map Analyzer.word (Analyzer.top_100_words r))
    /\ NoDup (map Analyzer.ngram (Analyzer.top_bigrams r))
    /\ NoDup (map Analyzer.ngram (Analyzer.top_trigrams r))
    /\ Forall (fun e => 1 <= Analyzer.count e <= Analyzer.total_words r
                        /\ Analyzer.frequency e
                           = truediv (Analyzer.count e) (Analyzer.total_words r)
                        /\ Qlt 0 (Analyzer.frequency e) /\ Qle (Analyzer.frequency e) 1)
              (Analyzer.top_100_words r).
Proof.
  destruct (Analyzer.main world_three_files) as [r|e] eqn:E;
    [|vm_compute in E; discriminate E].
  exists r. split; [reflexivity|].
  exact (X18_top_entries (U := table) world_three_files E).
Defined.

(* ================================================================== *)
(** * The entries of the similarity table *)
(* ================================================================== *)

Section SimilarityEntries.
Context {U : UnicodeDB}.
Import Analyzer.

Lemma step_word_list (t t' : totals) (doc : str * json) :
  step t doc = Ok t' ->
  exists text, Spec.has_text doc text
    /\ doc_word_lists t' = dict_set (fst doc) (tokenize_lower text) (doc_word_lists t).
Proof.
  destruct doc as [fname d]. unfold step, Spec.has_text, Spec.text_of. simpl.
  destruct (get_text d) as [v|e]; simpl; [|discriminate].
  destruct (as_str v) as [text|e]; simpl; [|discriminate].
  intros H. injection H as <-. exists text. simpl. auto.
Qed.

(** The loop leaves alone the words of a name it does not meet. *)
Lemma loop_preserves (docs : list (str * json)) (k : str) :
  forall t t', loop t docs = Ok t' -> ~ In k (map fst docs) ->
    dict_get k (doc_word_lists t') = dict_get k (doc_word_lists t).
Proof.
  induction docs as [|doc docs IH]; intros t t'; simpl.
  - intros H _. now injection H as <-.
  - destruct (step t doc) as [t1|e] eqn:Hs; simpl; [|discriminate].
    intros H Hk. destruct (step_word_list _ _ Hs) as (text & _ & E).
    rewrite (IH _ _ H) by tauto. rewrite E, dict_get_set.
    rewrite str_eqb_neq; [reflexivity|]. intros ->. tauto.
Qed.

(** Under names that are all different, the words kept for a document are
    the words of its text. *)
Lemma loop_lookup (docs : list (str * json)) :
  forall t t', loop t docs = Ok t' -> NoDup (map fst docs) ->
    forall d text, In d docs -> Spec.has_text d text ->
      words_of (doc_word_lists t') (fst d) = tokenize_lower text.
Proof.
  induction docs as [|doc docs IH]; intros t t'; simpl; [tauto|].
  destruct (step t doc) as [t1|e] eqn:Hs; simpl; [|discriminate].
  intros H Hnd d text Hin Ht. inversion Hnd as [|? ? Hnotin Hnd']; subst.
  destruct Hin as [->|Hin].
  - destruct (step_word_list _ _ Hs) as (text' & Ht' & E).
    unfold Spec.has_text in Ht, Ht'. assert (text' = text) as -> by congruence.
    unfold words_of. rewrite (@loop_preserves docs _ _ _ H Hnotin), E, dict_get_set_same.
    reflexivity.
  - exact (IH _ _ H Hnd' d text Hin Ht).
Qed.

Lemma combinations_related {A B C : Type} (R : A -> B -> Prop) (P : A -> Prop)
    (g : A * A -> C) (g' : B * B -> C) :
  (forall a1 b1 a2 b2, R a1 b1 -> R a2 b2 -> P a1 -> P a2 -> g (a1, a2) = g' (b1, b2)) ->
  forall la lb, Forall2 R la lb -> Forall P la ->
    map g (combinations la) = map g' (combinations lb).
Proof.
  intros Hg. induction 1 as [|a b la lb Hab Hl IH]; intros HP; [reflexivity|].
  inversion HP as [|? ? Pa Pl]; subst. cbn [combinations].
  rewrite !map_app, !map_map, (IH Pl). f_equal.
  clear IH HP. induction Hl as [|a' b' la lb Hab' _ IH]; [reflexivity|].
  inversion Pl; subst. cbn [map]. f_equal; [now apply Hg|now apply IH].
Qed.

Lemma combine_names (docs : list (str * json)) (texts : list str) :
  Forall2 Spec.has_text docs texts ->
  Forall2 (fun d p => fst p = fst d /\ Spec.has_text d (snd p))
          docs (combine (map fst docs) texts).
Proof. induction 1; simpl; constructor; auto. Qed.

(** X19: when the loaded documents have different file names,
    [document_similarity] holds one entry for every two of them, in the
    order of [combinations], with their names and the Jaccard similarity
    of the words of their two texts put through [round(., 6)], which
    rounds the float of the quotient: 1/640 is reported as 0.001563. *)
Theorem X19_similarity_entries (w : world) (r : report) (texts : list str) :
  main w = Ok r ->
  NoDup (map fst (Spec.loaded w)) ->
  Forall2 Spec.has_text (Spec.loaded w) texts ->
  document_similarity r
  = map (fun pq =>
           {| doc1 := fst (fst pq); doc2 := fst (snd pq);
              similarity := pyround (jaccard_similarity (tokenize_lower (snd (fst pq)))
                                                        (tokenize_lower (snd (snd pq)))) 6 |})
        (combinations (combine (map fst (Spec.loaded w)) texts)).
Proof.
  unfold main, build_report. fold (Spec.loaded w).
  destruct (loop start (Spec.loaded w)) as [t|e] eqn:Hl; cbn [bind]; [|discriminate].
  intros H Hnd Hts. injection H as <-. cbn [document_similarity].
  apply (@combinations_related _ _ _
           (fun d p => fst p = fst d /\ Spec.has_text d (snd p))
           (fun d => In d (Spec.loaded w))).
  - intros a1 b1 a2 b2 [E1 T1] [E2 T2] P1 P2. cbn [fst snd].
    rewrite (@loop_lookup _ _ _ Hl Hnd a1 _ P1 T1), (@loop_lookup _ _ _ Hl Hnd a2 _ P2 T2).
    rewrite E1, E2.
    reflexivity.
  - now apply combine_names.
  - apply Forall_forall. auto.
Qed.

End SimilarityEntries.

Lemma X19_similarity_entries_example :
  exists r, Analyzer.main world_three_files = Ok r
    /\ Analyzer.document_similarity r
       = [ {| Analyzer.doc1 := cps "page_1.json"; Analyzer.doc2 := cps "page_2.json";
              Analyzer.similarity := (1 # 2)%Q |} ].
Proof.
  destruct (Analyzer.main world_three_files) as [r|e] eqn:E;
    [|vm_compute in E; discriminate E].
  exists r. split; [reflexivity|].
  rewrite (@X19_similarity_entries table world_three_files r [cps "a b c"; cps "b c d"] E).
  - vm_compute. reflexivity.
  - vm_compute. repeat constructor; simpl; intuition discriminate.
  - vm_compute. repeat constructor.
Defined.

(* ================================================================== *)
(** * The name of an output file *)
(* ================================================================== *)

Section Literals.
Import Re.

Lemma exec_Lit (eq : cp -> cp -> bool) (k : cont) (s : str) (g : capture) (l t : str) :
  Forall2 (fun c x => eq c x = true) l t ->
  forall prev, exec (Lit eq l) k prev (t ++ s) g = k (fold_left (fun _ x => Some x) t prev) s g.
Proof.
  induction 1 as [|c x l t Hcx _ IH]; intros prev; [reflexivity|].
  cbn [Lit exec app fold_left]. rewrite Hcx. apply IH.
Qed.

(** A greedy repetition over a run of its class that ends at a character
    outside the class, when what follows matches there. *)
Lemma rep_greedy_run (p : cp -> bool) (k : cont) (g : capture) (rest : str)
    (r : str * capture) (ds : str) :
  forallb p ds = true -> Forall (fun x => p x = false) (firstn 1 rest) ->
  (forall prev, k prev rest g = Some r) ->
  forall prev, rep_greedy p k prev (ds ++ rest) g = Some r.
Proof.
  intros Hds Hrest Hk. induction ds as [|d ds IH]; intros prev.
  - cbn [app]. destruct rest as [|c rest]; [apply Hk|].
    cbn [rep_greedy]. cbn [firstn] in Hrest. inversion Hrest as [|? ? Hc _]; subst.
    rewrite Hc. apply Hk.
  - cbn [forallb] in Hds. apply andb_true_iff in Hds. destruct Hds as [Hd Hds].
    cbn [app rep_greedy]. rewrite Hd, (IH Hds). reflexivity.
Qed.

Lemma taken_app (a b : str) : taken (a ++ b) b = a.
Proof.
  unfold taken. rewrite length_app.
  replace (length a + length b - length b) with (length a) by lia.
  induction a as [|x a IH]; cbn [length app firstn]; [now destruct b|now rewrite IH].
Qed.

End Literals.

Section OutputName.
Context {U : UnicodeDB}.
Import Processor.

Definition caseless (l t : str) : Prop := Forall2 (fun c x => uc_caseless c x = true) l t.

Lemma match_page (p ds e : str) :
  caseless (cps "page_") p -> caseless (cps ".html") e ->
  ds <> [] -> forallb uc_isdecimal ds = true ->
  Forall (fun x => uc_isdecimal x = false) e ->
  Re.match_group RE_page (p ++ ds ++ e) = Some (p ++ ds).
Proof.
  intros Hp He Hne Hds Hdot. unfold Re.match_group, Re.match_at.
  set (s := p ++ ds ++ e).
  set (K := fun (prev' : option cp) (s' : str) (_ : Re.capture) =>
              Re.exec (Re.Seq (ci ".html") Re.Dollar) Re.accept prev' s' (Some (s, s'))).
  assert (HK : forall prev g, K prev e g = Some ([], Some (s, e))).
  { intros prev g. unfold K.
    change (Re.exec (ci ".html") (Re.exec Re.Dollar Re.accept) prev e (Some (s, e))
            = Some ([], Some (s, e))).
    unfold ci. rewrite <- (app_nil_r e) at 1.
    rewrite (@exec_Lit uc_caseless _ [] (Some (s, e)) _ _ He). reflexivity. }
  assert (HG : Re.exec RE_page Re.accept None s None = Some ([], Some (s, e))).
  { change (Re.exec (ci "page_") (Re.exec (Re.Plus uc_isdecimal) K) None s None
            = Some ([], Some (s, e))).
    unfold ci, s. rewrite (@exec_Lit uc_caseless _ (ds ++ e) None _ _ Hp).
    destruct ds as [|d ds]; [congruence|].
    cbn [forallb] in Hds. apply andb_true_iff in Hds. destruct Hds as [Hd Hds].
    unfold Re.Plus. cbn [Re.exec app]. rewrite Hd.
    apply rep_greedy_run; auto.
    destruct e as [|c e]; cbn [firstn]; [constructor|].
    inversion Hdot; subst. repeat constructor. assumption. }
  rewrite HG. cbn [option_map fst snd]. f_equal.
  unfold s. rewrite app_assoc. apply taken_app.
Qed.

(** X20: a raw file whose name is "page_", some decimal digits and
    ".html", in any letter case, is written to the processed directory
    under the same name with ".json" in the place of its extension, the
    letter case of "page_" kept, whatever its position among the files. *)
Theorem X20_page_output_name (idx : nat) (path p ds e : str) :
  basename path = p ++ ds ++ e ->
  caseless (cps "page_") p -> caseless (cps ".html") e ->
  ds <> [] -> forallb uc_isdecimal ds = true ->
  Forall (fun x => uc_isdecimal x = false) e ->
  out_path_for idx path = cps "/shared/processed/" ++ p ++ ds ++ cps ".json".
Proof.
  intros Hb Hp He Hne Hds Hdot. unfold out_path_for.
  rewrite Hb, (match_page Hp He Hne Hds Hdot).
  unfold path_join, PROCESSED_DIR. rewrite <- !app_assoc. reflexivity.
Qed.

End OutputName.

Lemma X20_page_output_name_example :
  out_path_for (U := table) 5 (cps "/shared/raw/PAGE_12.HTML")
  = cps "/shared/processed/PAGE_12.json".
Proof.
  apply (@X20_page_output_name table 5 (cps "/shared/raw/PAGE_12.HTML")
           (cps "PAGE_") (cps "12") (cps ".HTML")).
  - reflexivity.
  - repeat constructor.
  - repeat constructor.
  - discriminate.
  - reflexivity.
  - repeat constructor.
Defined.

(* ================================================================== *)
(** * Runs of spaces *)
(* ================================================================== *)

(** The text starts with no character of the class. *)
Definition headfree (p : cp -> bool) (t : str) : Prop :=
  match t with b :: _ => p b = false | [] => True end.

(** No two characters of the class stand side by side. *)
Fixpoint apart (p : cp -> bool) (t : str) : Prop :=
  match t with
  | [] => True
  | a :: t' => (p a = true -> headfree p t') /\ apart p t'
  end.

Section Apart.
Import Re.
Variable p : cp -> bool.

Lemma apart_app_r (a b : str) : apart p (a ++ b) -> apart p b.
Proof. induction a as [|x a IH]; cbn [app apart]; [auto|]. intros [_ H]. auto. Qed.

Lemma apart_app_l (a b : str) : apart p (a ++ b) -> apart p a.
Proof.
  induction a as [|x a IH]; cbn [app apart]; [auto|]. intros [Hx H].
  split; [|auto]. intros Hp. specialize (Hx Hp). destruct a; [exact I|exact Hx].
Qed.

Lemma apart_sep (x : cp) (a b : str) :
  p x = false -> apart p a -> apart p b -> apart p (a ++ x :: b).
Proof.
  intros Hx Ha Hb. induction a as [|y a IH]; cbn [app apart].
  - split; [congruence|exact Hb].
  - destruct Ha as [Hy Ha]. split; [|auto].
    intros Hp. specialize (Hy Hp). destruct a; [exact Hx|exact Hy].
Qed.

Lemma apart_pair (t pre post : str) (a b : cp) :
  apart p t -> p a = true -> p b = true -> t <> pre ++ a :: b :: post.
Proof.
  intros Ht Ha Hb E. subst t. apply apart_app_r in Ht.
  cbn [apart headfree] in Ht. destruct Ht as [H _]. specialize (H Ha). congruence.
Qed.

(** Putting one character in the place of every run of the class leaves
    no two of them side by side. *)
Lemma sub_plus_apart (x : cp) (s : str) :
  (forall prev, apart p (sub_from (Plus p) [x] 0 prev s))
  /\ (forall prev, apart p (sub_from (Plus p) [x] (span p s) prev s)
                   /\ headfree p (sub_from (Plus p) [x] (span p s) prev s)).
Proof.
  induction s as [|c s [IHa IHb]].
  - split; intros prev; cbn; auto.
  - assert (A : forall prev, apart p (sub_from (Plus p) [x] 0 prev (c :: s))
                             /\ (p c = false ->
                                 headfree p (sub_from (Plus p) [x] 0 prev (c :: s)))).
    { intros prev. cbn [sub_from]. rewrite match_len_plus. destruct (p c) eqn:Hc.
      - destruct (IHb (Some c)) as [Hap Hh]. cbn [app apart]. split; [|discriminate].
        split; [intros _; exact Hh|exact Hap].
      - cbn [apart headfree]. split; [|auto]. split; [congruence|apply IHa]. }
    split; [intros prev; apply A|].
    intros prev. cbn [span]. destruct (p c) eqn:Hc.
    + cbn [sub_from]. apply IHb.
    + destruct (A prev) as [Hap Hh]. auto.
Qed.

Hypothesis p_NL : p NL = false.

Lemma headfree_first_line (s l : str) (ls : list str) :
  split_char NL s = l :: ls -> headfree p s -> headfree p l.
Proof.
  destruct s as [|b s]; cbn [split_char].
  - intros H _. injection H as <- _. exact I.
  - destruct (N.eqb b NL).
    + intros H _. injection H as <- _. exact I.
    + destruct (split_char NL s) as [|l0 ls0]; cbn [push]; intros H Hb;
        injection H as <- _; exact Hb.
Qed.

Lemma split_char_apart (s : str) : apart p s -> Forall (apart p) (split_char NL s).
Proof.
  induction s as [|c s IH]; cbn [split_char apart]; [repeat constructor|].
  intros [Hc Hs]. specialize (IH Hs). destruct (N.eqb c NL).
  - constructor; [exact I|exact IH].
  - pose proof (@headfree_first_line s) as Hf.
    destruct (split_char NL s) as [|l ls]; cbn [push].
    + repeat constructor.
    + inversion IH; subst. constructor; [|assumption].
      cbn [apart]. split; [|assumption].
      intros Hp. exact (Hf l ls eq_refl (Hc Hp)).
Qed.

Lemma join_apart (ls : list str) : Forall (apart p) ls -> apart p (join [NL] ls).
Proof.
  induction 1 as [|l ls Hl Hls IH]; [exact I|].
  destruct ls as [|m ls]; [exact Hl|].
  rewrite join_cons by discriminate. cbn [app].
  apply apart_sep; assumption.
Qed.

Lemma is_NL (c : cp) : is_char NL c = true -> c = NL.
Proof. unfold is_char. intros H. apply N.eqb_eq in H. now subst. Qed.

(** Shortening the runs of newlines brings no two characters of the class
    together. *)
Lemma sub_nl3_apart (s : str) :
  (forall prev, apart p s ->
     apart p (sub_from Processor.RE_nl3 [NL; NL] 0 prev s)
     /\ (headfree p s -> headfree p (sub_from Processor.RE_nl3 [NL; NL] 0 prev s)))
  /\ (forall prev, apart p s ->
        apart p (sub_from Processor.RE_nl3 [NL; NL] (span (is_char NL) s) prev s)).
Proof.
  induction s as [|c s [IHa IHb]].
  - split; intros prev _; cbn; auto.
  - assert (A : forall prev, apart p (c :: s) ->
      apart p (sub_from Processor.RE_nl3 [NL; NL] 0 prev (c :: s))
      /\ (headfree p (c :: s) ->
          headfree p (sub_from Processor.RE_nl3 [NL; NL] 0 prev (c :: s)))).
    { intros prev [Hc Hs]. cbn [sub_from]. rewrite match_len_nl3.
      destruct (3 <=? span (is_char NL) (c :: s)) eqn:E.
      - apply Nat.leb_le in E. cbn [span] in E |- *.
        destruct (is_char NL c) eqn:Hnl; [|lia].
        cbn [app apart headfree]. rewrite p_NL.
        repeat split; try congruence. now apply IHb.
      - destruct (IHa (Some c) Hs) as [Hap Hh].
        assert (Hkeep : apart p (c :: sub_from Processor.RE_nl3 [NL; NL] 0 (Some c) s)
                        /\ (headfree p (c :: s) ->
                            headfree p (c :: sub_from Processor.RE_nl3 [NL; NL] 0 (Some c) s))).
        { cbn [apart headfree]. split; [|auto]. split; [|exact Hap]. auto. }
        destruct (span (is_char NL) (c :: s)) as [|n]; exact Hkeep. }
    split; [exact A|].
    intros prev Hcs. cbn [span]. destruct (is_char NL c) eqn:Hnl.
    + cbn [sub_from]. apply IHb. now destruct Hcs.
    + now apply A.
Qed.

End Apart.

Section SingleSpaces.
Context {U : UnicodeDB}.
Import Processor.

Lemma strip_apart (p : cp -> bool) (s : str) : apart p s -> apart p (strip s).
Proof.
  destruct (strip_infix s) as (pre & post & E & _). intros H.
  rewrite E in H. apply apart_app_r in H. now apply apart_app_l in H.
Qed.

(** X21: the text that [strip_html] extracts has no two spaces side by
    side: every run of spaces, tabs, form feeds and vertical tabs, and of
    the spaces that stand for tags, has become one space. *)
Theorem X21_single_spaces (html : str) :
  forall pre post, Spec.extracted html <> pre ++ SP :: SP :: post.
Proof.
  intros pre post.
  apply (@apart_pair (one_of [SP; TAB; FF; VT])); [|reflexivity|reflexivity].
  rewrite extracted_normalized. apply strip_apart. unfold normalized.
  apply (proj1 (@sub_nl3_apart _ eq_refl _) None).
  apply join_apart; [reflexivity|].
  apply Forall_map.
  apply Forall_impl with (P := apart (one_of [SP; TAB; FF; VT])).
  - intros l. apply strip_apart.
  - apply split_char_apart.
    unfold RE_blanks. exact (proj1 (sub_plus_apart _ SP _) None).
Qed.

End SingleSpaces.

(** Two documents with one word in common out of 640: the similarity 1/640
    is a float just above 0.0015625, and is reported as 0.001563. *)
Definition world_six_forty : Analyzer.world :=
  let words (t : string) (n : nat) :=
    concat (map (fun i => cps t ++ str_of_nat i ++ [SP]) (seq 0 n)) ++ cps "c" in
  {| Analyzer.processed_files :=
       [cps "/shared/processed/page_1.json"; cps "/shared/processed/page_2.json"];
     Analyzer.read_processed_json :=
       fun p => if str_eqb p (cps "/shared/processed/page_1.json")
                then Ok (JObj [(cps "text", JStr (words "a"%string 319))])
                else Ok (JObj [(cps "text", JStr (words "b"%string 320))]);
     Analyzer.now := cps "2024-01-01T00:00:00+00:00" |}.

Example main_six_forty :
  exists r, Analyzer.main world_six_forty = Ok r
    /\ map Analyzer.similarity (Analyzer.document_similarity r) = [(1563 # 1000000)%Q].
Proof. eexists. split; [vm_compute; reflexivity|reflexivity]. Qed.
